(** * koobide_next_js: the avatar session hook and the realtime voice bridge

    A shallow embedding of [src/hooks/useAgentConnection.ts] (the hooks
    [useAgentConnection] and [useRealtimeGPT]) and of the handlers of
    [src/app/page.tsx] that call into them.

    Conventions of the embedding:
    - a JavaScript string is its list of UTF-16 code units ([jsstring]);
    - values of type [any] (parsed JSON, request bodies) are [JsValue];
      numbers are the integers ([Z]): HTTP statuses, close codes and byte
      counters are all the code computes with;
    - an [async] function is a computation in the monad [M]: it threads the
      [World] (React state, refs, browser objects, the observable trace) and
      ends in a [Completion], normal or thrown, so [try]/[catch] is [try_catch];
    - React closures read the state of the render that created them: every
      hook callback takes that snapshot ([cap]) as an argument, while the
      [set...] calls write the live state held in the [World];
    - what the outside decides (server answers, WebRTC negotiation) is an
      [Env] of oracles; [console] output is not modelled, and of the two
      [setTimeout] waits of [fetchWithRetry] only the fact that a wait
      happens is recorded, not its random length. *)

From Stdlib Require Import ZArith NArith List String Ascii Bool Lia.
From Stdlib Require Import DecimalString.
From stdpp Require Import base decidable option list numbers.
From Equations Require Import Equations.
Import ListNotations.

Local Open Scope Z_scope.

(** ** JavaScript strings *)

Definition jsstring := list N.

Definition lit (s : string) : jsstring :=
  List.map N_of_ascii (list_ascii_of_string s).

(** White space and line terminators of ECMAScript, as code units: what
    [String.prototype.trim] strips. *)
Definition is_js_space (c : N) : bool :=
  (N.eqb c 9 || N.eqb c 10 || N.eqb c 11 || N.eqb c 12 || N.eqb c 13 ||
   N.eqb c 32 || N.eqb c 160 || N.eqb c 5760 ||
   (N.leb 8192 c && N.leb c 8202) ||
   N.eqb c 8232 || N.eqb c 8233 || N.eqb c 8239 || N.eqb c 8287 ||
   N.eqb c 12288 || N.eqb c 65279)%bool.

Fixpoint trimStart (s : jsstring) : jsstring :=
  match s with
  | [] => []
  | c :: r => if is_js_space c then trimStart r else s
  end.

Definition trimEnd (s : jsstring) : jsstring := rev (trimStart (rev s)).

Definition trim (s : jsstring) : jsstring := trimEnd (trimStart s).

Definition is_empty (s : jsstring) : bool :=
  match s with [] => true | _ => false end.

(** ** JavaScript values *)

#[local] Set Warnings "-register-all".

Inductive JsValue :=
| JUndefined
| JNull
| JBool (b : bool)
| JNum (n : Z)
| JStr (s : jsstring)
| JArr (l : list JsValue)
| JObj (fields : list (jsstring * JsValue)).

Inductive JsError :=
| NetworkError (tag : nat)        (* fetch rejected *)
| ErrorMsg (message : jsstring)   (* new Error(message) *)
| TypeError
| SyntaxError                     (* response.json() on a non-JSON body *)
| DOMException.

Inductive Completion (A : Type) :=
| Normal (a : A)
| Throw (e : JsError).
Arguments Normal {A} a.
Arguments Throw {A} e.

(** ToBoolean *)
Definition truthy (v : JsValue) : bool :=
  match v with
  | JUndefined | JNull => false
  | JBool b => b
  | JNum n => negb (n =? 0)
  | JStr s => negb (is_empty s)
  | JArr _ | JObj _ => true
  end.

(** ToString, as a template literal or [+=] on a string applies it. A
    number is printed with all its digits: JavaScript's exponent form, from
    10^21 on, is not followed. *)
Fixpoint to_string (v : JsValue) : jsstring :=
  match v with
  | JUndefined => lit "undefined"
  | JNull => lit "null"
  | JBool true => lit "true"
  | JBool false => lit "false"
  | JNum n => lit (NilZero.string_of_int (Z.to_int n))
  | JStr s => s
  | JArr l =>
      (fix join (l : list JsValue) : jsstring :=
         match l with
         | [] => []
         | x :: r =>
             let e := match x with
                      | JUndefined | JNull => []
                      | _ => to_string x
                      end in
             match r with
             | [] => e
             | _ => e ++ lit "," ++ join r
             end
         end) l
  | JObj _ => lit "[object Object]"
  end.

Fixpoint assoc (k : jsstring) (fs : list (jsstring * JsValue)) : JsValue :=
  match fs with
  | [] => JUndefined
  | (k', v) :: r => if bool_decide (k' = k) then v else assoc k r
  end.

(** [v.k] for the property names this code reads, none of which is a
    built-in of a primitive or of an array. *)
Definition get_prop (v : JsValue) (k : string) : Completion JsValue :=
  match v with
  | JUndefined | JNull => Throw TypeError
  | JObj fs => Normal (assoc (lit k) fs)
  | _ => Normal JUndefined
  end.

(** [v === 'literal'] *)
Definition is_str (v : JsValue) (s : string) : bool :=
  match v with
  | JStr s' => bool_decide (s' = lit s)
  | _ => false
  end.

(** ** HTTP *)

Record RequestInit := {
  method : jsstring;
  headers : list (jsstring * jsstring);
  body : option JsValue          (* the value handed to JSON.stringify *)
}.

Record Response := {
  status : Z;
  statusText : jsstring;
  json : option JsValue          (* None: the body does not parse *)
}.

(** [Response.ok]: the status is in the range 200-299. *)
Definition ok (r : Response) : bool := (200 <=? status r) && (status r <=? 299).

Inductive FetchOutcome :=
| Responded (r : Response)
| Rejected (e : JsError).

Definition Request := (jsstring * RequestInit)%type.

(** ** Browser objects *)

Inductive ConnState :=
| CsNew | CsConnecting | CsConnected | CsDisconnected | CsFailed | CsClosed.

Inductive TrackKind := Video | Audio.

Record MediaStreamTrack := {
  kind : TrackKind;
  ended : bool                    (* readyState === 'ended', after stop() *)
}.

(** A MediaStream is the list of its tracks, each a reference into the
    world's track store. *)
Record MediaStream := { getTracks : list nat }.

Record VideoElement := {
  srcObject : option MediaStream;
  muted : bool;
  paused : bool;
  opacity : jsstring;                        (* style.opacity *)
  src : jsstring;
  backgroundImage : option jsstring          (* parentElement.style, None: no parent *)
}.

Record DIDApiConfig := { key : jsstring; url : jsstring }.

(** The React state of [useAgentConnection]. *)
Record HookState := {
  isStreamReady : bool;
  isStreamPlaying : bool;
  isFluent : bool;
  peerConnection : option nat;    (* a reference into the world's peer connections *)
  streamId : JsValue;
  sessionId : JsValue;
  apiConfig : option DIDApiConfig
}.

(** What the three listeners registered by [connect] close over. *)
Record Listeners := {
  l_apiConfig : DIDApiConfig;
  l_id : JsValue;
  l_session_id : JsValue;
  l_isFluentMode : bool;
  l_cap : HookState               (* the render whose [connect] registered them *)
}.

Record RTCPeerConnection := {
  connectionState : ConnState;
  iceServers : JsValue;
  listeners : option Listeners;
  dataChannels : list jsstring;
  remoteDescription : option JsValue;
  localDescription : option JsValue
}.

(** One [setInterval] registration of the track listener, with its two
    local variables. *)
Record Monitor := {
  m_pc : nat;
  m_track : nat;
  m_stream : MediaStream;
  m_isFluentMode : bool;
  m_cap : HookState;
  lastBytes : Z;
  lastPlayingState : bool;
  cleared : bool
}.

Inductive Surface := StreamVideo | IdleVideo.

Inductive Event :=
| EvFetch (r : Request)
| EvBackoff                       (* the awaited 1-2 s wait before a retry *)
| EvStatus (s : jsstring)         (* onConnectionStatusChange *)
| EvConnection (b : bool)         (* onConnectionChange *)
| EvAgentName (v : JsValue)       (* onAgentNameChange *)
| EvTrackStop (t : nat)
| EvPcClose (pc : nat)
| EvPcNew (pc : nat)
| EvPlay (s : Surface).

(** A pending [setTimeout] of the track listener: its delay in ms. Its
    callback is [delayed_play]. *)
Record Timeout := { delay : Z }.

Record World := {
  hook : HookState;
  streamVideoRef : option VideoElement;
  idleVideoRef : option VideoElement;
  pcs : list RTCPeerConnection;
  tracks : list MediaStreamTrack;
  intervals : list Monitor;
  timeouts : list Timeout;
  trace : list Event
}.

(** The outside world. The server sees the requests issued before. *)
Record Env := {
  server : list Request -> Request -> FetchOutcome;
  constructs : JsValue -> bool;                     (* new RTCPeerConnection({iceServers}) *)
  setRemoteDescription : JsValue -> bool;
  createAnswer : JsValue -> option JsValue;
  setLocalDescription : JsValue -> bool
}.

(** ** The monad of asynchronous code *)

Definition St (S A : Type) : Type := S -> Completion A * S.

Definition ret {S A} (a : A) : St S A := fun w => (Normal a, w).

Definition throw {S A} (e : JsError) : St S A := fun w => (Throw e, w).

Definition bind {S A B} (m : St S A) (k : A -> St S B) : St S B :=
  fun w => match m w with
           | (Normal a, w') => k a w'
           | (Throw e, w') => (Throw e, w')
           end.

Definition try_catch {S A} (m : St S A) (h : JsError -> St S A) : St S A :=
  fun w => match m w with
           | (Normal a, w') => (Normal a, w')
           | (Throw e, w') => h e w'
           end.

Definition lift {S A} (c : Completion A) : St S A := fun w => (c, w).

Definition modify {S} (f : S -> S) : St S unit := fun w => (Normal tt, f w).

Definition get {S} : St S S := fun w => (Normal w, w).

#[global] Instance St_ret {S} : MRet (St S) := @ret S.
#[global] Instance St_bind {S} : MBind (St S) := fun A B k m => bind m k.

Fixpoint forEach {S A} (f : A -> St S unit) (l : list A) : St S unit :=
  match l with
  | [] => mret tt
  | x :: r => f x;; forEach f r
  end.

Abbreviation M := (St World).

Definition set_trace (f : list Event -> list Event) (w : World) : World :=
  {| hook := hook w; streamVideoRef := streamVideoRef w;
     idleVideoRef := idleVideoRef w; pcs := pcs w; tracks := tracks w;
     intervals := intervals w; timeouts := timeouts w; trace := f (trace w) |}.

Definition set_hook (f : HookState -> HookState) (w : World) : World :=
  {| hook := f (hook w); streamVideoRef := streamVideoRef w;
     idleVideoRef := idleVideoRef w; pcs := pcs w; tracks := tracks w;
     intervals := intervals w; timeouts := timeouts w; trace := trace w |}.

Definition set_streamVideo (f : VideoElement -> VideoElement) (w : World) : World :=
  {| hook := hook w; streamVideoRef := f <$> streamVideoRef w;
     idleVideoRef := idleVideoRef w; pcs := pcs w; tracks := tracks w;
     intervals := intervals w; timeouts := timeouts w; trace := trace w |}.

Definition set_idleVideo (f : VideoElement -> VideoElement) (w : World) : World :=
  {| hook := hook w; streamVideoRef := streamVideoRef w;
     idleVideoRef := f <$> idleVideoRef w; pcs := pcs w; tracks := tracks w;
     intervals := intervals w; timeouts := timeouts w; trace := trace w |}.

Definition set_pcs (f : list RTCPeerConnection -> list RTCPeerConnection)
    (w : World) : World :=
  {| hook := hook w; streamVideoRef := streamVideoRef w;
     idleVideoRef := idleVideoRef w; pcs := f (pcs w); tracks := tracks w;
     intervals := intervals w; timeouts := timeouts w; trace := trace w |}.

Definition set_tracks (f : list MediaStreamTrack -> list MediaStreamTrack)
    (w : World) : World :=
  {| hook := hook w; streamVideoRef := streamVideoRef w;
     idleVideoRef := idleVideoRef w; pcs := pcs w; tracks := f (tracks w);
     intervals := intervals w; timeouts := timeouts w; trace := trace w |}.

Definition set_intervals (f : list Monitor -> list Monitor) (w : World) : World :=
  {| hook := hook w; streamVideoRef := streamVideoRef w;
     idleVideoRef := idleVideoRef w; pcs := pcs w; tracks := tracks w;
     intervals := f (intervals w); timeouts := timeouts w; trace := trace w |}.

Definition set_timeouts (f : list Timeout -> list Timeout) (w : World) : World :=
  {| hook := hook w; streamVideoRef := streamVideoRef w;
     idleVideoRef := idleVideoRef w; pcs := pcs w; tracks := tracks w;
     intervals := intervals w; timeouts := f (timeouts w); trace := trace w |}.

Definition emit (e : Event) : M unit := modify (set_trace (fun t => t ++ [e])).

(** The state setters of the hook. *)
Definition setIsStreamReady (b : bool) : M unit :=
  modify (set_hook (fun h =>
    {| isStreamReady := b; isStreamPlaying := isStreamPlaying h;
       isFluent := isFluent h; peerConnection := peerConnection h;
       streamId := streamId h; sessionId := sessionId h;
       apiConfig := apiConfig h |})).

Definition setIsStreamPlaying (b : bool) : M unit :=
  modify (set_hook (fun h =>
    {| isStreamReady := isStreamReady h; isStreamPlaying := b;
       isFluent := isFluent h; peerConnection := peerConnection h;
       streamId := streamId h; sessionId := sessionId h;
       apiConfig := apiConfig h |})).

Definition setIsFluent (b : bool) : M unit :=
  modify (set_hook (fun h =>
    {| isStreamReady := isStreamReady h; isStreamPlaying := isStreamPlaying h;
       isFluent := b; peerConnection := peerConnection h;
       streamId := streamId h; sessionId := sessionId h;
       apiConfig := apiConfig h |})).

Definition setPeerConnection (p : option nat) : M unit :=
  modify (set_hook (fun h =>
    {| isStreamReady := isStreamReady h; isStreamPlaying := isStreamPlaying h;
       isFluent := isFluent h; peerConnection := p;
       streamId := streamId h; sessionId := sessionId h;
       apiConfig := apiConfig h |})).

Definition setStreamId (v : JsValue) : M unit :=
  modify (set_hook (fun h =>
    {| isStreamReady := isStreamReady h; isStreamPlaying := isStreamPlaying h;
       isFluent := isFluent h; peerConnection := peerConnection h;
       streamId := v; sessionId := sessionId h;
       apiConfig := apiConfig h |})).

Definition setSessionId (v : JsValue) : M unit :=
  modify (set_hook (fun h =>
    {| isStreamReady := isStreamReady h; isStreamPlaying := isStreamPlaying h;
       isFluent := isFluent h; peerConnection := peerConnection h;
       streamId := streamId h; sessionId := v;
       apiConfig := apiConfig h |})).

(** Field updates of a video element. *)
Definition with_srcObject (o : option MediaStream) (v : VideoElement) :=
  {| srcObject := o; muted := muted v; paused := paused v;
     opacity := opacity v; src := src v; backgroundImage := backgroundImage v |}.
Definition with_muted (b : bool) (v : VideoElement) :=
  {| srcObject := srcObject v; muted := b; paused := paused v;
     opacity := opacity v; src := src v; backgroundImage := backgroundImage v |}.
Definition with_paused (b : bool) (v : VideoElement) :=
  {| srcObject := srcObject v; muted := muted v; paused := b;
     opacity := opacity v; src := src v; backgroundImage := backgroundImage v |}.
Definition with_opacity (o : jsstring) (v : VideoElement) :=
  {| srcObject := srcObject v; muted := muted v; paused := paused v;
     opacity := o; src := src v; backgroundImage := backgroundImage v |}.
Definition with_src (s : jsstring) (v : VideoElement) :=
  {| srcObject := srcObject v; muted := muted v; paused := paused v;
     opacity := opacity v; src := s; backgroundImage := backgroundImage v |}.
Definition with_backgroundImage (s : jsstring) (v : VideoElement) :=
  {| srcObject := srcObject v; muted := muted v; paused := paused v;
     opacity := opacity v; src := src v;
     backgroundImage := (fun _ => s) <$> backgroundImage v |}.

Definition with_connectionState (c : ConnState) (p : RTCPeerConnection) :=
  {| connectionState := c; iceServers := iceServers p;
     listeners := listeners p; dataChannels := dataChannels p;
     remoteDescription := remoteDescription p;
     localDescription := localDescription p |}.
Definition with_listeners (l : Listeners) (p : RTCPeerConnection) :=
  {| connectionState := connectionState p; iceServers := iceServers p;
     listeners := Some l; dataChannels := dataChannels p;
     remoteDescription := remoteDescription p;
     localDescription := localDescription p |}.
Definition with_dataChannel (label : jsstring) (p : RTCPeerConnection) :=
  {| connectionState := connectionState p; iceServers := iceServers p;
     listeners := listeners p; dataChannels := dataChannels p ++ [label];
     remoteDescription := remoteDescription p;
     localDescription := localDescription p |}.
Definition with_remoteDescription (d : JsValue) (p : RTCPeerConnection) :=
  {| connectionState := connectionState p; iceServers := iceServers p;
     listeners := listeners p; dataChannels := dataChannels p;
     remoteDescription := Some d;
     localDescription := localDescription p |}.
Definition with_localDescription (d : JsValue) (p : RTCPeerConnection) :=
  {| connectionState := connectionState p; iceServers := iceServers p;
     listeners := listeners p; dataChannels := dataChannels p;
     remoteDescription := remoteDescription p;
     localDescription := Some d |}.

#[global] Instance ConnState_eq_dec : EqDecision ConnState.
Proof. solve_decision. Defined.

Fixpoint requests (t : list Event) : list Request :=
  match t with
  | [] => []
  | EvFetch r :: t' => r :: requests t'
  | _ :: t' => requests t'
  end.

Section Agent.

Variable env : Env.

(** [await fetch(url, options)] *)
Definition fetch (url : jsstring) (options : RequestInit) : M Response :=
  fun w =>
    let w' := snd (emit (EvFetch (url, options)) w) in
    match server env (requests (trace w)) (url, options) with
    | Responded res => (Normal res, w')
    | Rejected e => (Throw e, w')
    end.

Definition backoff : M unit := emit EvBackoff.

Equations? fetchWithRetry (u : jsstring) (options : RequestInit) (retries : Z)
    (w : World) : Completion Response * World by wf (Z.to_nat retries) lt :=
  fetchWithRetry u options retries w with fetch u options w => {
    | (Normal res, w1) with Z_lt_dec 0 retries => {
        | left _ =>
            if negb (ok res)
            then fetchWithRetry u options (retries - 1) (snd (backoff w1))
            else (Normal res, w1)
        | right _ => (Normal res, w1) }
    | (Throw err, w1) with Z_lt_dec 0 retries => {
        | left _ => fetchWithRetry u options (retries - 1) (snd (backoff w1))
        | right _ => (Throw err, w1) } }.
Proof. all: lia. Qed.

Definition agentId : jsstring := lit "v2_agt_08Ix5nLz".

Definition auth_headers (cfg : DIDApiConfig) : list (jsstring * jsstring) :=
  [ (lit "Authorization", lit "Basic " ++ key cfg);
    (lit "Content-Type", lit "application/json") ].

Definition GET (cfg : DIDApiConfig) : RequestInit :=
  {| method := lit "GET"; headers := auth_headers cfg; body := None |}.

Definition POST (cfg : DIDApiConfig) (b : JsValue) : RequestInit :=
  {| method := lit "POST"; headers := auth_headers cfg; body := Some b |}.

Definition agent_url (cfg : DIDApiConfig) : jsstring :=
  url cfg ++ lit "/agents/" ++ agentId.
Definition streams_url (cfg : DIDApiConfig) : jsstring :=
  url cfg ++ lit "/agents/" ++ agentId ++ lit "/streams".
Definition stream_url (cfg : DIDApiConfig) (id : JsValue) : jsstring :=
  url cfg ++ lit "/agents/" ++ agentId ++ lit "/streams/" ++ to_string id.
Definition ice_url (cfg : DIDApiConfig) (id : JsValue) : jsstring :=
  stream_url cfg id ++ lit "/ice".
Definition sdp_url (cfg : DIDApiConfig) (id : JsValue) : jsstring :=
  stream_url cfg id ++ lit "/sdp".

(** [HTMLMediaElement.play()], its promise caught: the element is no longer
    paused. Media loading is not modelled: only [play] changes [paused]. *)
Definition play (s : Surface) : M unit :=
  modify (match s with
          | StreamVideo => set_streamVideo (with_paused false)
          | IdleVideo => set_idleVideo (with_paused false)
          end);;
  emit (EvPlay s).

(** [(n).toString()] of the opacity 0 or 1. *)
Definition opacity_of (visible : bool) : jsstring :=
  to_string (JNum (if visible then 1 else 0)).

Definition updateVideoDisplay (cap : HookState) (stream : option MediaStream)
    (isPlaying : bool) : M unit :=
  w ← get;
  match streamVideoRef w, idleVideoRef w with
  | Some _, Some _ =>
      if negb (isFluent cap) then
        let streamOpacity := isPlaying && isStreamReady cap in
        modify (set_idleVideo (with_opacity (opacity_of (negb streamOpacity))));;
        modify (set_streamVideo (with_opacity (opacity_of streamOpacity)));;
        match isPlaying, stream with
        | true, Some st =>
            modify (set_streamVideo (with_srcObject (Some st)));;
            modify (set_streamVideo (with_muted (negb (isStreamReady cap))));;
            w' ← get;
            if from_option paused false (streamVideoRef w')
            then play StreamVideo else mret tt
        | _, _ => mret tt
        end
      else
        modify (set_idleVideo (with_opacity (lit "0")));;
        modify (set_streamVideo (with_opacity (lit "1")));;
        modify (set_streamVideo (with_muted false));;
        match stream with
        | Some st =>
            modify (set_streamVideo (with_srcObject (Some st)));;
            w' ← get;
            if from_option paused false (streamVideoRef w')
            then play StreamVideo else mret tt
        | None => mret tt
        end
  | _, _ => mret tt
  end.

Definition stop_track (t : nat) : M unit :=
  modify (set_tracks (alter (fun tr => {| kind := kind tr; ended := true |}) t));;
  emit (EvTrackStop t).

Definition stopStream : M unit :=
  w ← get;
  match streamVideoRef w with
  | None => mret tt
  | Some v =>
      match srcObject v with
      | Some stream =>
          forEach stop_track (getTracks stream);;
          modify (set_streamVideo (with_srcObject None))
      | None => mret tt
      end
  end.

(** [peerConnection.close()] *)
Definition close (p : nat) : M unit :=
  modify (set_pcs (alter (with_connectionState CsClosed) p));;
  emit (EvPcClose p).

Definition closeConnection (cap : HookState) : M unit :=
  match peerConnection cap with
  | None => mret tt
  | Some p =>
      try_catch (close p) (fun _ => mret tt);;
      setPeerConnection None;;
      setIsStreamReady false;;
      setIsStreamPlaying false
  end.

(** [peerConnection?.connectionState === 'connected'] *)
Definition reports_connected (w : World) (p : option nat) : bool :=
  match p with
  | Some i =>
      match pcs w !! i with
      | Some pc => bool_decide (connectionState pc = CsConnected)
      | None => false
      end
  | None => false
  end.

(** [await res.json()] *)
Definition response_json (res : Response) : M JsValue :=
  match json res with
  | Some v => mret v
  | None => throw SyntaxError
  end.

Definition http_error (what : string) (res : Response) : JsError :=
  ErrorMsg (lit what ++ to_string (JNum (status res)) ++ lit " " ++ statusText res).

Definition connecting_status : jsstring := lit "Connecting" ++ [8230%N].

Definition streamOptions : JsValue :=
  JObj [ (lit "compatibility_mode", JStr (lit "on")); (lit "fluent", JBool true) ].

(** The idle visuals of a talk (non-fluent) avatar. *)
Definition prep_idle_visuals (agentData fluent : JsValue) : M unit :=
  w ← get;
  match negb (truthy fluent), streamVideoRef w, idleVideoRef w with
  | true, Some sv, Some _ =>
      match backgroundImage sv with
      | Some _ =>
          presenter ← lift (get_prop agentData "presenter");
          thumbnail ← lift (get_prop presenter "thumbnail");
          modify (set_streamVideo (with_backgroundImage
                    (lit "url(" ++ to_string thumbnail ++ lit ")")))
      | None => mret tt
      end;;
      presenter ← lift (get_prop agentData "presenter");
      idle_video ← lift (get_prop presenter "idle_video");
      modify (set_idleVideo (with_src (to_string idle_video)))
  | _, _, _ => mret tt
  end.

(** [new RTCPeerConnectionCtor({ iceServers })]: the new object's reference. *)
Definition new_RTCPeerConnection (ice_servers : JsValue) : M nat :=
  if constructs env ice_servers then
    w ← get;
    let p := length (pcs w) in
    modify (set_pcs (fun l => l ++ [ {| connectionState := CsNew;
                                        iceServers := ice_servers;
                                        listeners := None;
                                        dataChannels := [];
                                        remoteDescription := None;
                                        localDescription := None |} ]));;
    emit (EvPcNew p);;
    mret p
  else throw TypeError.

(** The [try] block of [connect], in the phases its comments name. *)

(** 1) Fetch Agent info *)
Definition fetch_agent_info (cfg : DIDApiConfig) : M JsValue :=
  resAgent ← fetch (agent_url cfg) (GET cfg);
  if negb (ok resAgent)
  then throw (http_error "Failed to fetch agent info: " resAgent)
  else
    agentData ← response_json resAgent;
    preview_name ← lift (get_prop agentData "preview_name");
    emit (EvAgentName preview_name);;
    mret agentData.

(** Create a new stream: the parsed answer of the server. *)
Definition create_stream (cfg : DIDApiConfig) : M JsValue :=
  resStream ← fetchWithRetry (streams_url cfg) (POST cfg streamOptions) 3;
  if negb (ok resStream)
  then throw (http_error "Failed to create stream: " resStream)
  else response_json resStream.

(** Start the WebRTC connection: the new object with its three listeners
    (icecandidate, connectionstatechange, track) and its data channel, whose
    onmessage handler only logs. *)
Definition start_webrtc (l : Listeners) (ice_servers : JsValue) : M nat :=
  newPeerConnection ← new_RTCPeerConnection ice_servers;
  setPeerConnection (Some newPeerConnection);;
  modify (set_pcs (alter (with_listeners l) newPeerConnection));;
  modify (set_pcs (alter (with_dataChannel (lit "JanusDataChannel"))
                     newPeerConnection));;
  mret newPeerConnection.

(** The offer applied, the answer created and applied. *)
Definition negotiate (newPeerConnection : nat) (offer : JsValue) : M JsValue :=
  (if setRemoteDescription env offer
   then modify (set_pcs (alter (with_remoteDescription offer) newPeerConnection))
   else throw DOMException);;
  answer ← match createAnswer env offer with
           | Some a => mret a
           | None => throw DOMException
           end;
  (if setLocalDescription env answer
   then modify (set_pcs (alter (with_localDescription answer) newPeerConnection))
   else throw DOMException);;
  mret answer.

(** Send SDP answer *)
Definition send_answer (cfg : DIDApiConfig) (id session_id answer : JsValue) :
    M unit :=
  _ ← fetch (sdp_url cfg id)
        (POST cfg (JObj [ (lit "answer", answer); (lit "session_id", session_id) ]));
  mret tt.

(** What follows the stream creation, [data] being the parsed answer. *)
Definition establish (cfg : DIDApiConfig) (cap : HookState)
    (agentData data : JsValue) : M unit :=
  id ← lift (get_prop data "id");
  session_id ← lift (get_prop data "session_id");
  offer ← lift (get_prop data "offer");
  ice_servers ← lift (get_prop data "ice_servers");
  fluent ← lift (get_prop data "fluent");
  setStreamId id;;
  setSessionId session_id;;
  let isFluentMode := truthy fluent in
  setIsFluent isFluentMode;;
  prep_idle_visuals agentData fluent;;
  newPeerConnection ←
    start_webrtc {| l_apiConfig := cfg; l_id := id; l_session_id := session_id;
                    l_isFluentMode := isFluentMode; l_cap := cap |} ice_servers;
  answer ← negotiate newPeerConnection offer;
  send_answer cfg id session_id answer.

Definition handshake (cfg : DIDApiConfig) (cap : HookState) : M unit :=
  agentData ← fetch_agent_info cfg;
  data ← create_stream cfg;
  establish cfg cap agentData data.

Definition connect (cap : HookState) : M unit :=
  match apiConfig cap with
  | None => mret tt
  | Some cfg =>
      emit (EvStatus connecting_status);;
      w ← get;
      if reports_connected w (peerConnection cap) then mret tt
      else
        stopStream;;
        closeConnection cap;;
        try_catch (handshake cfg cap)
          (fun _ => emit (EvStatus (lit "Connection failed"));;
                    emit (EvConnection false))
  end.

(** *** The listeners of a peer connection *)

(** An RTCIceCandidate, as far as the listener reads it. *)
Record IceCandidate := {
  candidate : JsValue; sdpMid : JsValue; sdpMLineIndex : JsValue
}.

(** The icecandidate listener. The fetch is not awaited: its outcome,
    rejection included, is dropped. *)
Definition on_icecandidate (l : Listeners) (c : option IceCandidate) : M unit :=
  let b := match c with
           | Some c => [ (lit "candidate", candidate c);
                         (lit "sdpMid", sdpMid c);
                         (lit "sdpMLineIndex", sdpMLineIndex c) ]
           | None => []
           end in
  fun w =>
    (Normal tt,
     snd (fetch (ice_url (l_apiConfig l) (l_id l))
            (POST (l_apiConfig l)
               (JObj ((lit "session_id", l_session_id l) :: b))) w)).

(** The connectionstatechange listener of peer connection [p]. *)
Definition on_connectionstatechange (p : nat) (l : Listeners) : M unit :=
  w ← get;
  let st := from_option connectionState CsClosed (pcs w !! p) in
  (if bool_decide (st = CsConnecting)
   then emit (EvStatus connecting_status) else mret tt);;
  (if bool_decide (st = CsConnected)
   then setIsStreamReady true;;
        emit (EvStatus (lit "Connected"));;
        emit (EvConnection true)
   else mret tt);;
  (if bool_decide (st = CsDisconnected)
   then emit (EvConnection false) else mret tt);;
  (if bool_decide (st = CsFailed) || bool_decide (st = CsClosed)
   then stopStream;; closeConnection (l_cap l)
   else mret tt).

Definition getVideoTracks (w : World) (stream : MediaStream) : list nat :=
  List.filter (fun t => match tracks w !! t with
                        | Some {| kind := Video |} => true
                        | _ => false
                        end) (getTracks stream).

(** The callback of [setTimeout(..., 100)]. *)
Definition delayed_play : M unit :=
  w ← get;
  match streamVideoRef w with
  | Some v => if paused v then play StreamVideo else mret tt
  | None => mret tt
  end.

(** The track listener of peer connection [p]; [streams] is
    [event.streams]. *)
Definition on_track (p : nat) (l : Listeners) (streams : list MediaStream) : M unit :=
  match streams with
  | [] => throw TypeError                 (* stream.getVideoTracks() of undefined *)
  | stream :: _ =>
      w ← get;
      match getVideoTracks w stream, streamVideoRef w with
      | track :: _, Some _ =>
          modify (set_streamVideo (with_srcObject (Some stream)));;
          modify (set_streamVideo (with_muted false));;
          (if l_isFluentMode l then
             modify (set_streamVideo (with_opacity (lit "1")));;
             modify (set_idleVideo (with_opacity (lit "0")));;
             setIsStreamReady true;;
             modify (set_timeouts (fun t => t ++ [ {| delay := 100 |} ]))
           else mret tt);;
          modify (set_intervals (fun i => i ++
            [ {| m_pc := p; m_track := track; m_stream := stream;
                 m_isFluentMode := l_isFluentMode l; m_cap := l_cap l;
                 lastBytes := 0; lastPlayingState := false;
                 cleared := false |} ]))
      | _, _ => mret tt
      end
  end.

(** Dispatch of the browser's events to the registered listeners. *)
Definition with_listeners_of (p : nat) (k : Listeners -> M unit) : M unit :=
  w ← get;
  match pcs w !! p with
  | Some {| listeners := Some l |} => k l
  | _ => mret tt
  end.

Definition icecandidate (p : nat) (c : option IceCandidate) : M unit :=
  with_listeners_of p (fun l => on_icecandidate l c).

Definition connectionstatechange (p : nat) (st : ConnState) : M unit :=
  modify (set_pcs (alter (with_connectionState st) p));;
  with_listeners_of p (on_connectionstatechange p).

Definition track (p : nat) (streams : list MediaStream) : M unit :=
  with_listeners_of p (fun l => on_track p l streams).

(** *** The statistics sampling of a track *)

Record Report := { rtype : jsstring; rkind : jsstring; bytesReceived : Z }.

(** What one firing of the interval finds. *)
Inductive Sample :=
| NoReceiver                      (* getReceivers().find(...) is undefined *)
| StatsRejected                   (* receiver.getStats() rejects *)
| Stats (reports : list Report).

Definition with_locals (bytes : Z) (playing : bool) (m : Monitor) : Monitor :=
  {| m_pc := m_pc m; m_track := m_track m; m_stream := m_stream m;
     m_isFluentMode := m_isFluentMode m; m_cap := m_cap m;
     lastBytes := bytes; lastPlayingState := playing; cleared := cleared m |}.

Definition clearInterval (m : Monitor) : Monitor :=
  {| m_pc := m_pc m; m_track := m_track m; m_stream := m_stream m;
     m_isFluentMode := m_isFluentMode m; m_cap := m_cap m;
     lastBytes := lastBytes m; lastPlayingState := lastPlayingState m;
     cleared := true |}.

(** The body of [stats.forEach] for one report, on interval [i]. *)
Definition on_report (i : nat) (report : Report) : M unit :=
  w ← get;
  match intervals w !! i with
  | None => mret tt
  | Some m =>
      if bool_decide (rtype report = lit "inbound-rtp")
         && bool_decide (rkind report = lit "video")
      then
        let nowPlaying := lastBytes m <? bytesReceived report in
        (if negb (eqb nowPlaying (lastPlayingState m)) then
           setIsStreamPlaying nowPlaying;;
           (if negb (m_isFluentMode m)
            then updateVideoDisplay (m_cap m) (Some (m_stream m)) nowPlaying
            else mret tt);;
           modify (set_intervals (alter (with_locals (lastBytes m) nowPlaying) i))
         else mret tt);;
        modify (set_intervals
                  (alter (fun m' => with_locals (bytesReceived report)
                                      (lastPlayingState m') m') i))
      else mret tt
  end.

(** One firing of interval [i]. *)
Definition interval_tick (i : nat) (sample : Sample) : M unit :=
  w ← get;
  match intervals w !! i with
  | None => mret tt
  | Some m =>
      if cleared m then mret tt
      else if bool_decide (from_option connectionState CsClosed (pcs w !! m_pc m)
                           = CsClosed)
      then modify (set_intervals (alter clearInterval i))
      else
        try_catch
          match sample with
          | NoReceiver => mret tt
          | StatsRejected => throw DOMException
          | Stats reports => forEach (on_report i) reports
          end
          (fun _ => mret tt)
  end.

(** *** speak *)

Definition speak (cap : HookState) (message : jsstring) : M unit :=
  match peerConnection cap, isStreamReady cap, apiConfig cap,
        truthy (streamId cap), truthy (sessionId cap) with
  | Some _, true, Some cfg, true, true =>
      let val := trim message in
      if is_empty val then mret tt
      else
        _ ← fetchWithRetry (stream_url cfg (streamId cap))
              (POST cfg (JObj [ (lit "script",
                                 JObj [ (lit "type", JStr (lit "text"));
                                        (lit "input", JStr val) ]);
                                (lit "session_id", sessionId cap) ])) 3;
        mret tt
  | _, _, _, _, _ => mret tt
  end.

End Agent.

(** ** [connect], by its awaits

    [connect] runs without interruption up to its first [await]: the guards
    and the cleanup. The [try] block resumes later, and another call of
    [connect] or a listener may run in between. *)

Section ConnectAwaits.

Variable env : Env.

(** Up to the first [await]: the configuration, when the call goes on. *)
Definition connect_sync (cap : HookState) : M (option DIDApiConfig) :=
  match apiConfig cap with
  | None => mret None
  | Some cfg =>
      emit (EvStatus connecting_status);;
      w ← get;
      if reports_connected w (peerConnection cap) then mret None
      else stopStream;; closeConnection cap;; mret (Some cfg)
  end.

(** From the first [await] on. *)
Definition connect_resumed (cfg : DIDApiConfig) (cap : HookState) : M unit :=
  try_catch (handshake env cfg cap)
    (fun _ => emit (EvStatus (lit "Connection failed"));;
              emit (EvConnection false)).

End ConnectAwaits.

(** ** Loading the configuration *)

Definition setApiConfig (c : option DIDApiConfig) : M unit :=
  modify (set_hook (fun h =>
    {| isStreamReady := isStreamReady h; isStreamPlaying := isStreamPlaying h;
       isFluent := isFluent h; peerConnection := peerConnection h;
       streamId := streamId h; sessionId := sessionId h;
       apiConfig := c |})).

(** [config.k], read into a template literal. *)
Definition config_field (config : JsValue) (k : string) : jsstring :=
  match get_prop config k with
  | Normal v => to_string v
  | Throw _ => lit "undefined"
  end.

(** The state [apiConfig] after [setApiConfig(config)], as [connect] and
    [speak] read it: a falsy value counts as not loaded, and [apiConfig.url]
    and [apiConfig.key] go into template literals. *)
Definition config_of (config : JsValue) : option DIDApiConfig :=
  if truthy config
  then Some {| key := config_field config "key"; url := config_field config "url" |}
  else None.

(** [fetch('/api/config')] *)
Definition config_request : Request :=
  (lit "/api/config", {| method := lit "GET"; headers := []; body := None |}).

Section LoadConfig.

Variable env : Env.

Definition loadApiConfig : M unit :=
  try_catch
    (response ← fetch env (fst config_request) (snd config_request);
     config ← response_json response;
     setApiConfig (config_of config))
    (fun _ => mret tt).

End LoadConfig.

(** * The realtime voice bridge: [useRealtimeGPT]

    [connect], the four socket handlers, the reconnect timer and
    [handleRealtimeMessage]; audio capture ([startListening],
    [stopListening]) and [disconnect] follow in [RealtimeAudio]. A message
    sent on a socket is recorded by its [type]. *)

Module RealtimeGPT.

Inductive ReadyState := CONNECTING | OPEN | CLOSING | CLOSED.

#[global] Instance ReadyState_eq_dec : EqDecision ReadyState.
Proof. solve_decision. Defined.

Record WebSocket := {
  ws_url : jsstring;
  readyState : ReadyState;
  sent : list jsstring;
  ws_isConnected : bool           (* [isConnected] of the render whose [connect] opened it *)
}.

(** A pending [setTimeout] of the close handler, with the [isConnected] its
    callback closes over. Its callback is [reconnect_timer]. *)
Record Timer := { delay : Z; t_isConnected : bool }.

Inductive Event :=
| EvGetUserMedia
| EvTextReceived (v : JsValue)    (* onTextReceived *)
| EvError (s : jsstring)          (* onError *)
| EvConnectionChange (b : bool).  (* onConnectionChange *)

Record World := {
  (* React state *)
  isConnected : bool;
  isListening : bool;
  lastResponse : JsValue;
  (* refs *)
  wsRef : option nat;             (* a reference into [sockets] *)
  streamRef : option MediaStream;
  currentResponseRef : jsstring;
  (* browser objects *)
  sockets : list WebSocket;
  timers : list Timer;
  trace : list Event
}.

Record Env := {
  getUserMedia : list Event -> Completion MediaStream;
  apiKey : JsValue                (* process.env.NEXT_PUBLIC_OPENAI_API_KEY *)
}.

Definition setIsConnected (b : bool) (w : World) : World :=
  {| isConnected := b; isListening := isListening w;
     lastResponse := lastResponse w; wsRef := wsRef w;
     streamRef := streamRef w; currentResponseRef := currentResponseRef w;
     sockets := sockets w; timers := timers w; trace := trace w |}.

Definition setIsListening (b : bool) (w : World) : World :=
  {| isConnected := isConnected w; isListening := b;
     lastResponse := lastResponse w; wsRef := wsRef w;
     streamRef := streamRef w; currentResponseRef := currentResponseRef w;
     sockets := sockets w; timers := timers w; trace := trace w |}.

Definition setLastResponse (v : JsValue) (w : World) : World :=
  {| isConnected := isConnected w; isListening := isListening w;
     lastResponse := v; wsRef := wsRef w;
     streamRef := streamRef w; currentResponseRef := currentResponseRef w;
     sockets := sockets w; timers := timers w; trace := trace w |}.

Definition set_wsRef (r : option nat) (w : World) : World :=
  {| isConnected := isConnected w; isListening := isListening w;
     lastResponse := lastResponse w; wsRef := r;
     streamRef := streamRef w; currentResponseRef := currentResponseRef w;
     sockets := sockets w; timers := timers w; trace := trace w |}.

Definition set_streamRef (r : option MediaStream) (w : World) : World :=
  {| isConnected := isConnected w; isListening := isListening w;
     lastResponse := lastResponse w; wsRef := wsRef w;
     streamRef := r; currentResponseRef := currentResponseRef w;
     sockets := sockets w; timers := timers w; trace := trace w |}.

Definition set_currentResponseRef (s : jsstring) (w : World) : World :=
  {| isConnected := isConnected w; isListening := isListening w;
     lastResponse := lastResponse w; wsRef := wsRef w;
     streamRef := streamRef w; currentResponseRef := s;
     sockets := sockets w; timers := timers w; trace := trace w |}.

Definition set_sockets (f : list WebSocket -> list WebSocket) (w : World) : World :=
  {| isConnected := isConnected w; isListening := isListening w;
     lastResponse := lastResponse w; wsRef := wsRef w;
     streamRef := streamRef w; currentResponseRef := currentResponseRef w;
     sockets := f (sockets w); timers := timers w; trace := trace w |}.

Definition set_timers (f : list Timer -> list Timer) (w : World) : World :=
  {| isConnected := isConnected w; isListening := isListening w;
     lastResponse := lastResponse w; wsRef := wsRef w;
     streamRef := streamRef w; currentResponseRef := currentResponseRef w;
     sockets := sockets w; timers := f (timers w); trace := trace w |}.

Definition emit (e : Event) : St World unit :=
  modify (fun w =>
    {| isConnected := isConnected w; isListening := isListening w;
       lastResponse := lastResponse w; wsRef := wsRef w;
       streamRef := streamRef w; currentResponseRef := currentResponseRef w;
       sockets := sockets w; timers := timers w; trace := trace w ++ [e] |}).

Definition with_readyState (r : ReadyState) (s : WebSocket) : WebSocket :=
  {| ws_url := ws_url s; readyState := r; sent := sent s;
     ws_isConnected := ws_isConnected s |}.

(** [ws.send(JSON.stringify({ type, ... }))] *)
Definition send (type : string) (s : WebSocket) : WebSocket :=
  {| ws_url := ws_url s; readyState := readyState s;
     sent := sent s ++ [lit type]; ws_isConnected := ws_isConnected s |}.

(** [wsRef.current?.readyState === WebSocket.OPEN] *)
Definition socket_open (w : World) : bool :=
  match wsRef w with
  | Some i =>
      match sockets w !! i with
      | Some s => bool_decide (readyState s = OPEN)
      | None => false
      end
  | None => false
  end.

Definition realtime_url (apiKey : JsValue) : jsstring :=
  lit "wss://api.openai.com/v1/realtime?model=gpt-4o-realtime-preview&api_key="
  ++ to_string apiKey.

Section Bridge.

Variable env : Env.

(** [connect] of the render whose [isConnected] is [cap]. *)
Definition connect (cap : bool) : St World unit :=
  w ← get;
  if cap || socket_open w then mret tt
  else
    try_catch
      (emit EvGetUserMedia;;
       stream ← lift (getUserMedia env (trace w));
       modify (set_streamRef (Some stream));;
       if negb (truthy (apiKey env))
       then throw (ErrorMsg (lit "OpenAI API key not found"))
       else
         w1 ← get;
         let ws := length (sockets w1) in
         modify (set_sockets (fun l => l ++
           [ {| ws_url := realtime_url (apiKey env); readyState := CONNECTING;
                sent := []; ws_isConnected := cap |} ]));;
         modify (set_wsRef (Some ws)))
      (fun _ => emit (EvError (lit "Failed to access microphone or connect to API"))).

Definition handleRealtimeMessage (message : JsValue) : St World unit :=
  type ← lift (get_prop message "type");
  if is_str type "response.text.delta" then
    delta ← lift (get_prop message "delta");
    w ← get;
    modify (set_currentResponseRef (currentResponseRef w ++ to_string delta))
  else if is_str type "response.text.done" then
    w ← get;
    if negb (is_empty (trim (currentResponseRef w))) then
      modify (setLastResponse (JStr (currentResponseRef w)));;
      emit (EvTextReceived (JStr (currentResponseRef w)));;
      modify (set_currentResponseRef [])
    else mret tt
  else if is_str type "conversation_item.created" then
    item ← lift (get_prop message "item");
    role ← lift (get_prop item "role");
    if is_str role "assistant" then
      content ← lift (get_prop item "content");
      match content with
      | JArr l =>
          textContent ←
            (fix find (l : list JsValue) : St World (option JsValue) :=
               match l with
               | [] => mret None
               | c :: r =>
                   t ← lift (get_prop c "type");
                   if is_str t "output_text" then mret (Some c) else find r
               end) l;
          match textContent with
          | Some c =>
              text ← lift (get_prop c "text");
              if truthy text then
                modify (setLastResponse text);;
                emit (EvTextReceived text)
              else mret tt
          | None => mret tt
          end
      | _ => throw TypeError              (* content.find is not a function *)
      end
    else mret tt
  else mret tt.

(** The socket handlers; the browser has set [readyState] before it calls
    [onopen] and [onclose]. *)
Definition onopen (ws : nat) : St World unit :=
  modify (set_sockets (alter (with_readyState OPEN) ws));;
  modify (setIsConnected true);;
  emit (EvConnectionChange true);;
  modify (set_sockets (alter (send "session.update") ws)).

(** [data] is [JSON.parse(event.data)], [None] when it throws. *)
Definition onmessage (data : option JsValue) : St World unit :=
  try_catch
    match data with
    | Some message => handleRealtimeMessage message
    | None => throw SyntaxError
    end
    (fun _ => mret tt).

Definition onclose (ws : nat) (code : Z) : St World unit :=
  modify (set_sockets (alter (with_readyState CLOSED) ws));;
  w ← get;
  match sockets w !! ws with
  | None => mret tt
  | Some s =>
      modify (setIsConnected false);;
      modify (setIsListening false);;
      emit (EvConnectionChange false);;
      if negb (code =? 1000)
      then modify (set_timers (fun t => t ++
             [ {| delay := 3000; t_isConnected := ws_isConnected s |} ]))
      else mret tt
  end.

Definition onerror : St World unit :=
  emit (EvError (lit "Connection error occurred"));;
  modify (setIsConnected false);;
  emit (EvConnectionChange false).


End Bridge.

End RealtimeGPT.

(** * The message handler with the caller's [onTextReceived]

    [RealtimeGPT] records a call of [onTextReceived] as an event and goes on.
    Here the callback is a parameter: what the caller's function does with
    the text, return or throw. *)

Module RealtimeCallback.

Import RealtimeGPT.

Section Callback.

Variable onTextReceived : JsValue -> Completion unit.

(** [onTextReceived(text)] *)
Definition call_onTextReceived (text : JsValue) : St World unit :=
  RealtimeGPT.emit (EvTextReceived text);;
  lift (onTextReceived text).

Definition handleRealtimeMessage (message : JsValue) : St World unit :=
  type ← lift (get_prop message "type");
  if is_str type "response.text.delta" then
    delta ← lift (get_prop message "delta");
    w ← get;
    modify (set_currentResponseRef (currentResponseRef w ++ to_string delta))
  else if is_str type "response.text.done" then
    w ← get;
    if negb (is_empty (trim (currentResponseRef w))) then
      modify (setLastResponse (JStr (currentResponseRef w)));;
      call_onTextReceived (JStr (currentResponseRef w));;
      modify (set_currentResponseRef [])
    else mret tt
  else if is_str type "conversation_item.created" then
    item ← lift (get_prop message "item");
    role ← lift (get_prop item "role");
    if is_str role "assistant" then
      content ← lift (get_prop item "content");
      match content with
      | JArr l =>
          textContent ←
            (fix find (l : list JsValue) : St World (option JsValue) :=
               match l with
               | [] => mret None
               | c :: r =>
                   t ← lift (get_prop c "type");
                   if is_str t "output_text" then mret (Some c) else find r
               end) l;
          match textContent with
          | Some c =>
              text ← lift (get_prop c "text");
              if truthy text then
                modify (setLastResponse text);;
                call_onTextReceived text
              else mret tt
          | None => mret tt
          end
      | _ => throw TypeError              (* content.find is not a function *)
      end
    else mret tt
  else mret tt.

Definition onmessage (data : option JsValue) : St World unit :=
  try_catch
    match data with
    | Some message => handleRealtimeMessage message
    | None => throw SyntaxError
    end
    (fun _ => mret tt).

End Callback.

End RealtimeCallback.

(** * Audio capture and [disconnect] of [useRealtimeGPT]

    [startListening], [stopListening], [disconnect] and the handlers of the
    media recorder, over the bridge's world extended with the recorders, the
    microphone tracks and the file readers still loading. *)

Module RealtimeAudio.

Import RealtimeGPT.

Inductive RecordingState := Inactive | Recording.

Record MediaRecorder := { r_stream : MediaStream; r_state : RecordingState }.

Record World := {
  bridge : RealtimeGPT.World;
  mediaRecorderRef : option nat;       (* a reference into [recorders] *)
  recorders : list MediaRecorder;
  mic_tracks : list MediaStreamTrack;  (* the microphone tracks, by reference *)
  readers : nat                        (* FileReaders still loading *)
}.

Record Env := {
  supported : MediaStream -> bool;     (* new MediaRecorder(stream, { mimeType }) *)
  starts : MediaStream -> bool;        (* mediaRecorder.start(100) *)
  stop_inactive : Completion unit      (* stop() of a recorder that is inactive *)
}.

Definition set_bridge (f : RealtimeGPT.World -> RealtimeGPT.World) (w : World) :
    World :=
  {| bridge := f (bridge w); mediaRecorderRef := mediaRecorderRef w;
     recorders := recorders w; mic_tracks := mic_tracks w; readers := readers w |}.

Definition set_mediaRecorderRef (r : option nat) (w : World) : World :=
  {| bridge := bridge w; mediaRecorderRef := r;
     recorders := recorders w; mic_tracks := mic_tracks w; readers := readers w |}.

Definition set_recorders (f : list MediaRecorder -> list MediaRecorder)
    (w : World) : World :=
  {| bridge := bridge w; mediaRecorderRef := mediaRecorderRef w;
     recorders := f (recorders w); mic_tracks := mic_tracks w;
     readers := readers w |}.

Definition set_mic_tracks (f : list MediaStreamTrack -> list MediaStreamTrack)
    (w : World) : World :=
  {| bridge := bridge w; mediaRecorderRef := mediaRecorderRef w;
     recorders := recorders w; mic_tracks := f (mic_tracks w);
     readers := readers w |}.

Definition set_readers (f : nat -> nat) (w : World) : World :=
  {| bridge := bridge w; mediaRecorderRef := mediaRecorderRef w;
     recorders := recorders w; mic_tracks := mic_tracks w;
     readers := f (readers w) |}.

(** A computation of the bridge, run in the extended world. *)
Definition lift_bridge {A} (m : St RealtimeGPT.World A) : St World A :=
  fun w => (fst (m (bridge w)), set_bridge (fun _ => snd (m (bridge w))) w).

Definition with_state (s : RecordingState) (r : MediaRecorder) : MediaRecorder :=
  {| r_stream := r_stream r; r_state := s |}.

(** [ws.send(JSON.stringify({ type, ... }))] on a socket in any state: it
    throws while the socket is connecting and is dropped once the socket is
    closing or closed. *)
Definition ws_send (ws : nat) (type : string) : St World unit :=
  w ← get;
  match sockets (bridge w) !! ws with
  | Some s =>
      match readyState s with
      | CONNECTING => throw DOMException
      | OPEN => modify (set_bridge (set_sockets (alter (send type) ws)))
      | _ => mret tt
      end
  | None => mret tt
  end.

(** [ws.close(1000, reason)] *)
Definition ws_close (ws : nat) : St World unit :=
  modify (set_bridge (set_sockets (alter (fun s =>
    match readyState s with
    | CLOSING | CLOSED => s
    | _ => with_readyState CLOSING s
    end) ws))).

(** [track.stop()] of a microphone track *)
Definition stop_mic_track (t : nat) : St World unit :=
  modify (set_mic_tracks (alter (fun tr => {| kind := kind tr; ended := true |}) t)).

Section Audio.

Variable env : Env.

(** [new MediaRecorder(stream, { mimeType: 'audio/webm;codecs=opus' })] *)
Definition new_MediaRecorder (stream : MediaStream) : St World nat :=
  if supported env stream then
    w ← get;
    modify (set_recorders (fun l => l ++ [ {| r_stream := stream;
                                              r_state := Inactive |} ]));;
    mret (length (recorders w))
  else throw DOMException.

(** [mediaRecorder.start(100)] *)
Definition start (r : nat) : St World unit :=
  w ← get;
  match recorders w !! r with
  | Some {| r_stream := stream; r_state := Inactive |} =>
      if starts env stream
      then modify (set_recorders (alter (with_state Recording) r))
      else throw DOMException
  | Some {| r_state := Recording |} => throw DOMException
  | None => mret tt
  end.

(** [mediaRecorder.stop()] *)
Definition stop (r : nat) : St World unit :=
  w ← get;
  match recorders w !! r with
  | Some {| r_state := Recording |} =>
      modify (set_recorders (alter (with_state Inactive) r))
  | Some {| r_state := Inactive |} => lift (stop_inactive env)
  | None => mret tt
  end.

(** [startListening] of the render whose state is [isConnected],
    [isListening]. *)
Definition startListening (isConnected isListening : bool) : St World unit :=
  w ← get;
  match negb isConnected || isListening, wsRef (bridge w) with
  | false, Some ws =>
      try_catch
        match streamRef (bridge w) with
        | None =>
            lift_bridge (RealtimeGPT.emit (EvError (lit "No audio stream available")))
        | Some stream =>
            mediaRecorder ← new_MediaRecorder stream;
            modify (set_mediaRecorderRef (Some mediaRecorder));;
            start mediaRecorder;;
            modify (set_bridge (setIsListening true));;
            ws_send ws "input_audio_buffer.commit"
        end
        (fun _ => lift_bridge
                    (RealtimeGPT.emit (EvError (lit "Failed to start audio recording"))))
  | _, _ => mret tt
  end.

(** The [ondataavailable] handler of the recorder; [size] is
    [event.data.size]. *)
Definition ondataavailable (size : Z) : St World unit :=
  w ← get;
  if (0 <? size) && socket_open (bridge w)
  then modify (set_readers S)
  else mret tt.

(** The [onload] handler of a file reader. *)
Definition reader_onload : St World unit :=
  modify (set_readers Nat.pred);;
  w ← get;
  match wsRef (bridge w) with
  | Some ws => ws_send ws "input_audio_buffer.append"
  | None => mret tt
  end.

(** [stopListening] of the render whose state is [isListening]. *)
Definition stopListening (isListening : bool) : St World unit :=
  w ← get;
  match isListening, mediaRecorderRef w with
  | true, Some r =>
      try_catch
        (stop r;;
         modify (set_mediaRecorderRef None);;
         modify (set_bridge (setIsListening false));;
         w1 ← get;
         match wsRef (bridge w1) with
         | Some ws =>
             if socket_open (bridge w1)
             then ws_send ws "input_audio_buffer.commit"
             else mret tt
         | None => mret tt
         end)
        (fun _ => mret tt)
  | _, _ => mret tt
  end.

Definition disconnect : St World unit :=
  w ← get;
  match mediaRecorderRef w with
  | Some r => stop r;; modify (set_mediaRecorderRef None)
  | None => mret tt
  end;;
  match streamRef (bridge w) with
  | Some stream =>
      forEach stop_mic_track (getTracks stream);;
      modify (set_bridge (set_streamRef None))
  | None => mret tt
  end;;
  match wsRef (bridge w) with
  | Some ws => ws_close ws;; modify (set_bridge (set_wsRef None))
  | None => mret tt
  end;;
  modify (set_bridge (setIsConnected false));;
  modify (set_bridge (setIsListening false));;
  lift_bridge (RealtimeGPT.emit (EvConnectionChange false)).

End Audio.

End RealtimeAudio.

(** * The page: [Home]

    The handlers of the page that call into the two hooks. *)

Module Page.

(** The part of the page's state that its handlers touch besides the hooks:
    the text area. *)
Record Home := {
  agent : World;
  textArea : option jsstring      (* textAreaRef.current.value; None: not mounted *)
}.

Definition set_agent (f : World -> World) (h : Home) : Home :=
  {| agent := f (agent h); textArea := textArea h |}.

Definition set_textArea (v : jsstring) (h : Home) : Home :=
  {| agent := agent h; textArea := (fun _ => v) <$> textArea h |}.

Section Handlers.

Variable env : Env.

(** [speak(message)], its promise dropped. *)
Definition speak_detached (cap : HookState) (message : jsstring) : M unit :=
  fun w => (Normal tt, snd (speak env cap message w)).

(** The [onTextReceived] that the page hands to the voice bridge, in the
    render whose agent state is [cap]. *)
Definition onTextReceived (cap : HookState) (text : JsValue) : M unit :=
  match text with
  | JStr s =>
      if negb (is_empty (trim s)) && isStreamReady cap
      then speak_detached cap s
      else mret tt
  | _ => throw TypeError                  (* text.trim is not a function *)
  end.

Definition handleSendMessage (cap : HookState) : St Home unit :=
  h ← get;
  match textArea h, isStreamReady cap with
  | Some value, true =>
      let message := trim value in
      if negb (is_empty message) then
        modify (set_agent (fun w => snd (speak_detached cap message w)));;
        modify (set_textArea [])
      else mret tt
  | _, _ => mret tt
  end.

End Handlers.

Section Voice.

Variable aenv : RealtimeAudio.Env.

(** What a re-render of [Home] does to the voice bridge. The cleanup of the
    hook's effect and that of the page's both call [disconnect] and depend
    on its identity, which changes with [onConnectionChange]; the page hands
    the hook a new function at every render, so at every re-render both
    cleanups run, each calling the [disconnect] of the render before. *)
Definition rerender : St RealtimeAudio.World unit :=
  RealtimeAudio.disconnect aenv;;
  RealtimeAudio.disconnect aenv.

End Voice.

End Page.

(** * Vocabulary of the properties *)

(** An attempt fails when it is answered outside 200-299 or rejects. *)
Definition fails (o : FetchOutcome) : bool :=
  match o with
  | Responded res => negb (ok res)
  | Rejected _ => true
  end.

Definition permanently_failing (env : Env) (r : Request) : Prop :=
  forall history, fails (server env history r) = true.

(** What [n] retries leave in the trace: [n + 1] attempts, a wait between
    two of them. *)
Fixpoint retry_trace (r : Request) (n : nat) : list Event :=
  match n with
  | O => [EvFetch r]
  | S k => EvFetch r :: EvBackoff :: retry_trace r k
  end.

Definition completion_of (o : FetchOutcome) : Completion Response :=
  match o with
  | Responded res => Normal res
  | Rejected e => Throw e
  end.

(** The world in which the [try] block of [connect] starts: the status has
    been reported, the old stream stopped and the old connection closed. *)
Definition torn_down (cap : HookState) (w : World) : World :=
  snd (closeConnection cap
         (snd (stopStream (snd (emit (EvStatus connecting_status) w))))).

(** The [catch] block of [connect]. *)
Definition connection_failed : JsError -> M unit :=
  fun _ => emit (EvStatus (lit "Connection failed"));; emit (EvConnection false).

Definition stop_all (l : list nat) (ts : list MediaStreamTrack) :
    list MediaStreamTrack :=
  fold_left (fun ts t => alter (fun tr => {| kind := kind tr; ended := true |}) t ts)
            l ts.

(** A computation keeps an observation of the world when no run of it
    changes it. *)
Definition keeps {A B} (obs : World -> B) (m : M A) : Prop :=
  forall w, obs (snd (m w)) = obs w.

(** The requests issued so far. *)
Definition issued (w : World) : list Request := requests (trace w).

(** Whatever a run of [m] adds to the requests issued satisfies [P]. *)
Definition appends {A} (P : list Request -> Prop) (m : M A) : Prop :=
  forall w, exists l, issued (snd (m w)) = issued w ++ l /\ P l.

(** The connection states of the peer connections, by reference. *)
Definition conn_states (w : World) : list ConnState :=
  List.map connectionState (pcs w).

Definition is_sdp_post (cfg : DIDApiConfig) (q : Request) : Prop :=
  exists id session_id answer,
    q = (sdp_url cfg id,
         POST cfg (JObj [ (lit "answer", answer); (lit "session_id", session_id) ])).

Definition count_requests_to (u : jsstring) (l : list Request) : nat :=
  length (List.filter (fun q => bool_decide (fst q = u)) l).

(** The body of the request of [speak]. *)
Definition speak_body (input : jsstring) (session_id : JsValue) : JsValue :=
  JObj [ (lit "script",
          JObj [ (lit "type", JStr (lit "text")); (lit "input", JStr input) ]);
         (lit "session_id", session_id) ].

(** A string of white space only, the empty one included. *)
Definition blank (s : jsstring) : bool := forallb is_js_space s.

(** A report that the sampling looks at. *)
Definition inbound_video (r : Report) : bool :=
  bool_decide (rtype r = lit "inbound-rtp") && bool_decide (rkind r = lit "video").

(** The interval as the track listener registers it. *)
Definition new_monitor (p : nat) (l : Listeners) (t : nat) (stream : MediaStream) :
    Monitor :=
  {| m_pc := p; m_track := t; m_stream := stream;
     m_isFluentMode := l_isFluentMode l; m_cap := l_cap l;
     lastBytes := 0; lastPlayingState := false; cleared := false |}.

(** The stream is ready and shown: live surface opaque and unmuted, idle
    surface transparent. *)
Definition presented (w : World) : Prop :=
  isStreamReady (hook w) = true
  /\ opacity <$> streamVideoRef w = Some (lit "1")
  /\ muted <$> streamVideoRef w = Some false
  /\ opacity <$> idleVideoRef w = Some (lit "0").

(** Interval [i] is registered and belongs to a fluent stream. *)
Definition fluent_interval (i : nat) (w : World) : Prop :=
  exists m, intervals w !! i = Some m /\ m_isFluentMode m = true.

(** The count an inbound video report is compared with, after the interval
    has gone through [seen]: that of the last such report, [base] if none. *)
Definition last_count (base : Z) (seen : list Report) : Z :=
  fold_left (fun b r => if inbound_video r then bytesReceived r else b) seen base.

(** Some inbound video report of the sample carries a count strictly above
    the count before it. *)
Definition growth (base : Z) (reports : list Report) : Prop :=
  exists seen r rest,
    reports = seen ++ r :: rest /\ inbound_video r = true /\
    last_count base seen < bytesReceived r.

(** A peer connection is live until it is closed. *)
Definition live (w : World) (i : nat) : Prop :=
  exists st, conn_states w !! i = Some st /\ st <> CsClosed.

(** The only peer connection that may be live is the one the hook holds. *)
Definition single_session (w : World) : Prop :=
  forall i, live w i -> peerConnection (hook w) = Some i.

(** The fluent flag each peer connection's listeners close over. *)
Definition listener_flags (w : World) : list (option bool) :=
  List.map (fun pc => l_isFluentMode <$> listeners pc) (pcs w).

(** A run of [m] leaves the list [obs] alone or adds [x] at its end. *)
Definition extends {A B} (obs : World -> list B) (x : B) (m : M A) : Prop :=
  forall w, obs (snd (m w)) = obs w \/ obs (snd (m w)) = obs w ++ [x].

Definition at_most_one_live (w : World) : Prop :=
  forall i j, live w i -> live w j -> i = j.

(** What [connect] may do to the transport: the connection states of the
    peer connections and the one the hook holds. *)
Definition transport (w : World) : list ConnState * option nat :=
  (conn_states w, peerConnection (hook w)).

(** A run of [m] leaves the transport alone or creates one peer connection,
    which the hook then holds. *)
Definition creates_at_most_one {A} (m : M A) : Prop :=
  forall w,
    transport (snd (m w)) = transport w
    \/ transport (snd (m w))
       = (conn_states w ++ [CsNew], Some (length (conn_states w))).

(** The message is an object whose [type] is the string [ty]. *)
Definition has_type (message : JsValue) (ty : string) : Prop :=
  get_prop message "type" = Normal (JStr (lit ty)).

(** A run of the voice bridge from [w] to [w'] began a connection attempt:
    the first thing it did was to ask for the microphone. *)
Definition attempts_connection (w w' : RealtimeGPT.World) : Prop :=
  exists rest,
    RealtimeGPT.trace w' = RealtimeGPT.trace w ++ RealtimeGPT.EvGetUserMedia :: rest.

(** ** Concrete scenarios *)

Definition cfg0 : DIDApiConfig :=
  {| key := lit "a2V5"; url := lit "https://api.d-id.com" |}.

Definition hook0 : HookState :=
  {| isStreamReady := false; isStreamPlaying := false; isFluent := false;
     peerConnection := None; streamId := JNull; sessionId := JNull;
     apiConfig := Some cfg0 |}.

Definition video0 : VideoElement :=
  {| srcObject := None; muted := false; paused := true; opacity := lit "0";
     src := []; backgroundImage := Some [] |}.

(** The page after the configuration has loaded, both surfaces mounted. *)
Definition world0 : World :=
  {| hook := hook0; streamVideoRef := Some video0; idleVideoRef := Some video0;
     pcs := []; tracks := []; intervals := []; timeouts := []; trace := [] |}.

Definition respond (st : Z) (b : option JsValue) : FetchOutcome :=
  Responded {| status := st; statusText := []; json := b |}.

(** A server that answers by endpoint: agent info, stream creation, and
    everything else (SDP, ICE, speak). *)
Definition server_of (agent streams other : FetchOutcome)
    (history : list Request) (r : Request) : FetchOutcome :=
  if bool_decide (fst r = agent_url cfg0) then agent
  else if bool_decide (fst r = streams_url cfg0) then streams
  else other.

Definition env_of (agent streams other : FetchOutcome) : Env :=
  {| server := server_of agent streams other;
     constructs := fun _ => true;
     setRemoteDescription := fun _ => true;
     createAnswer := fun _ => Some (JObj [ (lit "type", JStr (lit "answer")) ]);
     setLocalDescription := fun _ => true |}.

(** The page with one remote video track in the browser's store, and the
    stream that carries it. *)
Definition world1 : World :=
  {| hook := hook0; streamVideoRef := Some video0; idleVideoRef := Some video0;
     pcs := []; tracks := [ {| kind := Video; ended := false |} ];
     intervals := []; timeouts := []; trace := [] |}.

Definition stream0 : MediaStream := {| getTracks := [0%nat] |}.

Definition video_report (bytes : Z) : Report :=
  {| rtype := lit "inbound-rtp"; rkind := lit "video"; bytesReceived := bytes |}.

Definition listeners0 (fluent : bool) : Listeners :=
  {| l_apiConfig := cfg0; l_id := JStr (lit "s1");
     l_session_id := JStr (lit "sess1"); l_isFluentMode := fluent;
     l_cap := hook0 |}.

(** A stream-creation answer without [session_id]. *)
Definition stream_json_no_session : JsValue :=
  JObj [ (lit "id", JStr (lit "s1"));
         (lit "offer", JObj [ (lit "type", JStr (lit "offer")) ]);
         (lit "ice_servers", JArr []);
         (lit "fluent", JBool true) ].

Definition agent_json : JsValue :=
  JObj [ (lit "preview_name", JStr (lit "Koobide"));
         (lit "presenter",
          JObj [ (lit "thumbnail", JStr (lit "t.png"));
                 (lit "idle_video", JStr (lit "idle.mp4")) ]) ].

Definition stream_json (fluent : bool) : JsValue :=
  JObj [ (lit "id", JStr (lit "s1"));
         (lit "session_id", JStr (lit "sess1"));
         (lit "offer", JObj [ (lit "type", JStr (lit "offer")) ]);
         (lit "ice_servers", JArr []);
         (lit "fluent", JBool fluent) ].

Definition env_fluent (fluent : bool) : Env :=
  env_of (respond 200 (Some agent_json)) (respond 200 (Some (stream_json fluent)))
    (respond 200 None).

(** The voice bridge before any connection, with a microphone that is
    granted and a key in the environment. *)
Definition bridge0 : RealtimeGPT.World :=
  {| RealtimeGPT.isConnected := false; RealtimeGPT.isListening := false;
     RealtimeGPT.lastResponse := JStr []; RealtimeGPT.wsRef := None;
     RealtimeGPT.streamRef := None; RealtimeGPT.currentResponseRef := [];
     RealtimeGPT.sockets := []; RealtimeGPT.timers := [];
     RealtimeGPT.trace := [] |}.

Definition bridge_env : RealtimeGPT.Env :=
  {| RealtimeGPT.getUserMedia := fun _ => Normal {| getTracks := [0%nat] |};
     RealtimeGPT.apiKey := JStr (lit "sk-test") |}.

Definition done_message : JsValue :=
  JObj [ (lit "type", JStr (lit "response.text.done")) ].

Definition delta_message (delta : string) : JsValue :=
  JObj [ (lit "type", JStr (lit "response.text.delta"));
         (lit "delta", JStr (lit delta)) ].

(** * Further vocabulary *)

(** A server that answers 503 to the first [k] requests it sees and 200,
    with the body of a fluent stream, from then on. *)
Definition env_flaky (k : nat) : Env :=
  {| server := fun history _ =>
       if (length history <? k)%nat then respond 503 None
       else respond 200 (Some (stream_json true));
     constructs := fun _ => true;
     setRemoteDescription := fun _ => true;
     createAnswer := fun _ => Some (JObj [ (lit "type", JStr (lit "answer")) ]);
     setLocalDescription := fun _ => true |}.

(** The peer connection that a completed handshake leaves behind. *)
Definition negotiated (l : Listeners) (ice_servers offer answer : JsValue) :
    RTCPeerConnection :=
  {| connectionState := CsNew; iceServers := ice_servers; listeners := Some l;
     dataChannels := [lit "JanusDataChannel"];
     remoteDescription := Some offer; localDescription := Some answer |}.

(** The hook's state once the stream is created and, with [p], the peer
    connection stored. *)
Definition with_session (id session_id : JsValue) (fluent : bool) (p : option nat)
    (h : HookState) : HookState :=
  {| isStreamReady := isStreamReady h; isStreamPlaying := isStreamPlaying h;
     isFluent := fluent; peerConnection := p; streamId := id;
     sessionId := session_id; apiConfig := apiConfig h |}.

Definition sdp_request (cfg : DIDApiConfig) (id session_id answer : JsValue) :
    Request :=
  (sdp_url cfg id,
   POST cfg (JObj [ (lit "answer", answer); (lit "session_id", session_id) ])).

(** What the [catch] block of [connect] adds to the trace. *)
Definition failure_report : list Event :=
  [ EvStatus (lit "Connection failed"); EvConnection false ].

(** The world [stopStream] leaves behind. *)
Definition stopped (w : World) : World :=
  match streamVideoRef w with
  | Some v =>
      match srcObject v with
      | Some stream =>
          set_streamVideo (with_srcObject None)
            (set_trace (fun t => t ++ List.map EvTrackStop (getTracks stream))
               (set_tracks (stop_all (getTracks stream)) w))
      | None => w
      end
  | None => w
  end.

(** The hook's state of a render in which the connection is up. *)
Definition hook1 (fluent : bool) : HookState :=
  {| isStreamReady := true; isStreamPlaying := false; isFluent := fluent;
     peerConnection := Some 0%nat; streamId := JStr (lit "s1");
     sessionId := JStr (lit "sess1"); apiConfig := Some cfg0 |}.

(** The page once a handshake has gone through: one peer connection, whose
    listeners were registered by the first render. *)
Definition world2 (fluent : bool) : World :=
  {| hook := hook1 fluent; streamVideoRef := Some video0;
     idleVideoRef := Some video0;
     pcs := [ negotiated (listeners0 fluent) (JArr []) JNull JNull ];
     tracks := [ {| kind := Video; ended := false |} ];
     intervals := []; timeouts := []; trace := [] |}.

(** A "response.text.delta" message carrying [d]. *)
Definition text_delta (d : jsstring) : JsValue :=
  JObj [ (lit "type", JStr (lit "response.text.delta")); (lit "delta", JStr d) ].

(** What [content.find(c => c.type === 'output_text')] returns. *)
Fixpoint first_output_text (l : list JsValue) : Completion (option JsValue) :=
  match l with
  | [] => Normal None
  | c :: r =>
      match get_prop c "type" with
      | Normal t => if is_str t "output_text" then Normal (Some c)
                    else first_output_text r
      | Throw e => Throw e
      end
  end.

Definition content_part (ty : string) (text : JsValue) : JsValue :=
  JObj [ (lit "type", JStr (lit ty)); (lit "text", text) ].

(** A "conversation_item.created" message of the assistant. *)
Definition assistant_item (content : JsValue) : JsValue :=
  JObj [ (lit "type", JStr (lit "conversation_item.created"));
         (lit "item", JObj [ (lit "type", JStr (lit "message"));
                             (lit "role", JStr (lit "assistant"));
                             (lit "content", content) ]) ].

(** What the [catch] block of [startListening] reports. *)
Definition start_failed : RealtimeGPT.Event :=
  RealtimeGPT.EvError (lit "Failed to start audio recording").

(** The bridge reports [e] to its caller. *)
Definition report (e : RealtimeGPT.Event) (w : RealtimeAudio.World) :
    RealtimeAudio.World :=
  RealtimeAudio.set_bridge (fun b => snd (RealtimeGPT.emit e b)) w.

Definition no_stream : RealtimeGPT.Event :=
  RealtimeGPT.EvError (lit "No audio stream available").

(** The recorder the bridge holds, if any, is recording. *)
Definition holds_active_recorder (w : RealtimeAudio.World) : Prop :=
  forall r rec, RealtimeAudio.mediaRecorderRef w = Some r ->
    RealtimeAudio.recorders w !! r = Some rec ->
    RealtimeAudio.r_state rec = RealtimeAudio.Recording.

(** The world [disconnect] leaves behind when it goes through. *)
Definition disconnected (w : RealtimeAudio.World) : RealtimeAudio.World :=
  let w1 := match RealtimeAudio.mediaRecorderRef w with
            | Some r =>
                RealtimeAudio.set_mediaRecorderRef None
                  (RealtimeAudio.set_recorders
                     (alter (RealtimeAudio.with_state RealtimeAudio.Inactive) r) w)
            | None => w
            end in
  let w2 := match RealtimeGPT.streamRef (RealtimeAudio.bridge w) with
            | Some stream =>
                RealtimeAudio.set_bridge (RealtimeGPT.set_streamRef None)
                  (RealtimeAudio.set_mic_tracks (stop_all (getTracks stream)) w1)
            | None => w1
            end in
  let w3 := match RealtimeGPT.wsRef (RealtimeAudio.bridge w) with
            | Some ws =>
                RealtimeAudio.set_bridge (RealtimeGPT.set_wsRef None)
                  (snd (RealtimeAudio.ws_close ws w2))
            | None => w2
            end in
  report (RealtimeGPT.EvConnectionChange false)
    (RealtimeAudio.set_bridge
       (fun b => RealtimeGPT.setIsListening false (RealtimeGPT.setIsConnected false b))
       w3).

(** A browser that records. *)
Definition audio_env : RealtimeAudio.Env :=
  {| RealtimeAudio.supported := fun _ => true;
     RealtimeAudio.starts := fun _ => true;
     RealtimeAudio.stop_inactive := Normal tt |}.

(** The bridge connected, its socket open, the microphone granted, not
    listening yet. *)
Definition audio0 : RealtimeAudio.World :=
  {| RealtimeAudio.bridge :=
       snd (RealtimeGPT.onopen 0
              (snd (RealtimeGPT.connect bridge_env false bridge0)));
     RealtimeAudio.mediaRecorderRef := None;
     RealtimeAudio.recorders := [];
     RealtimeAudio.mic_tracks := [ {| kind := Audio; ended := false |} ];
     RealtimeAudio.readers := 0 |}.

(** The hook's state with the configuration replaced. *)
Definition with_apiConfig (c : option DIDApiConfig) (h : HookState) : HookState :=
  {| isStreamReady := isStreamReady h; isStreamPlaying := isStreamPlaying h;
     isFluent := isFluent h; peerConnection := peerConnection h;
     streamId := streamId h; sessionId := sessionId h; apiConfig := c |}.

(** The world once [startListening] has created and started its recorder
    and set [isListening]. *)
Definition recording (stream : MediaStream) (w : RealtimeAudio.World) :
    RealtimeAudio.World :=
  RealtimeAudio.set_bridge (RealtimeGPT.setIsListening true)
    (RealtimeAudio.set_recorders
       (fun l => l ++ [ {| RealtimeAudio.r_stream := stream;
                           RealtimeAudio.r_state := RealtimeAudio.Recording |} ])
       (RealtimeAudio.set_mediaRecorderRef
          (Some (length (RealtimeAudio.recorders w))) w)).

(** Reports that the sampling passes over. *)
Definition other_reports (l : list Report) : Prop :=
  Forall (fun r => inbound_video r = false) l.

(** The surfaces, as the sampling may change them. *)
Definition surfaces (w : World) : option VideoElement * option VideoElement :=
  (streamVideoRef w, idleVideoRef w).

(** The world after [setLastResponse(text)] and the call of the callback. *)
Definition handed_over (text : JsValue) (w : RealtimeGPT.World) : RealtimeGPT.World :=
  snd (RealtimeGPT.emit (RealtimeGPT.EvTextReceived text)
         (RealtimeGPT.setLastResponse text w)).

(** How the page's [onTextReceived] completes: [text.trim()] throws on
    anything but a string. *)
Definition page_callback (text : JsValue) : Completion unit :=
  match text with
  | JStr _ => Normal tt
  | _ => Throw TypeError
  end.

(** * Properties *)

(** ** Resilient fetch *)

Section FetchWithRetry.

Variable env : Env.

Lemma requests_app (t1 t2 : list Event) :
  requests (t1 ++ t2) = requests t1 ++ requests t2.
Proof.
  induction t1 as [|e t1 IH]; simpl; [reflexivity|].
  destruct e; simpl; rewrite ?IH; reflexivity.
Qed.

Lemma requests_retry_trace (r : Request) (n : nat) :
  requests (retry_trace r n) = repeat r (S n).
Proof. induction n as [|n IH]; simpl; [reflexivity|]. now rewrite IH. Qed.

Lemma fetchWithRetry_eq (u : jsstring) (o : RequestInit) (n : Z) (w : World) :
  fetchWithRetry env u o n w =
  match fetch env u o w with
  | (Normal res, w1) =>
      if negb (ok res) && (0 <? n)
      then fetchWithRetry env u o (n - 1) (snd (backoff w1))
      else (Normal res, w1)
  | (Throw err, w1) =>
      if 0 <? n
      then fetchWithRetry env u o (n - 1) (snd (backoff w1))
      else (Throw err, w1)
  end.
Proof.
  funelim (fetchWithRetry env u o n w);
    match goal with H : fetch _ _ _ _ = _ |- _ => rewrite H end;
    destruct (Z.ltb_spec 0 retries); try lia;
    rewrite ?andb_true_r, ?andb_false_r; reflexivity.
Qed.

Lemma set_trace_app (t1 t2 : list Event) (w : World) :
  set_trace (fun t => t ++ t2) (set_trace (fun t => t ++ t1) w)
  = set_trace (fun t => t ++ t1 ++ t2) w.
Proof. unfold set_trace; simpl. now rewrite <- app_assoc. Qed.

Lemma fetchWithRetry_failing (u : jsstring) (o : RequestInit) (n : nat) :
  permanently_failing env (u, o) ->
  forall w,
    fetchWithRetry env u o (Z.of_nat n) w =
    (completion_of (server env (requests (trace w) ++ repeat (u, o) n) (u, o)),
     set_trace (fun t => t ++ retry_trace (u, o) n) w).
Proof.
  intros Hfail. induction n as [|n IH]; intros w.
  - rewrite fetchWithRetry_eq. unfold fetch. simpl. rewrite app_nil_r.
    destruct (server env (requests (trace w)) (u, o)); simpl;
      rewrite ?andb_false_r; reflexivity.
  - rewrite fetchWithRetry_eq. unfold fetch.
    pose proof (Hfail (requests (trace w))) as Hf.
    replace (Z.of_nat (S n) - 1) with (Z.of_nat n) by lia.
    replace (0 <? Z.of_nat (S n)) with true by (symmetry; apply Z.ltb_lt; lia).
    destruct (server env (requests (trace w)) (u, o)); simpl in Hf |- *;
      rewrite ?Hf; simpl; rewrite IH; unfold emit, modify; simpl;
      rewrite !set_trace_app, !requests_app; simpl;
      rewrite <- !app_assoc; reflexivity.
Qed.

(** Whatever the server does, [fetchWithRetry] only appends to the trace:
    between one and [retries + 1] attempts at the same request. *)
Lemma fetchWithRetry_frame (u : jsstring) (o : RequestInit) (n : Z) (w : World) :
  exists j, (j <= Z.to_nat n)%nat /\
    snd (fetchWithRetry env u o n w)
    = set_trace (fun t => t ++ retry_trace (u, o) j) w.
Proof.
  remember (Z.to_nat n) as m eqn:Hm. revert n w Hm.
  induction m as [|m IH]; intros n w Hm; rewrite fetchWithRetry_eq; unfold fetch.
  - replace (0 <? n) with false by (symmetry; apply Z.ltb_ge; lia).
    exists 0%nat. split; [lia|].
    destruct (server env (requests (trace w)) (u, o)); simpl;
      rewrite ?andb_false_r; reflexivity.
  - replace (0 <? n) with true by (symmetry; apply Z.ltb_lt; lia).
    destruct (IH (n - 1)
                (set_trace (fun t => t ++ [EvBackoff])
                   (set_trace (fun t => t ++ [EvFetch (u, o)]) w))
                ltac:(lia)) as (j & Hj & Hw).
    destruct (server env (requests (trace w)) (u, o)) as [res|e]; simpl.
    + rewrite andb_true_r. destruct (negb (ok res)).
      * exists (S j). split; [lia|]. rewrite Hw. unfold backoff, emit, modify.
        simpl. rewrite !set_trace_app. reflexivity.
      * exists 0%nat. split; [lia|]. reflexivity.
    + exists (S j). split; [lia|]. rewrite Hw. unfold backoff, emit, modify.
      simpl. rewrite !set_trace_app. reflexivity.
Qed.

(** C1. With a retry budget [N >= 0] against an endpoint whose every attempt
    fails, [fetchWithRetry] issues exactly [N + 1] requests, all of them the
    same one, then returns the response of the last attempt, which is not
    ok, or throws the error with which the last attempt rejected. *)
Theorem fetchWithRetry_exhausts_budget (u : jsstring) (o : RequestInit)
    (N : Z) (w : World) :
  0 <= N ->
  permanently_failing env (u, o) ->
  let r := fetchWithRetry env u o N w in
  let final := server env (requests (trace w) ++ repeat (u, o) (Z.to_nat N)) (u, o) in
  requests (trace (snd r)) = requests (trace w) ++ repeat (u, o) (Z.to_nat (N + 1))
  /\ Z.of_nat (length (requests (trace (snd r)))) =
     Z.of_nat (length (requests (trace w))) + (N + 1)
  /\ match final with
     | Responded res => fst r = Normal res /\ ok res = false
     | Rejected e => fst r = Throw e
     end.
Proof.
  intros HN Hfail r final.
  assert (Hr : r = (completion_of final,
                    set_trace (fun t => t ++ retry_trace (u, o) (Z.to_nat N)) w)).
  { subst r final. rewrite <- (Z2Nat.id N) at 1 by exact HN.
    now apply fetchWithRetry_failing. }
  assert (Hreq : requests (trace (snd r))
                 = requests (trace w) ++ repeat (u, o) (Z.to_nat (N + 1))).
  { rewrite Hr. simpl. rewrite requests_app, requests_retry_trace.
    replace (Z.to_nat (N + 1)) with (S (Z.to_nat N)) by lia. reflexivity. }
  split; [exact Hreq|]. split.
  - rewrite Hreq, length_app, repeat_length. lia.
  - rewrite Hr. pose proof (Hfail (requests (trace w) ++ repeat (u, o) (Z.to_nat N))) as Hf.
    fold final in Hf. destruct final as [res|e]; simpl in *.
    + split; [reflexivity|]. now apply negb_true_iff.
    + reflexivity.
Qed.

End FetchWithRetry.

Lemma fetchWithRetry_exhausts_budget_witness :
  let env := env_of (respond 404 None) (respond 500 None) (Rejected (NetworkError 0)) in
  requests (trace (snd (fetchWithRetry env (streams_url cfg0)
                          (POST cfg0 streamOptions) 3 world0)))
  = repeat (streams_url cfg0, POST cfg0 streamOptions) 4.
Proof.
  intro env.
  exact (proj1 (fetchWithRetry_exhausts_budget env (streams_url cfg0)
                  (POST cfg0 streamOptions) 3 world0
                  ltac:(lia) (fun _ => eq_refl))).
Defined.

(** ** Cleanup *)

Lemma bind_normal {S A B} (m : St S A) (k : A -> St S B) (w : S) (a : A) :
  fst (m w) = Normal a -> bind m k w = k a (snd (m w)).
Proof. unfold bind. destruct (m w) as [c w']. simpl. intros ->. reflexivity. Qed.

Lemma forEach_stop_track (l : list nat) (w : World) :
  forEach stop_track l w
  = (Normal tt,
     set_trace (fun t => t ++ List.map EvTrackStop l) (set_tracks (stop_all l) w)).
Proof.
  revert w. induction l as [|t l IH]; intros w.
  - simpl. unfold mret, St_ret, ret, set_trace, set_tracks. simpl.
    rewrite app_nil_r. destruct w; reflexivity.
  - simpl. unfold mbind, St_bind, bind. simpl. rewrite IH.
    unfold set_trace, set_tracks. simpl. rewrite <- app_assoc. reflexivity.
Qed.

Lemma stopStream_normal (w : World) : fst (stopStream w) = Normal tt.
Proof.
  unfold stopStream, mbind, St_bind, bind. simpl.
  destruct (streamVideoRef w) as [v|]; [|reflexivity].
  destruct (srcObject v); [|reflexivity].
  rewrite forEach_stop_track. reflexivity.
Qed.

Lemma closeConnection_normal (cap : HookState) (w : World) :
  fst (closeConnection cap w) = Normal tt.
Proof. unfold closeConnection. destruct (peerConnection cap); reflexivity. Qed.

Lemma stopStream_frame (w : World) :
  let w' := snd (stopStream w) in
  hook w' = hook w /\ pcs w' = pcs w /\
  requests (trace w') = requests (trace w).
Proof.
  unfold stopStream, mbind, St_bind, bind. simpl.
  destruct (streamVideoRef w) as [v|]; [|auto].
  destruct (srcObject v); [|auto].
  rewrite forEach_stop_track. simpl. repeat split.
  rewrite requests_app.
  assert (H : forall l, requests (List.map EvTrackStop l) = []) by
    (induction l; simpl; auto).
  rewrite H. apply app_nil_r.
Qed.

Lemma closeConnection_requests (cap : HookState) (w : World) :
  requests (trace (snd (closeConnection cap w))) = requests (trace w).
Proof.
  unfold closeConnection. destruct (peerConnection cap); [|reflexivity].
  simpl. rewrite requests_app. apply app_nil_r.
Qed.

Lemma torn_down_requests (cap : HookState) (w : World) :
  requests (trace (torn_down cap w)) = requests (trace w).
Proof.
  unfold torn_down. rewrite closeConnection_requests.
  destruct (stopStream_frame (snd (emit (EvStatus connecting_status) w)))
    as (_ & _ & ->).
  simpl. rewrite requests_app. apply app_nil_r.
Qed.

Lemma torn_down_pcs (cap : HookState) (w : World) :
  pcs (torn_down cap w)
  = match peerConnection cap with
    | Some p => alter (with_connectionState CsClosed) p (pcs w)
    | None => pcs w
    end.
Proof.
  unfold torn_down.
  destruct (stopStream_frame (snd (emit (EvStatus connecting_status) w)))
    as (_ & Hp & _).
  change (pcs (snd (emit (EvStatus connecting_status) w))) with (pcs w) in Hp.
  revert Hp. generalize (snd (stopStream (snd (emit (EvStatus connecting_status) w)))).
  intros w1 Hp. unfold closeConnection.
  destruct (peerConnection cap); simpl; rewrite Hp; reflexivity.
Qed.

Lemma agent_url_not_streams_url (cfg : DIDApiConfig) :
  agent_url cfg <> streams_url cfg.
Proof.
  unfold agent_url, streams_url. intros H.
  apply (f_equal (@length N)) in H. rewrite !length_app in H.
  simpl in H. lia.
Qed.

(** ** What a computation keeps *)

Section Keeps.

Context {B : Type} (obs : World -> B).

Lemma keeps_ret {A} (a : A) : keeps obs (ret a).
Proof. intro w. reflexivity. Qed.

Lemma keeps_throw {A} (e : JsError) : keeps obs (@throw World A e).
Proof. intro w. reflexivity. Qed.

Lemma keeps_lift {A} (c : Completion A) : keeps obs (lift c).
Proof. intro w. reflexivity. Qed.

Lemma keeps_get : keeps obs get.
Proof. intro w. reflexivity. Qed.

Lemma keeps_modify (f : World -> World) :
  (forall w, obs (f w) = obs w) -> keeps obs (modify f).
Proof. intros H w. apply H. Qed.

Lemma keeps_bind {A C} (m : M A) (k : A -> M C) :
  keeps obs m -> (forall a, keeps obs (k a)) -> keeps obs (bind m k).
Proof.
  intros Hm Hk w. unfold bind. specialize (Hm w).
  destruct (m w) as [[a|e] w1]; simpl in *; [|exact Hm].
  rewrite Hk. exact Hm.
Qed.

Lemma keeps_try_catch {A} (m : M A) (h : JsError -> M A) :
  keeps obs m -> (forall e, keeps obs (h e)) -> keeps obs (try_catch m h).
Proof.
  intros Hm Hh w. unfold try_catch. specialize (Hm w).
  destruct (m w) as [[a|e] w1]; simpl in *; [exact Hm|].
  rewrite Hh. exact Hm.
Qed.

Lemma keeps_forEach {A} (f : A -> M unit) (l : list A) :
  (forall a, keeps obs (f a)) -> keeps obs (forEach f l).
Proof.
  intros Hf. induction l as [|a l IH]; simpl.
  - apply keeps_ret.
  - apply keeps_bind; auto.
Qed.

End Keeps.

(** Splits a goal [keeps obs m] along the structure of [m]; what is left are
    the updates and the calls it does not know. *)
Ltac keeps_step :=
  lazymatch goal with
  | |- keeps _ (bind _ _) => apply keeps_bind; [|intros]
  | |- keeps _ (mbind _ _) => apply keeps_bind; [|intros]
  | |- keeps _ (ret _) => apply keeps_ret
  | |- keeps _ (mret _) => apply keeps_ret
  | |- keeps _ (throw _) => apply keeps_throw
  | |- keeps _ (lift _) => apply keeps_lift
  | |- keeps _ get => apply keeps_get
  | |- keeps _ (try_catch _ _) => apply keeps_try_catch; [|intros]
  | |- keeps _ (forEach _ _) => apply keeps_forEach; intros
  | |- keeps _ (modify _) => apply keeps_modify; intros; try reflexivity
  | |- keeps _ (emit _) =>
      apply keeps_modify; intros;
      first [ reflexivity
            | unfold issued; simpl; rewrite requests_app; apply app_nil_r
            | idtac ]
  | |- keeps _ (match ?x with _ => _ end) => destruct x
  | |- keeps _ (let _ := _ in _) => cbv zeta
  | |- keeps _ ?m =>
      first [ solve [eauto with keeps]
            | let h := eval cbv beta delta [setIsStreamReady setIsStreamPlaying
                                       setIsFluent setPeerConnection setStreamId
                                       setSessionId close stop_track play] in m in
              progress change m with h ]
  end.

Ltac keeps_auto := repeat keeps_step.

Create HintDb keeps.

Lemma bind_cases {S A B} (m : St S A) (k : A -> St S B) (w : S) :
  (exists e, fst (m w) = Throw e /\ bind m k w = (Throw e, snd (m w)))
  \/ (exists a, fst (m w) = Normal a /\ bind m k w = k a (snd (m w))).
Proof.
  unfold bind. destruct (m w) as [[a|e] w1]; simpl; [right|left]; eauto.
Qed.

Lemma appends_of_keeps {A} (P : list Request -> Prop) (m : M A) :
  keeps issued m -> P [] -> appends P m.
Proof. intros Hm HP w. exists []. rewrite Hm, app_nil_r. auto. Qed.

Lemma appends_quiet_bind {A C} (P : list Request -> Prop) (m : M A) (k : A -> M C) :
  keeps issued m -> (forall a, appends P (k a)) -> P [] ->
  appends P (bind m k).
Proof.
  intros Hm Hk HP w. specialize (Hm w).
  destruct (bind_cases m k w) as [(e & _ & ->)|(a & _ & ->)].
  - exists []. simpl. rewrite Hm, app_nil_r. auto.
  - destruct (Hk a (snd (m w))) as (l & Hl & HPl). exists l. rewrite Hl, Hm. auto.
Qed.

Section Connect.

Variable env : Env.

Lemma connect_unfold (cap : HookState) (cfg : DIDApiConfig) (w : World) :
  apiConfig cap = Some cfg ->
  reports_connected w (peerConnection cap) = false ->
  connect env cap w
  = try_catch (handshake env cfg cap) connection_failed (torn_down cap w).
Proof.
  intros Hcfg Hconn. unfold connect. rewrite Hcfg.
  unfold mbind, St_bind.
  rewrite (bind_normal _ _ _ tt) by reflexivity.
  rewrite (bind_normal _ _ _ (snd (emit (EvStatus connecting_status) w)))
    by reflexivity.
  replace (reports_connected _ _) with false.
  rewrite (bind_normal _ _ _ tt) by apply stopStream_normal.
  rewrite (bind_normal _ _ _ tt) by apply closeConnection_normal.
  reflexivity.
Qed.

(** C7. When the agent-info fetch is answered outside 200-299, [connect]
    resolves normally; it reports the status "Connection failed" and then
    the connection as false; the agent-info request is the only request it
    issues, once, so no stream creation is requested. *)
Theorem connect_agent_info_not_ok (cap : HookState) (cfg : DIDApiConfig)
    (w : World) (res : Response) :
  apiConfig cap = Some cfg ->
  reports_connected w (peerConnection cap) = false ->
  server env (requests (trace w)) (agent_url cfg, GET cfg) = Responded res ->
  ok res = false ->
  let r := connect env cap w in
  fst r = Normal tt
  /\ trace (snd r)
     = trace (torn_down cap w)
       ++ [ EvFetch (agent_url cfg, GET cfg);
            EvStatus (lit "Connection failed");
            EvConnection false ]
  /\ requests (trace (snd r)) = requests (trace w) ++ [ (agent_url cfg, GET cfg) ]
  /\ agent_url cfg <> streams_url cfg
  /\ length (pcs (snd r)) = length (pcs w).
Proof.
  intros Hcfg Hconn Hres Hok r. subst r.
  rewrite (connect_unfold cap cfg w Hcfg Hconn).
  unfold try_catch, handshake, fetch_agent_info, mbind, St_bind, bind, fetch.
  rewrite torn_down_requests, Hres. simpl. rewrite Hok. simpl.
  repeat split.
  - now rewrite <- !app_assoc.
  - rewrite !requests_app, torn_down_requests. simpl. now rewrite !app_nil_r.
  - apply agent_url_not_streams_url.
  - rewrite torn_down_pcs. destruct (peerConnection cap); [|reflexivity].
    apply length_alter.
Qed.

Lemma keeps_issued_prep_idle_visuals (agentData fluent : JsValue) :
  keeps issued (prep_idle_visuals agentData fluent).
Proof. unfold prep_idle_visuals. keeps_auto. Qed.

Lemma keeps_issued_start_webrtc (l : Listeners) (ice_servers : JsValue) :
  keeps issued (start_webrtc env l ice_servers).
Proof.
  unfold start_webrtc, new_RTCPeerConnection. keeps_auto.
Qed.

Lemma keeps_issued_negotiate (p : nat) (offer : JsValue) :
  keeps issued (negotiate env p offer).
Proof. unfold negotiate. keeps_auto. Qed.

#[local] Hint Resolve keeps_issued_prep_idle_visuals keeps_issued_start_webrtc
  keeps_issued_negotiate : keeps.

Lemma fetch_issued (u : jsstring) (o : RequestInit) (w : World) :
  issued (snd (fetch env u o w)) = issued w ++ [(u, o)].
Proof.
  unfold fetch, issued. destruct (server env _ _); simpl; now rewrite requests_app.
Qed.

Lemma issued_bind_quiet {A C} (m : M A) (k : A -> M C) (w : World) :
  (forall a, keeps issued (k a)) ->
  issued (snd (bind m k w)) = issued (snd (m w)).
Proof.
  intros Hk. destruct (bind_cases m k w) as [(e & _ & ->)|(a & _ & ->)];
    [reflexivity | apply Hk].
Qed.

Lemma fetch_agent_info_issued (cfg : DIDApiConfig) (w : World) :
  issued (snd (fetch_agent_info env cfg w)) = issued w ++ [(agent_url cfg, GET cfg)].
Proof.
  unfold fetch_agent_info, mbind, St_bind.
  rewrite issued_bind_quiet; [apply fetch_issued|].
  intros res. unfold response_json. keeps_auto.
Qed.

Lemma create_stream_issued (cfg : DIDApiConfig) (w : World) :
  exists n, (1 <= n <= 4)%nat /\
    issued (snd (create_stream env cfg w))
    = issued w ++ repeat (streams_url cfg, POST cfg streamOptions) n.
Proof.
  unfold create_stream, mbind, St_bind.
  rewrite issued_bind_quiet by (intros res; unfold response_json; keeps_auto).
  destruct (fetchWithRetry_frame env (streams_url cfg) (POST cfg streamOptions) 3 w)
    as (j & Hj & ->).
  exists (S j). split; [simpl in Hj; lia|].
  unfold issued. simpl. now rewrite requests_app, requests_retry_trace.
Qed.

Lemma send_answer_issued (cfg : DIDApiConfig) (id session_id answer : JsValue)
    (w : World) :
  issued (snd (send_answer env cfg id session_id answer w))
  = issued w ++ [ (sdp_url cfg id,
                   POST cfg (JObj [ (lit "answer", answer);
                                    (lit "session_id", session_id) ])) ].
Proof.
  unfold send_answer, mbind, St_bind.
  rewrite issued_bind_quiet by (intros; keeps_auto). apply fetch_issued.
Qed.

Lemma handshake_issued (cfg : DIDApiConfig) (cap : HookState) (w : World) :
  exists n sdp,
    (n <= 4)%nat /\ (length sdp <= 1)%nat /\ Forall (is_sdp_post cfg) sdp /\
    issued (snd (handshake env cfg cap w))
    = issued w ++ (agent_url cfg, GET cfg)
        :: repeat (streams_url cfg, POST cfg streamOptions) n ++ sdp.
Proof.
  unfold handshake, establish, mbind, St_bind.
  match goal with |- context [bind ?m ?k w] =>
    destruct (bind_cases m k w) as [(e & _ & ->)|(agentData & _ & ->)]
  end; cbn [fst snd].
  { exists 0%nat, []. rewrite fetch_agent_info_issued.
    repeat split; simpl; auto; lia. }
  destruct (create_stream_issued cfg (snd (fetch_agent_info env cfg w)))
    as (n & Hn & Hs).
  match goal with |- context [bind ?m ?k ?w1] =>
    destruct (bind_cases m k w1) as [(e & _ & ->)|(data & _ & ->)]
  end; cbn [fst snd].
  { exists n, []. rewrite Hs, fetch_agent_info_issued, app_nil_r, <- app_assoc.
    repeat split; simpl; auto; lia. }
  match goal with |- context [issued (snd (?m ?w1))] =>
    assert (Ht : appends (fun l => (length l <= 1)%nat /\ Forall (is_sdp_post cfg) l) m)
  end.
  { repeat (apply appends_quiet_bind;
            [ solve [keeps_auto] | intros | split; [simpl; lia | constructor] ]).
    intros w1. eexists. split; [apply send_answer_issued|].
    split; [simpl; lia|]. repeat constructor. red. eauto. }
  destruct (Ht (snd (create_stream env cfg (snd (fetch_agent_info env cfg w)))))
    as (sdp & -> & Hlen & Hsdp).
  exists n, sdp. rewrite Hs, fetch_agent_info_issued, <- !app_assoc.
  repeat split; auto; lia.
Qed.

Lemma issued_try_catch_quiet {A} (m : M A) (h : JsError -> M A) (w : World) :
  (forall e, keeps issued (h e)) ->
  issued (snd (try_catch m h w)) = issued (snd (m w)).
Proof.
  intros Hh. unfold try_catch.
  destruct (m w) as [[a|e] w1]; simpl; [reflexivity | apply Hh].
Qed.

Lemma snd_bind_silent {A C} (m : M A) (k : A -> M C) (w : World) :
  (forall a, keeps (fun w => w) (k a)) -> snd (bind m k w) = snd (m w).
Proof.
  intros Hk. destruct (bind_cases m k w) as [(e & _ & ->)|(a & _ & ->)];
    [reflexivity | apply Hk].
Qed.

(** C2, as the code has it. Of the HTTP calls of the handshake only the
    stream creation goes through [fetchWithRetry], with its default budget
    of 3: a run of [connect] issues nothing, or the agent-info request once,
    then at most 4 stream-creation requests, then at most one POST of the
    answer to the SDP endpoint. That POST, like the ICE-candidate push, is a
    single plain [fetch], whatever its outcome. *)
Theorem connect_http_calls (cap : HookState) (w : World) :
  (exists l,
     issued (snd (connect env cap w)) = issued w ++ l /\
     (l = [] \/
      exists cfg n sdp,
        apiConfig cap = Some cfg /\
        l = (agent_url cfg, GET cfg)
              :: repeat (streams_url cfg, POST cfg streamOptions) n ++ sdp /\
        (n <= 4)%nat /\ (length sdp <= 1)%nat /\ Forall (is_sdp_post cfg) sdp))
  /\ (forall cfg w1,
        snd (create_stream env cfg w1)
        = snd (fetchWithRetry env (streams_url cfg) (POST cfg streamOptions) 3 w1))
  /\ (forall cfg id session_id answer w1,
        snd (send_answer env cfg id session_id answer w1)
        = snd (fetch env (sdp_url cfg id)
                 (POST cfg (JObj [ (lit "answer", answer);
                                   (lit "session_id", session_id) ])) w1))
  /\ (forall l c w1,
        on_icecandidate env l c w1
        = (Normal tt,
           snd (fetch env (ice_url (l_apiConfig l) (l_id l))
                  (POST (l_apiConfig l)
                     (JObj ((lit "session_id", l_session_id l)
                            :: match c with
                               | Some c => [ (lit "candidate", candidate c);
                                             (lit "sdpMid", sdpMid c);
                                             (lit "sdpMLineIndex", sdpMLineIndex c) ]
                               | None => []
                               end))) w1)))
  /\ (forall u o w1, issued (snd (fetch env u o w1)) = issued w1 ++ [(u, o)]).
Proof.
  split; [|split; [|split; [|split]]].
  - destruct (apiConfig cap) as [cfg|] eqn:Hcfg.
    2: { exists []. split; [|now left]. unfold connect. rewrite Hcfg.
         now rewrite app_nil_r. }
    destruct (reports_connected w (peerConnection cap)) eqn:Hconn.
    { exists []. split; [|now left]. unfold connect, mbind, St_bind.
      rewrite Hcfg. rewrite (bind_normal _ _ _ tt) by reflexivity.
      rewrite (bind_normal _ _ _ (snd (emit (EvStatus connecting_status) w)))
        by reflexivity.
      replace (reports_connected _ _) with true.
      unfold issued. simpl. rewrite requests_app. reflexivity. }
    rewrite (connect_unfold cap cfg w Hcfg Hconn).
    rewrite issued_try_catch_quiet
      by (intros; unfold connection_failed; keeps_auto).
    destruct (handshake_issued cfg cap (torn_down cap w))
      as (n & sdp & Hn & Hlen & Hsdp & ->).
    eexists. split.
    + change (issued (torn_down cap w)) with (requests (trace (torn_down cap w))).
      rewrite torn_down_requests. reflexivity.
    + right. exists cfg, n, sdp. auto.
  - intros cfg w1. unfold create_stream, mbind, St_bind.
    apply snd_bind_silent. intros res. unfold response_json. keeps_auto.
  - intros cfg id session_id answer w1. unfold send_answer, mbind, St_bind.
    apply snd_bind_silent. intros res. keeps_auto.
  - reflexivity.
  - apply fetch_issued.
Qed.

End Connect.

(** C2, as stated, fails: with an SDP endpoint that answers 500 to every
    request, the answer is posted once, not 1 + 3 times. *)
Lemma sdp_answer_post_is_not_retried :
  let env := env_of (respond 200 (Some agent_json))
               (respond 200 (Some (stream_json true))) (respond 500 None) in
  let sdp := sdp_url cfg0 (JStr (lit "s1")) in
  (forall history o, fails (server env history (sdp, o)) = true)
  /\ count_requests_to sdp (issued (snd (connect env hook0 world0))) = 1%nat
  /\ count_requests_to sdp (issued (snd (connect env hook0 world0))) <> (1 + 3)%nat.
Proof.
  intros env sdp. split; [|split].
  - intros history o. reflexivity.
  - vm_compute. reflexivity.
  - vm_compute. discriminate.
Qed.

Lemma connect_agent_info_not_ok_witness :
  let env := env_of (respond 404 None) (respond 200 (Some (stream_json true)))
               (respond 200 None) in
  let r := connect env hook0 world0 in
  fst r = Normal tt
  /\ issued (snd r) = [ (agent_url cfg0, GET cfg0) ]
  /\ trace (snd r)
     = [ EvStatus connecting_status;
         EvFetch (agent_url cfg0, GET cfg0);
         EvStatus (lit "Connection failed");
         EvConnection false ].
Proof.
  intros env r.
  pose proof (connect_agent_info_not_ok env hook0 cfg0 world0
                {| status := 404; statusText := []; json := None |}
                eq_refl eq_refl eq_refl eq_refl) as (H1 & H2 & H3 & _).
  split; [exact H1|]. split; [exact H3|exact H2].
Defined.


(** ** Speak *)

Lemma trimStart_nil (s : jsstring) : trimStart s = [] <-> blank s = true.
Proof.
  induction s as [|c s IH]; simpl; [tauto|].
  destruct (is_js_space c); simpl; [exact IH|].
  split; discriminate.
Qed.

Lemma trimStart_blank_tail (s : jsstring) : blank (trimStart s) = true -> blank s = true.
Proof.
  induction s as [|c s IH]; simpl; [auto|].
  destruct (is_js_space c) eqn:E; simpl; [exact IH|].
  rewrite E. discriminate.
Qed.

Lemma blank_rev (s : jsstring) : blank (rev s) = blank s.
Proof.
  unfold blank. induction s as [|c s IH]; simpl; [reflexivity|].
  rewrite forallb_app, IH. simpl. rewrite andb_true_r. apply andb_comm.
Qed.

Lemma trim_nil (s : jsstring) : trim s = [] <-> blank s = true.
Proof.
  unfold trim, trimEnd. split.
  - intros H. apply (f_equal (@rev N)) in H. rewrite rev_involutive in H.
    simpl in H. apply trimStart_nil in H. rewrite blank_rev in H.
    now apply trimStart_blank_tail.
  - intros H. apply trimStart_nil in H. rewrite H. reflexivity.
Qed.

Section Speak.

Variable env : Env.

(** C8, as the code has it. [speak] issues no request, and changes nothing,
    when there is no peer connection, the stream is not ready, the
    configuration is not loaded, the stream or the session identifier is
    missing or empty, or the message is blank. Otherwise it is one call of
    [fetchWithRetry], budget 3, posting the trimmed message and the session
    identifier to the stream endpoint: between one and four such requests. *)
Theorem speak_requests (cap : HookState) (message : jsstring) (w : World) :
  (peerConnection cap = None \/ isStreamReady cap = false \/
   apiConfig cap = None \/ truthy (streamId cap) = false \/
   truthy (sessionId cap) = false \/ blank message = true ->
   speak env cap message w = (Normal tt, w))
  /\ (forall p cfg,
        peerConnection cap = Some p -> isStreamReady cap = true ->
        apiConfig cap = Some cfg -> truthy (streamId cap) = true ->
        truthy (sessionId cap) = true -> blank message = false ->
        let q := (stream_url cfg (streamId cap),
                  POST cfg (speak_body (trim message) (sessionId cap))) in
        snd (speak env cap message w) = snd (fetchWithRetry env (fst q) (snd q) 3 w)
        /\ exists n, (1 <= n <= 4)%nat /\
             issued (snd (speak env cap message w)) = issued w ++ repeat q n).
Proof.
  split.
  - intros H. unfold speak.
    destruct (peerConnection cap); [|reflexivity].
    destruct (isStreamReady cap); [|reflexivity].
    destruct (apiConfig cap); [|reflexivity].
    destruct (truthy (streamId cap)); [|reflexivity].
    destruct (truthy (sessionId cap)); [|reflexivity].
    destruct H as [H|[H|[H|[H|[H|H]]]]]; try discriminate.
    apply trim_nil in H. rewrite H. reflexivity.
  - intros p cfg Hp Hr Hc Hs Hss Hb q. unfold speak.
    rewrite Hp, Hr, Hc, Hs, Hss.
    destruct (trim message) as [|c t] eqn:Ht.
    { apply trim_nil in Ht. congruence. }
    cbn [is_empty]. unfold mbind, St_bind.
    rewrite snd_bind_silent by (intros; keeps_auto).
    split; [reflexivity|].
    destruct (fetchWithRetry_frame env (fst q) (snd q) 3 w) as (j & Hj & Hw).
    exists (S j). split; [simpl in Hj; lia|].
    subst q. cbn [fst snd] in Hw. unfold speak_body in *. rewrite Hw.
    unfold issued. simpl. now rewrite requests_app, requests_retry_trace.
Qed.

End Speak.

(** C8, as stated, fails: the answer to the stream creation carried no
    session identifier; the connection is up and the stream ready, the
    message is not blank, and [speak] issues nothing. *)
Lemma speak_without_session_is_silent :
  let env := env_of (respond 200 (Some agent_json))
               (respond 200 (Some stream_json_no_session)) (respond 200 None) in
  let w := snd (connectionstatechange 0 CsConnected (snd (connect env hook0 world0))) in
  peerConnection (hook w) = Some 0%nat
  /\ isStreamReady (hook w) = true
  /\ trim (lit "hello") = lit "hello"
  /\ issued (snd (speak env (hook w) (lit "hello") w)) = issued w.
Proof. vm_compute. repeat split; reflexivity. Qed.

Lemma speak_requests_witness :
  let env := env_of (respond 200 (Some agent_json))
               (respond 200 (Some (stream_json true))) (respond 200 None) in
  let w := snd (connectionstatechange 0 CsConnected (snd (connect env hook0 world0))) in
  exists n, (1 <= n <= 4)%nat /\
    issued (snd (speak env (hook w) (lit " hello ") w))
    = issued w ++ repeat (stream_url cfg0 (JStr (lit "s1")),
                          POST cfg0 (speak_body (lit "hello") (JStr (lit "sess1")))) n.
Proof.
  intros env w.
  exact (proj2 (proj2 (speak_requests env (hook w) (lit " hello ") w)
                  0%nat cfg0 eq_refl eq_refl eq_refl eq_refl eq_refl eq_refl)).
Defined.

(** ** The track listener and the statistics sampling *)

Lemma on_track_video (p : nat) (l : Listeners) (stream : MediaStream)
    (rest : list MediaStream) (w : World) (t : nat) (ts : list nat)
    (sv : VideoElement) :
  getVideoTracks w stream = t :: ts ->
  streamVideoRef w = Some sv ->
  let w' := snd (on_track p l (stream :: rest) w) in
  fst (on_track p l (stream :: rest) w) = Normal tt
  /\ intervals w' = intervals w ++ [new_monitor p l t stream]
  /\ isStreamPlaying (hook w') = isStreamPlaying (hook w)
  /\ pcs w' = pcs w
  /\ srcObject <$> streamVideoRef w' = Some (Some stream)
  /\ muted <$> streamVideoRef w' = Some false
  /\ (l_isFluentMode l = true ->
      isStreamReady (hook w') = true
      /\ opacity <$> streamVideoRef w' = Some (lit "1")
      /\ opacity <$> idleVideoRef w' = (fun _ => lit "0") <$> idleVideoRef w
      /\ timeouts w' = timeouts w ++ [ {| delay := 100 |} ])
  /\ (l_isFluentMode l = false ->
      hook w' = hook w
      /\ opacity <$> streamVideoRef w' = Some (opacity sv)
      /\ idleVideoRef w' = idleVideoRef w
      /\ timeouts w' = timeouts w).
Proof.
  intros Ht Hsv. unfold on_track, mbind, St_bind, bind. simpl.
  rewrite Ht, Hsv. simpl. unfold new_monitor.
  destruct (l_isFluentMode l); simpl; rewrite Hsv; simpl;
    repeat split; try discriminate; try reflexivity.
  destruct (idleVideoRef w); reflexivity.
Qed.

(** The track listener never touches [isStreamPlaying]. *)
Lemma on_track_isStreamPlaying (p : nat) (l : Listeners)
    (streams : list MediaStream) (w : World) :
  isStreamPlaying (hook (snd (on_track p l streams w))) = isStreamPlaying (hook w).
Proof.
  unfold on_track, mbind, St_bind, bind.
  destruct streams as [|stream rest]; [reflexivity|]. simpl.
  destruct (getVideoTracks w stream); [reflexivity|].
  destruct (streamVideoRef w); [|reflexivity].
  destruct (l_isFluentMode l); reflexivity.
Qed.

Lemma updateVideoDisplay_normal (cap : HookState) (stream : option MediaStream)
    (isPlaying : bool) (w : World) :
  fst (updateVideoDisplay cap stream isPlaying w) = Normal tt.
Proof.
  unfold updateVideoDisplay, mbind, St_bind, bind. simpl.
  destruct (streamVideoRef w) as [sv|] eqn:Hsv; [|reflexivity].
  destruct (idleVideoRef w) as [iv|]; [|reflexivity].
  destruct (isFluent cap); simpl.
  - destruct stream; simpl; [|reflexivity].
    rewrite Hsv. simpl. destruct (paused sv); reflexivity.
  - destruct isPlaying; simpl; [|reflexivity].
    destruct stream; simpl; [|reflexivity].
    rewrite Hsv. simpl. destruct (paused sv); reflexivity.
Qed.

Lemma keeps_updateVideoDisplay {B} (obs : World -> B) (cap : HookState)
    (stream : option MediaStream) (isPlaying : bool) :
  (forall f w, obs (set_streamVideo f w) = obs w) ->
  (forall f w, obs (set_idleVideo f w) = obs w) ->
  (forall f w, obs (set_trace f w) = obs w) ->
  keeps obs (updateVideoDisplay cap stream isPlaying).
Proof.
  intros H1 H2 H3. unfold updateVideoDisplay. keeps_auto; auto.
Qed.

(** One report, seen by interval [i] whose locals are those of [m]. *)
Lemma on_report_spec (i : nat) (report : Report) (w : World) (m : Monitor) :
  intervals w !! i = Some m ->
  let nowPlaying := lastBytes m <? bytesReceived report in
  let w' := snd (on_report i report w) in
  fst (on_report i report w) = Normal tt
  /\ pcs w' = pcs w
  /\ isStreamReady (hook w') = isStreamReady (hook w)
  /\ (inbound_video report = false -> w' = w)
  /\ (inbound_video report = true ->
      intervals w' !! i = Some (with_locals (bytesReceived report) nowPlaying m)
      /\ isStreamPlaying (hook w')
         = (if eqb nowPlaying (lastPlayingState m)
            then isStreamPlaying (hook w) else nowPlaying)
      /\ (m_isFluentMode m = true \/ eqb nowPlaying (lastPlayingState m) = true ->
          streamVideoRef w' = streamVideoRef w
          /\ idleVideoRef w' = idleVideoRef w
          /\ trace w' = trace w)
      /\ (m_isFluentMode m = false -> eqb nowPlaying (lastPlayingState m) = false ->
          let shown := snd (updateVideoDisplay (m_cap m) (Some (m_stream m))
                              nowPlaying (snd (setIsStreamPlaying nowPlaying w))) in
          streamVideoRef w' = streamVideoRef shown
          /\ idleVideoRef w' = idleVideoRef shown
          /\ trace w' = trace shown)).
Proof.
  intros Hm nowPlaying w'. subst w'.
  unfold on_report, mbind, St_bind. rewrite (bind_normal _ _ _ w) by reflexivity.
  change (snd (get w)) with w. rewrite Hm.
  change (bool_decide (rtype report = lit "inbound-rtp")
          && bool_decide (rkind report = lit "video"))
    with (inbound_video report).
  fold nowPlaying.
  destruct (inbound_video report).
  2: { repeat split; try reflexivity; discriminate. }
  destruct (eqb nowPlaying (lastPlayingState m)) eqn:Heq.
  { simpl. apply eqb_prop in Heq.
    repeat split; try discriminate; try reflexivity.
    rewrite list_lookup_alter_eq, Hm. simpl. unfold with_locals. simpl.
    now rewrite Heq. }
  cbn [negb].
  destruct (m_isFluentMode m) eqn:Hf.
  - simpl.
    repeat split; try discriminate; try reflexivity;
      try (rewrite !list_lookup_alter_eq, Hm; reflexivity).
  - cbn [negb].
    pose proof (updateVideoDisplay_normal (m_cap m) (Some (m_stream m)) nowPlaying)
      as Hn.
    pose proof (keeps_updateVideoDisplay pcs (m_cap m) (Some (m_stream m))
                  nowPlaying ltac:(reflexivity) ltac:(reflexivity)
                  ltac:(reflexivity)) as Hp.
    pose proof (keeps_updateVideoDisplay hook (m_cap m) (Some (m_stream m))
                  nowPlaying ltac:(reflexivity) ltac:(reflexivity)
                  ltac:(reflexivity)) as Hh.
    pose proof (keeps_updateVideoDisplay intervals (m_cap m) (Some (m_stream m))
                  nowPlaying ltac:(reflexivity) ltac:(reflexivity)
                  ltac:(reflexivity)) as Hi.
    revert Hn Hp Hh Hi.
    generalize (updateVideoDisplay (m_cap m) (Some (m_stream m)) nowPlaying).
    intros U Hn Hp Hh Hi. unfold keeps in *.
    unfold bind, setIsStreamPlaying, modify. cbn iota beta.
    match goal with |- context [U ?w1] =>
      specialize (Hn w1); specialize (Hp w1); specialize (Hh w1);
      specialize (Hi w1); destruct (U w1) as [c w2] eqn:HU
    end.
    simpl in Hn, Hp, Hh, Hi. subst c. simpl.
    rewrite Hp, Hh, Hi. simpl.
    repeat split; try discriminate; try reflexivity;
      try (rewrite !list_lookup_alter_eq, Hm; reflexivity);
      try (match goal with H : _ \/ _ |- _ => destruct H; discriminate end);
      unfold set_hook in *; simpl in *; rewrite HU; reflexivity.
Qed.

Lemma on_report_normal (i : nat) (r : Report) (w : World) :
  fst (on_report i r w) = Normal tt.
Proof.
  destruct (intervals w !! i) as [m|] eqn:Hm.
  - apply (on_report_spec i r w m Hm).
  - unfold on_report, mbind, St_bind, bind. simpl. now rewrite Hm.
Qed.

Lemma forEach_cons {A} (f : A -> M unit) (a : A) (l : list A) (w : World) :
  fst (f a w) = Normal tt ->
  forEach f (a :: l) w = forEach f l (snd (f a w)).
Proof.
  intros H. simpl. unfold mbind, St_bind.
  rewrite (bind_normal _ _ _ tt) by exact H. reflexivity.
Qed.

Lemma forEach_on_report_normal (i : nat) (reports : list Report) (w : World) :
  fst (forEach (on_report i) reports w) = Normal tt.
Proof.
  revert w. induction reports as [|r rs IH]; intros w; [reflexivity|].
  rewrite forEach_cons by apply on_report_normal. apply IH.
Qed.

Lemma interval_tick_unfold (i : nat) (sample : Sample) (w : World) (m : Monitor) :
  intervals w !! i = Some m ->
  interval_tick i sample w
  = if cleared m then (Normal tt, w)
    else if bool_decide (from_option connectionState CsClosed (pcs w !! m_pc m)
                         = CsClosed)
    then (Normal tt, set_intervals (alter clearInterval i) w)
    else match sample with
         | Stats reports => (Normal tt, snd (forEach (on_report i) reports w))
         | _ => (Normal tt, w)
         end.
Proof.
  intros Hm. unfold interval_tick, mbind, St_bind.
  rewrite (bind_normal _ _ _ w) by reflexivity. change (snd (get w)) with w.
  rewrite Hm. destruct (cleared m); [reflexivity|].
  destruct (bool_decide _); [reflexivity|].
  unfold try_catch. destruct sample as [| |reports]; try reflexivity.
  pose proof (forEach_on_report_normal i reports w) as H.
  destruct (forEach (on_report i) reports w) as [[[]|e] w1]; simpl in *;
    [reflexivity|discriminate].
Qed.

Lemma interval_tick_unregistered (i : nat) (sample : Sample) (w : World) :
  intervals w !! i = None -> interval_tick i sample w = (Normal tt, w).
Proof.
  intros Hm. unfold interval_tick, mbind, St_bind, bind. simpl. now rewrite Hm.
Qed.

Lemma interval_tick_normal (i : nat) (sample : Sample) (w : World) :
  fst (interval_tick i sample w) = Normal tt.
Proof.
  destruct (intervals w !! i) as [m|] eqn:Hm.
  - rewrite (interval_tick_unfold i sample w m Hm).
    destruct (cleared m); [reflexivity|]. destruct (bool_decide _); [reflexivity|].
    destruct sample; reflexivity.
  - now rewrite interval_tick_unregistered.
Qed.

(** *** Fluent mode *)

Lemma on_report_fluent (i : nat) (r : Report) (w : World) :
  fluent_interval i w -> presented w ->
  fluent_interval i (snd (on_report i r w)) /\ presented (snd (on_report i r w)).
Proof.
  intros (m & Hm & Hf) Hp.
  destruct (on_report_spec i r w m Hm) as (_ & _ & Hready & Hskip & Hin).
  destruct (inbound_video r).
  - destruct (Hin eq_refl) as (Hi & _ & Hsame & _).
    destruct (Hsame (or_introl Hf)) as (Hs & Hidle & _).
    split.
    + eexists. split; [exact Hi|exact Hf].
    + unfold presented in *. rewrite Hready, Hs, Hidle. exact Hp.
  - rewrite (Hskip eq_refl). split; [exists m|]; auto.
Qed.

Lemma forEach_on_report_fluent (i : nat) (reports : list Report) (w : World) :
  fluent_interval i w -> presented w ->
  fluent_interval i (snd (forEach (on_report i) reports w))
  /\ presented (snd (forEach (on_report i) reports w)).
Proof.
  revert w. induction reports as [|r rs IH]; intros w Hf Hp; [auto|].
  rewrite forEach_cons by apply on_report_normal.
  destruct (on_report_fluent i r w Hf Hp). now apply IH.
Qed.

Lemma interval_tick_fluent (i : nat) (sample : Sample) (w : World) :
  fluent_interval i w -> presented w ->
  fluent_interval i (snd (interval_tick i sample w))
  /\ presented (snd (interval_tick i sample w)).
Proof.
  intros Hf Hp. pose proof Hf as (m & Hm & Hfl).
  rewrite (interval_tick_unfold i sample w m Hm).
  destruct (cleared m); [auto|].
  destruct (bool_decide _).
  - split; [|exact Hp]. exists (clearInterval m). split; [|exact Hfl].
    simpl. now rewrite list_lookup_alter_eq, Hm.
  - destruct sample; auto. now apply forEach_on_report_fluent.
Qed.

(** C4. In fluent mode, when a remote stream with a video track arrives and
    both surfaces are mounted, the track listener marks the stream ready,
    makes the live surface opaque and unmuted and the idle surface
    transparent; and whatever samples the interval it registers then sees,
    all of this still holds. *)
Theorem fluent_track_presents_stream (p : nat) (l : Listeners)
    (stream : MediaStream) (rest : list MediaStream) (w : World)
    (t : nat) (ts : list nat) (sv iv : VideoElement) :
  l_isFluentMode l = true ->
  getVideoTracks w stream = t :: ts ->
  streamVideoRef w = Some sv ->
  idleVideoRef w = Some iv ->
  let w' := snd (on_track p l (stream :: rest) w) in
  presented w'
  /\ forall samples,
       presented (snd (forEach (interval_tick (length (intervals w))) samples w')).
Proof.
  intros Hf Ht Hsv Hiv w'.
  destruct (on_track_video p l stream rest w t ts sv Ht Hsv)
    as (_ & Hi & _ & _ & _ & Hmuted & Hfl & _).
  destruct (Hfl Hf) as (Hready & Hop & Hidle & _).
  fold w' in Hi, Hmuted, Hready, Hop, Hidle.
  assert (Hp : presented w').
  { unfold presented. rewrite Hidle, Hiv. auto. }
  assert (Hfi : fluent_interval (length (intervals w)) w').
  { exists (new_monitor p l t stream). split; [|exact Hf].
    rewrite Hi. apply list_lookup_middle. reflexivity. }
  split; [exact Hp|]. intros samples.
  revert Hp Hfi. generalize w'. clear.
  induction samples as [|s ss IH]; intros w1 Hp Hfi; [exact Hp|].
  rewrite forEach_cons by apply interval_tick_normal.
  destruct (interval_tick_fluent _ s w1 Hfi Hp). now apply IH.
Qed.

Lemma fluent_track_presents_stream_witness :
  let w' := snd (on_track 0 (listeners0 true) [stream0] world1) in
  presented w'
  /\ presented (snd (forEach (interval_tick 0)
                       [ Stats [video_report 0]; Stats [video_report 500];
                         StatsRejected; Stats [video_report 500] ] w')).
Proof.
  intro w'.
  destruct (fluent_track_presents_stream 0 (listeners0 true) stream0 [] world1
              0%nat [] video0 video0 eq_refl eq_refl eq_refl eq_refl) as (H1 & H2).
  split; [exact H1|apply H2].
Defined.

(** *** When the stream counts as playing *)

Lemma last_count_cons (base : Z) (r : Report) (seen : list Report) :
  last_count base (r :: seen)
  = last_count (if inbound_video r then bytesReceived r else base) seen.
Proof. reflexivity. Qed.

Lemma forEach_on_report_playing (i : nat) (reports : list Report) (w : World)
    (m : Monitor) :
  intervals w !! i = Some m ->
  let w' := snd (forEach (on_report i) reports w) in
  (exists m', intervals w' !! i = Some m'
              /\ lastBytes m' = last_count (lastBytes m) reports)
  /\ (isStreamPlaying (hook w') = true ->
      isStreamPlaying (hook w) = true \/ growth (lastBytes m) reports).
Proof.
  revert w m. induction reports as [|r rs IH]; intros w m Hm w'.
  { split; [exists m; auto | auto]. }
  subst w'. rewrite forEach_cons by apply on_report_normal.
  destruct (on_report_spec i r w m Hm) as (_ & _ & _ & Hskip & Hin).
  rewrite last_count_cons.
  destruct (inbound_video r) eqn:Hr.
  - destruct (Hin eq_refl) as (Hm1 & Hplay & _).
    destruct (IH _ _ Hm1) as (Hlast & Hgrow). split; [exact Hlast|].
    intros Htrue. destruct (Hgrow Htrue) as [H1|(seen & r' & rest & -> & Hr' & Hlt)].
    + rewrite Hplay in H1.
      destruct (eqb _ _); [now left|]. right.
      exists [], r, rs. repeat split; auto. simpl. now apply Z.ltb_lt.
    + right. exists (r :: seen), r', rest. repeat split; auto.
      rewrite last_count_cons, Hr. exact Hlt.
  - rewrite (Hskip eq_refl).
    destruct (IH _ _ Hm) as (Hlast & Hgrow). split; [exact Hlast|].
    intros Htrue. destruct (Hgrow Htrue) as [H1|(seen & r' & rest & -> & Hr' & Hlt)].
    + now left.
    + right. exists (r :: seen), r', rest. repeat split; auto.
      rewrite last_count_cons, Hr. exact Hlt.
Qed.

Lemma on_report_other (i : nat) (r : Report) (w : World) :
  inbound_video r = false -> on_report i r w = (Normal tt, w).
Proof.
  intros Hr. destruct (intervals w !! i) as [m|] eqn:Hm.
  - destruct (on_report_spec i r w m Hm) as (Hn & _ & _ & Hskip & _).
    specialize (Hskip Hr). destruct (on_report i r w) as [c w1].
    simpl in *. now subst.
  - unfold on_report, mbind, St_bind, bind. simpl. now rewrite Hm.
Qed.

Lemma forEach_on_report_other (i : nat) (rs : list Report) (w : World) :
  other_reports rs -> forEach (on_report i) rs w = (Normal tt, w).
Proof.
  induction 1 as [|r rs Hr _ IH]; [reflexivity|].
  rewrite forEach_cons by apply on_report_normal.
  now rewrite (on_report_other i r w Hr).
Qed.

Lemma forEach_app {A} (f : A -> M unit) (l1 l2 : list A) (w : World) :
  fst (forEach f l1 w) = Normal tt ->
  forEach f (l1 ++ l2) w = forEach f l2 (snd (forEach f l1 w)).
Proof.
  revert w. induction l1 as [|a l1 IH]; intros w H; [reflexivity|].
  cbn [app forEach] in *. unfold mbind, St_bind, bind in *.
  destruct (f a w) as [[[]|e] w1]; [|discriminate]. now apply IH.
Qed.

(** A firing that finds one inbound video report among others. *)
Lemma interval_tick_one_report (i : nat) (m : Monitor) (pre post : list Report)
    (r : Report) (w : World) :
  intervals w !! i = Some m -> cleared m = false ->
  from_option connectionState CsClosed (pcs w !! m_pc m) <> CsClosed ->
  other_reports pre -> other_reports post ->
  interval_tick i (Stats (pre ++ r :: post)) w = (Normal tt, snd (on_report i r w)).
Proof.
  intros Hm Hc Hopen Hpre Hpost.
  rewrite (interval_tick_unfold i _ w m Hm), Hc.
  rewrite bool_decide_eq_false_2 by exact Hopen.
  rewrite forEach_app by (now rewrite forEach_on_report_other).
  rewrite (forEach_on_report_other i pre w Hpre). cbn [snd].
  rewrite forEach_cons by apply on_report_normal.
  now rewrite (forEach_on_report_other i post _ Hpost).
Qed.

Lemma on_report_fluent_surfaces (i : nat) (r : Report) (w : World) :
  fluent_interval i w ->
  fluent_interval i (snd (on_report i r w))
  /\ surfaces (snd (on_report i r w)) = surfaces w
  /\ pcs (snd (on_report i r w)) = pcs w.
Proof.
  intros (m & Hm & Hf).
  destruct (on_report_spec i r w m Hm) as (_ & Hp & _ & Hskip & Hin).
  destruct (inbound_video r).
  - destruct (Hin eq_refl) as (Hi & _ & Hsame & _).
    destruct (Hsame (or_introl Hf)) as (Hs & Hidle & _).
    split; [eexists; split; [exact Hi|exact Hf]|].
    unfold surfaces. rewrite Hs, Hidle. auto.
  - rewrite (Hskip eq_refl). split; [exists m|]; auto.
Qed.

Lemma interval_tick_fluent_surfaces (i : nat) (sample : Sample) (w : World) :
  fluent_interval i w ->
  fluent_interval i (snd (interval_tick i sample w))
  /\ surfaces (snd (interval_tick i sample w)) = surfaces w.
Proof.
  intros Hf. pose proof Hf as (m & Hm & Hfl).
  rewrite (interval_tick_unfold i sample w m Hm).
  destruct (cleared m); [auto|].
  destruct (bool_decide _).
  - split; [|reflexivity]. exists (clearInterval m). split; [|exact Hfl].
    simpl. now rewrite list_lookup_alter_eq, Hm.
  - destruct sample as [| |reports]; auto. cbn [snd].
    clear Hm Hfl m. revert w Hf.
    induction reports as [|r rs IH]; intros w Hf; [auto|].
    rewrite forEach_cons by apply on_report_normal.
    destruct (on_report_fluent_surfaces i r w Hf) as (Hf1 & Hs1 & _).
    destruct (IH _ Hf1) as (Hf2 & Hs2). split; [exact Hf2|congruence].
Qed.

Lemma forEach_interval_tick_fluent_surfaces (i : nat) (samples : list Sample)
    (w : World) :
  fluent_interval i w ->
  surfaces (snd (forEach (interval_tick i) samples w)) = surfaces w.
Proof.
  revert w. induction samples as [|s ss IH]; intros w Hf; [reflexivity|].
  rewrite forEach_cons by apply interval_tick_normal.
  destruct (interval_tick_fluent_surfaces i s w Hf) as (Hf1 & Hs1).
  rewrite (IH _ Hf1). exact Hs1.
Qed.

(** The first firing after the track event. *)
Lemma first_sample_after_track (p : nat) (l : Listeners) (stream : MediaStream)
    (rest : list MediaStream) (w : World) (t : nat) (ts : list nat)
    (sv : VideoElement) (pc : RTCPeerConnection) (r : Report) :
  getVideoTracks w stream = t :: ts -> streamVideoRef w = Some sv ->
  pcs w !! p = Some pc -> connectionState pc <> CsClosed ->
  inbound_video r = true -> 0 < bytesReceived r ->
  isStreamPlaying
    (hook (snd (interval_tick (length (intervals w)) (Stats [r])
                  (snd (on_track p l (stream :: rest) w))))) = true.
Proof.
  intros Ht Hsv Hpc Hopen Hr Hpos.
  destruct (on_track_video p l stream rest w t ts sv Ht Hsv)
    as (_ & Hi & _ & Hp & _).
  set (w' := snd (on_track p l (stream :: rest) w)) in *.
  assert (Hm : intervals w' !! length (intervals w)
               = Some (new_monitor p l t stream)).
  { rewrite Hi. apply list_lookup_middle. reflexivity. }
  change (Stats [r]) with (Stats ([] ++ r :: [])).
  rewrite (interval_tick_one_report _ _ [] [] r w' Hm eq_refl).
  2: { cbn [new_monitor m_pc]. rewrite Hp, Hpc. exact Hopen. }
  2, 3: constructor.
  cbn [snd].
  destruct (on_report_spec _ r w' _ Hm) as (_ & _ & _ & _ & Hin).
  destruct (Hin Hr) as (_ & Hplay & _).
  rewrite Hplay. cbn [new_monitor lastBytes lastPlayingState].
  apply Z.ltb_lt in Hpos. rewrite Hpos. reflexivity.
Qed.

(** C5, as the code has it. The track listener never changes
    [isStreamPlaying], and the interval it registers starts from a count of
    0 and a playing state of false. A firing of an interval turns
    [isStreamPlaying] from false to true only when it gets statistics in
    which an inbound video report carries a count strictly above the count
    before it, which is that of the previous such report, of this sample or
    of an earlier one (a firing leaves the count of its last such report for
    the next, and a firing without statistics, or of an interval that is
    cleared or whose connection is closed, leaves the count as it was), and
    0 before the first. So the first firing after the track
    event, with one report of a positive count, is enough. *)
Theorem playing_needs_growing_count :
  (forall p l streams w,
     isStreamPlaying (hook (snd (on_track p l streams w))) = isStreamPlaying (hook w))
  /\ (forall p l stream rest w t ts sv,
        getVideoTracks w stream = t :: ts -> streamVideoRef w = Some sv ->
        exists m,
          intervals (snd (on_track p l (stream :: rest) w)) !! length (intervals w)
          = Some m
          /\ lastBytes m = 0 /\ lastPlayingState m = false
          /\ cleared m = false /\ m_pc m = p)
  /\ (forall i sample w,
        isStreamPlaying (hook w) = false ->
        isStreamPlaying (hook (snd (interval_tick i sample w))) = true ->
        exists m reports,
          intervals w !! i = Some m /\ sample = Stats reports /\
          growth (lastBytes m) reports)
  /\ (forall i sample w m,
        intervals w !! i = Some m ->
        exists m',
          intervals (snd (interval_tick i sample w)) !! i = Some m'
          /\ lastBytes m'
             = match sample with
               | Stats reports =>
                   if cleared m
                      || bool_decide
                           (from_option connectionState CsClosed (pcs w !! m_pc m)
                            = CsClosed)
                   then lastBytes m
                   else last_count (lastBytes m) reports
               | _ => lastBytes m
               end)
  /\ (forall p l stream rest w t ts sv pc r,
        getVideoTracks w stream = t :: ts -> streamVideoRef w = Some sv ->
        pcs w !! p = Some pc -> connectionState pc <> CsClosed ->
        inbound_video r = true -> 0 < bytesReceived r ->
        isStreamPlaying
          (hook (snd (interval_tick (length (intervals w)) (Stats [r])
                        (snd (on_track p l (stream :: rest) w))))) = true).
Proof.
  split; [exact on_track_isStreamPlaying|]. split; [|split; [|split]].
  - intros p l stream rest w t ts sv Ht Hsv.
    destruct (on_track_video p l stream rest w t ts sv Ht Hsv) as (_ & Hi & _).
    exists (new_monitor p l t stream). rewrite Hi.
    split; [apply list_lookup_middle; reflexivity|]. repeat split.
  - intros i sample w Hfalse Htrue.
    destruct (intervals w !! i) as [m|] eqn:Hm.
    2: { rewrite interval_tick_unregistered in Htrue by exact Hm.
         simpl in Htrue. congruence. }
    rewrite (interval_tick_unfold i sample w m Hm) in Htrue.
    destruct (cleared m); [simpl in Htrue; congruence|].
    destruct (bool_decide _); [simpl in Htrue; congruence|].
    destruct sample as [| |reports]; try (simpl in Htrue; congruence).
    exists m, reports. split; [reflexivity|]. split; [reflexivity|].
    destruct (forEach_on_report_playing i reports w m Hm) as (_ & Hgrow).
    destruct (Hgrow Htrue) as [H|H]; [congruence|exact H].
  - intros i sample w m Hm.
    rewrite (interval_tick_unfold i _ w m Hm).
    destruct (cleared m) eqn:Hc; cbn [orb].
    { exists m. split; [exact Hm|]. destruct sample; reflexivity. }
    destruct (bool_decide _).
    { exists (clearInterval m). cbn [snd intervals set_intervals].
      rewrite list_lookup_alter_eq, Hm. split; [reflexivity|].
      destruct sample; reflexivity. }
    destruct sample as [| |reports]; try (exists m; split; [exact Hm|reflexivity]).
    exact (proj1 (forEach_on_report_playing i reports w m Hm)).
  - intros p l stream rest w t ts sv pc r. apply first_sample_after_track.
Qed.

Lemma playing_needs_growing_count_witness :
  let w1 := snd (connect (env_fluent false) hook0 world1) in
  let w2 := snd (track 0 [stream0] w1) in
  exists m reports,
    intervals w2 !! 0%nat = Some m /\ Stats [video_report 500] = Stats reports /\
    growth (lastBytes m) reports.
Proof.
  intros w1 w2.
  exact (proj1 (proj2 (proj2 playing_needs_growing_count))
           0%nat (Stats [video_report 500]) w2 eq_refl eq_refl).
Defined.

(** C5, as stated, fails: not fluent, a track has arrived, and a single
    sample with a positive count turns [isStreamPlaying] on. *)
Lemma one_sample_sets_playing :
  let w1 := snd (connect (env_fluent false) hook0 world1) in
  let w2 := snd (track 0 [stream0] w1) in
  let w3 := snd (interval_tick 0 (Stats [video_report 500]) w2) in
  isFluent (hook w1) = false
  /\ isStreamPlaying (hook w2) = false
  /\ isStreamPlaying (hook w3) = true.
Proof. vm_compute. repeat split; reflexivity. Qed.

(** ** One session at a time *)

Lemma conn_states_alter (f : RTCPeerConnection -> RTCPeerConnection) (p : nat)
    (l : list RTCPeerConnection) :
  (forall x, connectionState (f x) = connectionState x) ->
  List.map connectionState (alter f p l) = List.map connectionState l.
Proof.
  intros Hf. revert p. induction l as [|x l IH]; intros [|p]; simpl; auto.
  - now rewrite Hf.
  - f_equal. apply IH.
Qed.

Lemma conn_states_close (p : nat) (l : list RTCPeerConnection) :
  List.map connectionState (alter (with_connectionState CsClosed) p l)
  = alter (fun _ => CsClosed) p (List.map connectionState l).
Proof.
  revert p. induction l as [|x l IH]; intros [|p]; simpl; auto.
  f_equal. apply IH.
Qed.

Section Session.

Variable env : Env.

Lemma keeps_fetch {B} (obs : World -> B) (u : jsstring) (o : RequestInit) :
  (forall f w, obs (set_trace f w) = obs w) -> keeps obs (fetch env u o).
Proof.
  intros H w. unfold fetch. destruct (server env _ _); simpl; apply H.
Qed.

Lemma keeps_fetchWithRetry {B} (obs : World -> B) (u : jsstring) (o : RequestInit)
    (n : Z) :
  (forall f w, obs (set_trace f w) = obs w) -> keeps obs (fetchWithRetry env u o n).
Proof.
  intros H w. destruct (fetchWithRetry_frame env u o n w) as (j & _ & ->). apply H.
Qed.

Lemma keeps_transport_fetch_agent_info (cfg : DIDApiConfig) :
  keeps transport (fetch_agent_info env cfg).
Proof.
  unfold fetch_agent_info, response_json.
  apply keeps_bind; [apply keeps_fetch; reflexivity|]. intros. keeps_auto.
Qed.

Lemma keeps_transport_create_stream (cfg : DIDApiConfig) :
  keeps transport (create_stream env cfg).
Proof.
  unfold create_stream, response_json.
  apply keeps_bind; [apply keeps_fetchWithRetry; reflexivity|]. intros. keeps_auto.
Qed.

Lemma keeps_transport_prep_idle_visuals (agentData fluent : JsValue) :
  keeps transport (prep_idle_visuals agentData fluent).
Proof. unfold prep_idle_visuals. keeps_auto. Qed.

Lemma keeps_transport_negotiate (p : nat) (offer : JsValue) :
  keeps transport (negotiate env p offer).
Proof.
  unfold negotiate. keeps_auto.
  all: unfold transport, conn_states; simpl;
    rewrite conn_states_alter by reflexivity; reflexivity.
Qed.

Lemma keeps_transport_send_answer (cfg : DIDApiConfig) (id session_id answer : JsValue) :
  keeps transport (send_answer env cfg id session_id answer).
Proof.
  unfold send_answer.
  apply keeps_bind; [apply keeps_fetch; reflexivity|]. intros. keeps_auto.
Qed.

Lemma start_webrtc_creates (l : Listeners) (ice_servers : JsValue) :
  creates_at_most_one (start_webrtc env l ice_servers).
Proof.
  intros w. unfold start_webrtc, new_RTCPeerConnection, mbind, St_bind, bind.
  destruct (constructs env ice_servers); simpl; [right|left; reflexivity].
  unfold transport, conn_states. simpl.
  rewrite !conn_states_alter by reflexivity.
  rewrite List.map_app, length_map. reflexivity.
Qed.

Lemma creates_quiet_bind {A C} (m : M A) (k : A -> M C) :
  keeps transport m -> (forall a, creates_at_most_one (k a)) ->
  creates_at_most_one (bind m k).
Proof.
  intros Hm Hk w. specialize (Hm w).
  destruct (bind_cases m k w) as [(e & _ & ->)|(a & _ & ->)]; [now left|].
  destruct (Hk a (snd (m w))) as [H|H]; rewrite H.
  - now left.
  - right. unfold transport in Hm. injection Hm as -> _. reflexivity.
Qed.

Lemma creates_bind_quiet {A C} (m : M A) (k : A -> M C) :
  creates_at_most_one m -> (forall a, keeps transport (k a)) ->
  creates_at_most_one (bind m k).
Proof.
  intros Hm Hk w. specialize (Hm w).
  destruct (bind_cases m k w) as [(e & _ & ->)|(a & _ & ->)]; [exact Hm|].
  rewrite Hk. exact Hm.
Qed.

#[local] Hint Resolve keeps_transport_fetch_agent_info
  keeps_transport_create_stream keeps_transport_prep_idle_visuals
  keeps_transport_negotiate keeps_transport_send_answer : keeps.

Lemma torn_down_transport (cap : HookState) (w : World) :
  transport (torn_down cap w)
  = match peerConnection cap with
    | Some p => (alter (fun _ => CsClosed) p (conn_states w), None)
    | None => transport w
    end.
Proof.
  unfold torn_down.
  destruct (stopStream_frame (snd (emit (EvStatus connecting_status) w)))
    as (Hh & Hp & _).
  change (pcs (snd (emit (EvStatus connecting_status) w))) with (pcs w) in Hp.
  change (hook (snd (emit (EvStatus connecting_status) w))) with (hook w) in Hh.
  revert Hh Hp.
  generalize (snd (stopStream (snd (emit (EvStatus connecting_status) w)))).
  intros w1 Hh Hp. unfold closeConnection, transport, conn_states.
  destruct (peerConnection cap); simpl; rewrite Hp, ?Hh; [|reflexivity].
  now rewrite conn_states_close.
Qed.

Lemma torn_down_no_live (cap : HookState) (w : World) :
  single_session w ->
  peerConnection cap = peerConnection (hook w) ->
  (forall i, ~ live (torn_down cap w) i)
  /\ peerConnection (hook (torn_down cap w)) = None
  /\ length (pcs (torn_down cap w)) = length (pcs w).
Proof.
  intros Hs Hcap.
  pose proof (torn_down_transport cap w) as Ht.
  pose proof (torn_down_pcs cap w) as Hp.
  unfold transport in Ht. unfold live.
  destruct (peerConnection cap) as [p|]; injection Ht as Hc Hh.
  - split; [|split; [exact Hh|rewrite Hp; apply length_alter]].
    intros i (st & Hi & Hst). rewrite Hc in Hi.
    destruct (decide (p = i)) as [->|Hne].
    + rewrite list_lookup_alter_eq in Hi.
      destruct (conn_states w !! i); simpl in Hi; congruence.
    + rewrite list_lookup_alter_ne in Hi by exact Hne.
      assert (Hl : live w i) by (exists st; auto).
      apply Hs in Hl. congruence.
  - split; [|split; [congruence|now rewrite Hp]].
    intros i (st & Hi & Hst). rewrite Hc in Hi.
    assert (Hl : live w i) by (exists st; auto).
    apply Hs in Hl. congruence.
Qed.

Lemma stop_all_ended (l : list nat) (ts : list MediaStreamTrack) (t : nat) :
  In t l \/ (forall tr, ts !! t = Some tr -> ended tr = true) ->
  forall tr, stop_all l ts !! t = Some tr -> ended tr = true.
Proof.
  revert ts. induction l as [|a l IH]; intros ts H tr Htr.
  - destruct H as [[]|H]. now apply H.
  - simpl in Htr. apply IH in Htr; [exact Htr|].
    destruct (decide (a = t)) as [->|Hne].
    + right. intros tr'. rewrite list_lookup_alter_eq.
      destruct (ts !! t); simpl; [|discriminate]. now intros [= <-].
    + destruct H as [[?|?]|H]; [contradiction|now left|right].
      intros tr'. rewrite list_lookup_alter_ne by exact Hne. apply H.
Qed.

Lemma torn_down_tracks (cap : HookState) (w : World) (sv : VideoElement)
    (stream : MediaStream) :
  streamVideoRef w = Some sv -> srcObject sv = Some stream ->
  tracks (torn_down cap w) = stop_all (getTracks stream) (tracks w)
  /\ srcObject <$> streamVideoRef (torn_down cap w) = Some None.
Proof.
  intros Hsv Hsrc. unfold torn_down.
  assert (H : tracks (snd (stopStream (snd (emit (EvStatus connecting_status) w))))
              = stop_all (getTracks stream) (tracks w)
              /\ srcObject <$> streamVideoRef
                    (snd (stopStream (snd (emit (EvStatus connecting_status) w))))
                 = Some None).
  { unfold stopStream, mbind, St_bind, bind. simpl. rewrite Hsv, Hsrc.
    rewrite forEach_stop_track. simpl. rewrite Hsv. auto. }
  revert H.
  generalize (snd (stopStream (snd (emit (EvStatus connecting_status) w)))).
  intros w1 H. unfold closeConnection. destruct (peerConnection cap); exact H.
Qed.

Lemma transport_try_catch_quiet {A} (m : M A) (h : JsError -> M A) (w : World) :
  (forall e, keeps transport (h e)) ->
  transport (snd (try_catch m h w)) = transport (snd (m w)).
Proof.
  intros Hh. unfold try_catch.
  destruct (m w) as [[a|e] w1]; simpl; [reflexivity | apply Hh].
Qed.

Lemma extends_quiet_bind {A C B} (obs : World -> list B) (x : B)
    (m : M A) (k : A -> M C) :
  keeps obs m -> (forall a, extends obs x (k a)) -> extends obs x (bind m k).
Proof.
  intros Hm Hk w. specialize (Hm w).
  destruct (bind_cases m k w) as [(e & _ & ->)|(a & _ & ->)]; [now left|].
  rewrite <- Hm. apply Hk.
Qed.

Lemma extends_bind_quiet {A C B} (obs : World -> list B) (x : B)
    (m : M A) (k : A -> M C) :
  extends obs x m -> (forall a, keeps obs (k a)) -> extends obs x (bind m k).
Proof.
  intros Hm Hk w. specialize (Hm w).
  destruct (bind_cases m k w) as [(e & _ & ->)|(a & _ & ->)]; [exact Hm|].
  rewrite Hk. exact Hm.
Qed.

Lemma listener_flags_alter (f : RTCPeerConnection -> RTCPeerConnection) (p : nat)
    (l : list RTCPeerConnection) :
  (forall x, listeners (f x) = listeners x) ->
  List.map (fun pc => l_isFluentMode <$> listeners pc) (alter f p l)
  = List.map (fun pc => l_isFluentMode <$> listeners pc) l.
Proof.
  intros Hf. revert p. induction l as [|x l IH]; intros [|p]; simpl; auto.
  - now rewrite Hf.
  - f_equal. apply IH.
Qed.

Lemma start_webrtc_listener_flag (l : Listeners) (ice_servers : JsValue) :
  extends listener_flags (Some (l_isFluentMode l)) (start_webrtc env l ice_servers).
Proof.
  intros w. unfold start_webrtc, new_RTCPeerConnection, mbind, St_bind, bind.
  destruct (constructs env ice_servers); simpl; [right|left; reflexivity].
  unfold listener_flags. simpl.
  rewrite listener_flags_alter by reflexivity.
  replace (length (pcs w)) with (length (pcs w) + 0)%nat by lia.
  rewrite alter_app_r, List.map_app. reflexivity.
Qed.

Lemma keeps_listener_flags_negotiate (p : nat) (offer : JsValue) :
  keeps listener_flags (negotiate env p offer).
Proof.
  unfold negotiate. keeps_auto.
  all: unfold listener_flags; simpl;
    rewrite listener_flags_alter by reflexivity; reflexivity.
Qed.

Lemma keeps_listener_flags_send_answer (cfg : DIDApiConfig)
    (id session_id answer : JsValue) :
  keeps listener_flags (send_answer env cfg id session_id answer).
Proof.
  unfold send_answer.
  apply keeps_bind; [apply keeps_fetch; reflexivity|]. intros. keeps_auto.
Qed.

Lemma keeps_listener_flags_prep_idle_visuals (agentData fluent : JsValue) :
  keeps listener_flags (prep_idle_visuals agentData fluent).
Proof. unfold prep_idle_visuals. keeps_auto. Qed.

Lemma keeps_isFluent_start_webrtc (l : Listeners) (ice_servers : JsValue) :
  keeps (fun w => isFluent (hook w)) (start_webrtc env l ice_servers).
Proof. unfold start_webrtc, new_RTCPeerConnection. keeps_auto. Qed.

Lemma keeps_isFluent_negotiate (p : nat) (offer : JsValue) :
  keeps (fun w => isFluent (hook w)) (negotiate env p offer).
Proof. unfold negotiate. keeps_auto. Qed.

Lemma keeps_isFluent_send_answer (cfg : DIDApiConfig)
    (id session_id answer : JsValue) :
  keeps (fun w => isFluent (hook w)) (send_answer env cfg id session_id answer).
Proof.
  unfold send_answer.
  apply keeps_bind; [apply keeps_fetch; reflexivity|]. intros. keeps_auto.
Qed.

Lemma keeps_isFluent_prep_idle_visuals (agentData fluent : JsValue) :
  keeps (fun w => isFluent (hook w)) (prep_idle_visuals agentData fluent).
Proof. unfold prep_idle_visuals. keeps_auto. Qed.

#[local] Hint Resolve keeps_listener_flags_negotiate
  keeps_listener_flags_send_answer keeps_listener_flags_prep_idle_visuals
  keeps_isFluent_start_webrtc keeps_isFluent_negotiate
  keeps_isFluent_send_answer keeps_isFluent_prep_idle_visuals : keeps.

(** The flag the listeners of a new peer connection close over is the
    truth value of [fluent] in the server's answer to the stream creation,
    which is also what [isFluent] becomes. *)
Lemma establish_listener_flag (cfg : DIDApiConfig) (cap : HookState)
    (agentData data fluent : JsValue) (w : World) :
  get_prop data "fluent" = Normal fluent ->
  let w' := snd (establish env cfg cap agentData data w) in
  isFluent (hook w') = truthy fluent
  /\ (listener_flags w' = listener_flags w
      \/ listener_flags w' = listener_flags w ++ [Some (truthy fluent)]).
Proof.
  intros Hf w'. subst w'.
  assert (Hall : forall k, exists v, get_prop data k = Normal v).
  { intros k. destruct data; simpl in *; try discriminate; eauto. }
  unfold establish, mbind, St_bind.
  destruct (Hall "id"%string) as (id & ->).
  destruct (Hall "session_id"%string) as (session_id & ->).
  destruct (Hall "offer"%string) as (offer & ->).
  destruct (Hall "ice_servers"%string) as (ice_servers & ->).
  rewrite Hf.
  rewrite (bind_normal _ _ _ id) by reflexivity.
  rewrite (bind_normal _ _ _ session_id) by reflexivity.
  rewrite (bind_normal _ _ _ offer) by reflexivity.
  rewrite (bind_normal _ _ _ ice_servers) by reflexivity.
  rewrite (bind_normal _ _ _ fluent) by reflexivity.
  rewrite (bind_normal _ _ _ tt) by reflexivity.
  rewrite (bind_normal _ _ _ tt) by reflexivity.
  rewrite (bind_normal _ _ _ tt) by reflexivity.
  cbn [lift snd].
  match goal with |- context [snd (bind ?m ?k ?w3)] =>
    assert (Hk : keeps (fun w => isFluent (hook w)) (bind m k))
      by keeps_auto;
    assert (He : extends listener_flags (Some (truthy fluent)) (bind m k));
    [|split; [exact (Hk w3) | exact (He w3)]]
  end.
  apply extends_quiet_bind; [solve [keeps_auto]|intros].
  apply extends_bind_quiet;
    [exact (start_webrtc_listener_flag _ ice_servers)|intros; keeps_auto].
Qed.

Lemma handshake_creates (cfg : DIDApiConfig) (cap : HookState) :
  creates_at_most_one (handshake env cfg cap).
Proof.
  unfold handshake, establish, mbind, St_bind.
  repeat (apply creates_quiet_bind; [solve [keeps_auto]|intros]).
  apply creates_bind_quiet; [apply start_webrtc_creates|].
  intros. keeps_auto.
Qed.

Lemma single_session_at_most_one (w : World) :
  single_session w -> at_most_one_live w.
Proof.
  intros Hs i j Hi Hj. apply Hs in Hi. apply Hs in Hj. congruence.
Qed.

Lemma connect_reconnects (cap : HookState) (cfg : DIDApiConfig) (w : World) :
  apiConfig cap = Some cfg ->
  reports_connected w (peerConnection cap) = false ->
  transport (snd (connect env cap w)) = transport (torn_down cap w)
  \/ transport (snd (connect env cap w))
     = (conn_states (torn_down cap w) ++ [CsNew],
        Some (length (conn_states (torn_down cap w)))).
Proof.
  intros Hcfg Hconn.
  rewrite (connect_unfold env cap cfg w Hcfg Hconn).
  rewrite transport_try_catch_quiet
    by (intros; unfold connection_failed; keeps_auto).
  apply handshake_creates.
Qed.

Lemma connect_transport (cap : HookState) (w : World) :
  transport (snd (connect env cap w)) = transport w
  \/ transport (snd (connect env cap w)) = transport (torn_down cap w)
  \/ transport (snd (connect env cap w))
     = (conn_states (torn_down cap w) ++ [CsNew],
        Some (length (conn_states (torn_down cap w)))).
Proof.
  destruct (apiConfig cap) as [cfg|] eqn:Hcfg.
  2: { left. unfold connect. now rewrite Hcfg. }
  destruct (reports_connected w (peerConnection cap)) eqn:Hconn.
  { left. unfold connect, mbind, St_bind. rewrite Hcfg.
    rewrite (bind_normal _ _ _ tt) by reflexivity.
    rewrite (bind_normal _ _ _ (snd (emit (EvStatus connecting_status) w)))
      by reflexivity.
    replace (reports_connected _ _) with true. reflexivity. }
  right. now apply (connect_reconnects cap cfg).
Qed.

Lemma connect_single_session (cap : HookState) (w : World) :
  single_session w ->
  peerConnection cap = peerConnection (hook w) ->
  single_session (snd (connect env cap w)).
Proof.
  intros Hs Hcap.
  destruct (torn_down_no_live cap w Hs Hcap) as (Hno & Hnone & _).
  assert (Hfrom : forall w1 w2, transport w1 = transport w2 ->
                   single_session w2 -> single_session w1).
  { intros w1 w2 Ht H2 i (st & Hi & Hst). unfold transport in Ht.
    injection Ht as Hc Hh. rewrite Hh. apply H2. exists st. now rewrite <- Hc. }
  destruct (connect_transport cap w) as [H|[H|H]].
  - exact (Hfrom _ _ H Hs).
  - apply (Hfrom _ _ H). intros i Hi. now apply Hno in Hi.
  - intros i (st & Hi & Hst). unfold transport in H. injection H as Hc Hh.
    rewrite Hh. rewrite Hc in Hi. apply lookup_app_Some in Hi.
    destruct Hi as [Hi|(Hge & Hi)].
    + exfalso. apply (Hno i). exists st. auto.
    + destruct (i - length (conn_states (torn_down cap w)))%nat as [|k] eqn:Hk;
        [|destruct k; discriminate].
      f_equal. lia.
Qed.

End Session.

Lemma connect_by_awaits (env : Env) (cap : HookState) (w : World) :
  connect env cap w
  = (r ← connect_sync cap;
     match r with
     | Some cfg => connect_resumed env cfg cap
     | None => mret tt
     end) w.
Proof.
  unfold connect, connect_sync, connect_resumed, mbind, St_bind, bind.
  destruct (apiConfig cap) as [cfg|]; [|reflexivity].
  cbn [emit modify get fst snd].
  destruct (reports_connected _ (peerConnection cap)); [reflexivity|].
  pose proof (stopStream_normal
                (set_trace (fun t => t ++ [EvStatus connecting_status]) w)) as Hs.
  destruct (stopStream _) as [[[]|e] w1]; [|discriminate].
  pose proof (closeConnection_normal cap w1) as Hc.
  destruct (closeConnection cap w1) as [[[]|e] w2]; [|discriminate].
  reflexivity.
Qed.

(** C6 at its failing inputs. [connect] closes the peer connection that
    its own render holds, and creates the new one only after its awaits.
    Two calls from one render, one after the other or the second while the
    first awaits its first answer, therefore close nothing and leave two
    peer connections open. And calls made through the closure of the current
    render each do not keep to one either: the listener of a reconnection
    closes over the render that still held the old connection, so when the
    new connection fails the hook forgets it without closing it, and the
    next [connect] opens a third beside it. *)
Lemma connect_leaves_two_connections_open :
  let env := env_fluent true in
  let twice := snd (connect env hook0 (snd (connect env hook0 world1))) in
  let a := snd (connect_sync hook0 world1) in
  let b := snd (connect_sync (hook a) a) in
  let overlapped :=
    snd (connect_resumed env cfg0 (hook a)
           (snd (connect_resumed env cfg0 hook0 b))) in
  let w1 := snd (connect env hook0 world1) in
  let w2 := snd (connectionstatechange 0 CsDisconnected
                   (snd (connectionstatechange 0 CsConnected w1))) in
  let w3 := snd (connect env (hook w2) w2) in
  let w4 := snd (connectionstatechange 1 CsFailed
                   (snd (connectionstatechange 1 CsDisconnected
                           (snd (connectionstatechange 1 CsConnected w3))))) in
  let w5 := snd (connect env (hook w4) w4) in
  (conn_states twice = [CsNew; CsNew] /\ ~ at_most_one_live twice)
  /\ (fst (connect_sync (hook a) a) = Normal (Some cfg0)
      /\ conn_states overlapped = [CsNew; CsNew]
      /\ peerConnection (hook overlapped) = Some 1%nat)
  /\ (conn_states w3 = [CsClosed; CsNew]
      /\ peerConnection (hook w4) = None
      /\ conn_states w5 = [CsClosed; CsFailed; CsNew]
      /\ peerConnection (hook w5) = Some 2%nat
      /\ ~ at_most_one_live w5).
Proof.
  intros env twice a b overlapped w1 w2 w3 w4 w5.
  assert (Htwice : conn_states twice = [CsNew; CsNew]) by (vm_compute; reflexivity).
  assert (H5 : conn_states w5 = [CsClosed; CsFailed; CsNew])
    by (vm_compute; reflexivity).
  split; [split; [exact Htwice|]|split; [|split; [|split; [|split; [|split]]]]].
  - intros H. specialize (H 0%nat 1%nat).
    assert (H0 : live twice 0) by (exists CsNew; rewrite Htwice; split; [reflexivity|discriminate]).
    assert (H1 : live twice 1) by (exists CsNew; rewrite Htwice; split; [reflexivity|discriminate]).
    specialize (H H0 H1). discriminate.
  - vm_compute. repeat split; reflexivity.
  - vm_compute. reflexivity.
  - vm_compute. reflexivity.
  - exact H5.
  - vm_compute. reflexivity.
  - intros H. specialize (H 1%nat 2%nat).
    assert (H1 : live w5 1) by (exists CsFailed; rewrite H5; split; [reflexivity|discriminate]).
    assert (H2 : live w5 2) by (exists CsNew; rewrite H5; split; [reflexivity|discriminate]).
    specialize (H H1 H2). discriminate.
Qed.

(** ** The sampling in both modes *)

(** C3, as the code has it. Whatever the server's fluent flag, the track
    listener registers the 1-second sampling, and the interval runs: its
    first firing with an inbound video report of a positive count turns
    [isStreamPlaying] on, and any firing whose inbound video report compares
    differently from the last playing state sets [isStreamPlaying] to the
    comparison. The flag only decides what happens to the surfaces: when it
    is false such a firing hands the new playing state to
    [updateVideoDisplay]; when it is true no firing, whatever it samples,
    changes a surface. The flag is the one of the server's answer: what
    follows the stream creation sets [isFluent] to the truth value of its
    [fluent], and the listeners of the peer connection it creates, if any,
    close over that value. *)
Theorem sampling_runs_in_both_modes (p : nat) (l : Listeners)
    (stream : MediaStream) (rest : list MediaStream) (w : World)
    (t : nat) (ts : list nat) (sv : VideoElement) :
  getVideoTracks w stream = t :: ts ->
  streamVideoRef w = Some sv ->
  let i := length (intervals w) in
  let w' := snd (on_track p l (stream :: rest) w) in
  intervals w' !! i = Some (new_monitor p l t stream)
  /\ (forall env cfg cap agentData data fluent w0,
        get_prop data "fluent" = Normal fluent ->
        let w1 := snd (establish env cfg cap agentData data w0) in
        isFluent (hook w1) = truthy fluent
        /\ (listener_flags w1 = listener_flags w0
            \/ listener_flags w1 = listener_flags w0 ++ [Some (truthy fluent)]))
  /\ (forall pc r,
        pcs w !! p = Some pc -> connectionState pc <> CsClosed ->
        inbound_video r = true -> 0 < bytesReceived r ->
        isStreamPlaying (hook (snd (interval_tick i (Stats [r]) w'))) = true)
  /\ (forall w1 m pre r post,
        intervals w1 !! i = Some m -> cleared m = false ->
        from_option connectionState CsClosed (pcs w1 !! m_pc m) <> CsClosed ->
        inbound_video r = true -> other_reports pre -> other_reports post ->
        let nowPlaying := lastBytes m <? bytesReceived r in
        let w2 := snd (interval_tick i (Stats (pre ++ r :: post)) w1) in
        eqb nowPlaying (lastPlayingState m) = false ->
        isStreamPlaying (hook w2) = nowPlaying
        /\ (m_isFluentMode m = false ->
            surfaces w2
            = surfaces (snd (updateVideoDisplay (m_cap m) (Some (m_stream m))
                               nowPlaying
                               (snd (setIsStreamPlaying nowPlaying w1))))))
  /\ (forall w1 samples,
        fluent_interval i w1 ->
        surfaces (snd (forEach (interval_tick i) samples w1)) = surfaces w1).
Proof.
  intros Ht Hsv i w'. split; [|split; [|split; [|split]]].
  - subst w'.
    destruct (on_track_video p l stream rest w t ts sv Ht Hsv) as (_ & -> & _).
    apply list_lookup_middle. reflexivity.
  - intros env cfg cap agentData data fluent w0 Hf.
    now apply establish_listener_flag.
  - intros pc r Hpc Hopen Hr Hpos.
    exact (first_sample_after_track p l stream rest w t ts sv pc r Ht Hsv Hpc Hopen
             Hr Hpos).
  - intros w1 m pre r post Hm Hc Hopen Hin Hpre Hpost nowPlaying w2 Hflip.
    subst w2. rewrite (interval_tick_one_report i m pre post r w1 Hm Hc Hopen Hpre Hpost).
    cbn [snd].
    destruct (on_report_spec i r w1 m Hm) as (_ & _ & _ & _ & H).
    destruct (H Hin) as (_ & Hplay & _ & Hshown).
    fold nowPlaying in Hplay, Hshown. rewrite Hflip in Hplay.
    split; [exact Hplay|].
    intros Hf. destruct (Hshown Hf Hflip) as (Hs & Hidle & _).
    unfold surfaces. now rewrite Hs, Hidle.
  - intros w1 samples Hf. now apply forEach_interval_tick_fluent_surfaces.
Qed.

Lemma sampling_runs_in_both_modes_witness :
  let w := snd (on_track 0 (listeners0 true) [stream0] (world2 true)) in
  let w2 := snd (interval_tick 0 (Stats [video_report 500]) w) in
  intervals w !! 0%nat = Some (new_monitor 0 (listeners0 true) 0 stream0)
  /\ isStreamPlaying (hook w2) = true
  /\ surfaces (snd (forEach (interval_tick 0)
                      [Stats [video_report 500]; Stats [video_report 500]] w))
     = surfaces w.
Proof.
  intros w w2.
  destruct (sampling_runs_in_both_modes 0 (listeners0 true) stream0 [] (world2 true)
              0%nat [] video0 eq_refl eq_refl) as (H1 & _ & H2 & _ & H3).
  split; [exact H1|]. split.
  - apply (H2 (negotiated (listeners0 true) (JArr []) JNull JNull)
              (video_report 500) eq_refl); [discriminate|reflexivity|reflexivity].
  - apply H3. exists (new_monitor 0 (listeners0 true) 0 stream0).
    split; [exact H1|reflexivity].
Defined.

(** C3, as stated, fails: the server answered fluent, the track listener
    registered the sampling all the same, and its first sample turned
    [isStreamPlaying] on. *)
Lemma fluent_mode_still_samples :
  let w1 := snd (connect (env_fluent true) hook0 world1) in
  let w2 := snd (track 0 [stream0] w1) in
  let w3 := snd (interval_tick 0 (Stats [video_report 500]) w2) in
  isFluent (hook w1) = true
  /\ List.map m_isFluentMode (intervals w2) = [true]
  /\ isStreamPlaying (hook w2) = false
  /\ isStreamPlaying (hook w3) = true.
Proof. vm_compute. repeat split; reflexivity. Qed.


(** ** The voice bridge *)

Section Bridge.

Import RealtimeGPT.

Variable env : RealtimeGPT.Env.

Lemma handle_text_delta (message delta : JsValue) (w : RealtimeGPT.World) :
  has_type message "response.text.delta" ->
  get_prop message "delta" = Normal delta ->
  handleRealtimeMessage message w
  = (Normal tt,
     set_currentResponseRef (currentResponseRef w ++ to_string delta) w).
Proof.
  unfold has_type. intros Hty Hdelta.
  unfold handleRealtimeMessage, mbind, St_bind, bind, lift.
  rewrite Hty.
  replace (is_str (JStr (lit "response.text.delta")) "response.text.delta")
    with true by reflexivity.
  rewrite Hdelta. reflexivity.
Qed.

Lemma handle_text_done (message : JsValue) (w : RealtimeGPT.World) :
  has_type message "response.text.done" ->
  handleRealtimeMessage message w
  = if negb (is_empty (trim (currentResponseRef w)))
    then (Normal tt,
          set_currentResponseRef []
            (snd (RealtimeGPT.emit (EvTextReceived (JStr (currentResponseRef w)))
                    (setLastResponse (JStr (currentResponseRef w)) w))))
    else (Normal tt, w).
Proof.
  unfold has_type. intros Hty.
  unfold handleRealtimeMessage, mbind, St_bind, bind, lift.
  rewrite Hty.
  replace (is_str (JStr (lit "response.text.done")) "response.text.delta")
    with false by reflexivity.
  replace (is_str (JStr (lit "response.text.done")) "response.text.done")
    with true by reflexivity.
  cbn [get fst snd]. destruct (negb _); reflexivity.
Qed.

(** C10. On a "response.text.done" message the buffer of deltas is handed
    to the caller, kept as the last response and emptied when it is not
    blank; when it is blank nothing at all happens, so it stays, and the
    next delta is appended to it. *)
Theorem text_done_flushes_unless_blank (message : JsValue) (w : RealtimeGPT.World) :
  has_type message "response.text.done" ->
  let buffer := currentResponseRef w in
  let r := handleRealtimeMessage message w in
  (blank buffer = false ->
   fst r = Normal tt
   /\ RealtimeGPT.trace (snd r) = RealtimeGPT.trace w ++ [EvTextReceived (JStr buffer)]
   /\ lastResponse (snd r) = JStr buffer
   /\ currentResponseRef (snd r) = [])
  /\ (blank buffer = true ->
      r = (Normal tt, w)
      /\ forall next delta,
           has_type next "response.text.delta" ->
           get_prop next "delta" = Normal delta ->
           currentResponseRef (snd (handleRealtimeMessage next (snd r)))
           = buffer ++ to_string delta).
Proof.
  intros Hty buffer r. subst r. rewrite (handle_text_done message w Hty).
  fold buffer. destruct (trim buffer) as [|c t] eqn:Ht.
  - apply trim_nil in Ht. split; [congruence|]. intros _.
    split; [reflexivity|]. intros next delta Hnext Hdelta.
    cbn [is_empty negb snd].
    now rewrite (handle_text_delta next delta w Hnext Hdelta).
  - assert (Hb : blank buffer = false).
    { destruct (blank buffer) eqn:E; [|reflexivity].
      apply trim_nil in E. congruence. }
    split; [|congruence]. intros _. cbn. repeat split.
Qed.

(** *** Reconnection *)

Lemma bridge_connect_unfold (cap : bool) (w : RealtimeGPT.World) :
  RealtimeGPT.connect env cap w
  = if cap || socket_open w then (Normal tt, w)
    else
      let w1 := snd (RealtimeGPT.emit EvGetUserMedia w) in
      match getUserMedia env (RealtimeGPT.trace w) with
      | Normal stream =>
          if negb (truthy (apiKey env))
          then RealtimeGPT.emit
                 (EvError (lit "Failed to access microphone or connect to API"))
                 (set_streamRef (Some stream) w1)
          else
            (Normal tt,
             set_wsRef (Some (length (sockets w)))
               (set_sockets
                  (fun l => l ++ [ {| ws_url := realtime_url (apiKey env);
                                      readyState := CONNECTING; sent := [];
                                      ws_isConnected := cap |} ])
                  (set_streamRef (Some stream) w1)))
      | Throw _ =>
          RealtimeGPT.emit
            (EvError (lit "Failed to access microphone or connect to API")) w1
      end.
Proof.
  unfold RealtimeGPT.connect, mbind, St_bind, bind, try_catch, lift. cbn [get].
  destruct (cap || socket_open w); [reflexivity|]. cbn.
  destruct (getUserMedia env (RealtimeGPT.trace w)); [|reflexivity]. cbn.
  destruct (negb (truthy (apiKey env))); reflexivity.
Qed.

Lemma bridge_connect_attempts (cap : bool) (w : RealtimeGPT.World) :
  attempts_connection w (snd (RealtimeGPT.connect env cap w))
  <-> cap = false /\ socket_open w = false.
Proof.
  rewrite bridge_connect_unfold. unfold attempts_connection. split.
  - intros (rest & H). destruct cap; simpl in *.
    + apply (f_equal (@length _)) in H. rewrite length_app in H. simpl in H. lia.
    + destruct (socket_open w); [|auto].
      apply (f_equal (@length _)) in H. rewrite length_app in H. simpl in H. lia.
  - intros (-> & ->). cbn.
    destruct (getUserMedia env (RealtimeGPT.trace w)); cbn.
    + destruct (negb (truthy (apiKey env))); cbn.
      * eexists. rewrite <- app_assoc. reflexivity.
      * exists []. reflexivity.
    + eexists. rewrite <- app_assoc. reflexivity.
Qed.



End Bridge.



Lemma text_done_flushes_unless_blank_witness :
  let w := snd (RealtimeGPT.handleRealtimeMessage (delta_message "  ")
                  bridge0) in
  RealtimeGPT.handleRealtimeMessage done_message w = (Normal tt, w)
  /\ RealtimeGPT.currentResponseRef
       (snd (RealtimeGPT.handleRealtimeMessage (delta_message "Hi")
               (snd (RealtimeGPT.handleRealtimeMessage done_message w))))
     = lit "  Hi".
Proof.
  intro w.
  destruct (proj2 (text_done_flushes_unless_blank done_message w eq_refl) eq_refl)
    as (H1 & H2).
  split; [exact H1|].
  exact (H2 (delta_message "Hi") (JStr (lit "Hi")) eq_refl eq_refl).
Defined.

(** * Further properties *)

#[local] Arguments lit : simpl never.

(** ** Resilient fetch, continued *)

Section FetchWithRetryMore.

Variable env : Env.

(** X1. [fetchWithRetry] stops at the first attempt that is answered ok:
    when the first [k] attempts fail, the next one succeeds and the budget
    allows [k] retries, it makes exactly [k + 1] attempts, waits [k] times,
    returns that answer and changes nothing but the trace. *)
Theorem fetchWithRetry_stops_at_first_success (u : jsstring) (o : RequestInit)
    (k : nat) (N : Z) (w : World) (res : Response) :
  Z.of_nat k <= N ->
  (forall j, (j < k)%nat ->
     fails (server env (issued w ++ repeat (u, o) j) (u, o)) = true) ->
  server env (issued w ++ repeat (u, o) k) (u, o) = Responded res ->
  ok res = true ->
  fetchWithRetry env u o N w
  = (Normal res, set_trace (fun t => t ++ retry_trace (u, o) k) w).
Proof.
  revert N w. induction k as [|k IH]; intros N w HN Hfail Hres Hok.
  - rewrite fetchWithRetry_eq. unfold fetch. simpl in Hres.
    unfold issued in Hres. rewrite app_nil_r in Hres. rewrite Hres. simpl.
    rewrite Hok. reflexivity.
  - rewrite fetchWithRetry_eq. unfold fetch.
    pose proof (Hfail 0%nat ltac:(lia)) as H0. simpl in H0.
    unfold issued in H0. rewrite app_nil_r in H0.
    replace (0 <? N) with true by (symmetry; apply Z.ltb_lt; lia).
    assert (Hnext :
      fetchWithRetry env u o (N - 1)
        (set_trace (fun t => t ++ [EvBackoff])
           (set_trace (fun t => t ++ [EvFetch (u, o)]) w))
      = (Normal res, set_trace (fun t => t ++ retry_trace (u, o) (S k)) w)).
    { rewrite IH.
      - rewrite !set_trace_app. reflexivity.
      - lia.
      - intros j Hj. specialize (Hfail (S j) ltac:(lia)).
        unfold issued in *. simpl. rewrite !requests_app. simpl.
        rewrite app_nil_r, <- app_assoc. exact Hfail.
      - unfold issued in *. simpl. rewrite !requests_app. simpl.
        rewrite app_nil_r, <- app_assoc. exact Hres.
      - exact Hok. }
    destruct (server env (requests (trace w)) (u, o)) as [r0|e]; simpl in H0 |- *.
    + rewrite H0. simpl. exact Hnext.
    + exact Hnext.
Qed.

(** X2. Whatever the server does, [fetchWithRetry] makes at least one and at
    most [max retries 0 + 1] attempts, all at the same request, with one wait
    between two consecutive attempts, and changes nothing but the trace; in
    particular a budget of 0 or less gives exactly one attempt. *)
Theorem fetchWithRetry_attempts_bounded (u : jsstring) (o : RequestInit)
    (N : Z) (w : World) :
  exists j,
    Z.of_nat j <= Z.max N 0
    /\ snd (fetchWithRetry env u o N w)
       = set_trace (fun t => t ++ retry_trace (u, o) j) w
    /\ issued (snd (fetchWithRetry env u o N w)) = issued w ++ repeat (u, o) (S j)
    /\ length (List.filter (fun e => match e with EvBackoff => true | _ => false end)
                 (retry_trace (u, o) j)) = j.
Proof.
  destruct (fetchWithRetry_frame env u o N w) as (j & Hj & Hw).
  exists j. split; [lia|]. split; [exact Hw|]. split.
  - rewrite Hw. unfold issued. simpl.
    now rewrite requests_app, requests_retry_trace.
  - clear. induction j as [|j IH]; simpl; [reflexivity|]. now rewrite IH.
Qed.

End FetchWithRetryMore.

Lemma fetchWithRetry_stops_at_first_success_witness :
  let q := (streams_url cfg0, POST cfg0 streamOptions) in
  fetchWithRetry (env_flaky 2) (fst q) (snd q) 3 world0
  = (Normal {| status := 200; statusText := [];
               json := Some (stream_json true) |},
     set_trace (fun t => t ++ [EvFetch q; EvBackoff; EvFetch q; EvBackoff; EvFetch q])
       world0).
Proof.
  intro q.
  refine (fetchWithRetry_stops_at_first_success (env_flaky 2) (fst q) (snd q)
            2 3 world0 _ ltac:(lia) _ eq_refl eq_refl).
  intros j Hj. destruct j as [|[|j]]; [reflexivity|reflexivity|lia].
Defined.

(** ** The handshake, step by step *)

Section HandshakeSteps.

Variable env : Env.

Lemma alter_last {A} (f : A -> A) (l : list A) (x : A) :
  alter f (length l) (l ++ [x]) = l ++ [f x].
Proof.
  replace (length l) with (length l + 0)%nat by lia. now rewrite alter_app_r.
Qed.

Lemma fetch_agent_info_ok (cfg : DIDApiConfig) (w : World) (res : Response)
    (agentData name : JsValue) :
  server env (issued w) (agent_url cfg, GET cfg) = Responded res ->
  ok res = true -> json res = Some agentData ->
  get_prop agentData "preview_name" = Normal name ->
  fetch_agent_info env cfg w
  = (Normal agentData,
     set_trace (fun t => t ++ [EvFetch (agent_url cfg, GET cfg); EvAgentName name]) w).
Proof.
  intros Hres Hok Hjson Hname.
  unfold fetch_agent_info, mbind, St_bind, bind, fetch, response_json, lift.
  unfold issued in Hres. rewrite Hres. cbn. rewrite Hok. cbn. rewrite Hjson. cbn.
  rewrite Hname. cbn. rewrite !set_trace_app. reflexivity.
Qed.

Lemma create_stream_ok (cfg : DIDApiConfig) (w : World) (res : Response)
    (data : JsValue) :
  server env (issued w) (streams_url cfg, POST cfg streamOptions) = Responded res ->
  ok res = true -> json res = Some data ->
  create_stream env cfg w
  = (Normal data,
     set_trace (fun t => t ++ [EvFetch (streams_url cfg, POST cfg streamOptions)]) w).
Proof.
  intros Hres Hok Hjson.
  unfold create_stream, mbind, St_bind, bind, response_json.
  rewrite fetchWithRetry_eq. unfold fetch. unfold issued in Hres. rewrite Hres.
  cbn. rewrite Hok. cbn. rewrite Hok. cbn. rewrite Hjson. reflexivity.
Qed.

Lemma start_webrtc_ok (l : Listeners) (ice_servers : JsValue) (w : World) :
  constructs env ice_servers = true ->
  start_webrtc env l ice_servers w
  = (Normal (length (pcs w)),
     set_trace (fun t => t ++ [EvPcNew (length (pcs w))])
       (set_pcs (fun pcs => pcs ++
                   [ {| connectionState := CsNew; iceServers := ice_servers;
                        listeners := Some l;
                        dataChannels := [lit "JanusDataChannel"];
                        remoteDescription := None; localDescription := None |} ])
          (set_hook (fun h => with_session (streamId h) (sessionId h) (isFluent h)
                                (Some (length (pcs w))) h) w))).
Proof.
  intros Hctor.
  unfold start_webrtc, new_RTCPeerConnection, setPeerConnection, emit, modify,
    mbind, St_bind, bind, get, mret, St_ret, ret.
  rewrite Hctor.
  unfold set_trace, set_pcs, set_hook, with_session.
  cbn [fst snd pcs hook trace streamVideoRef idleVideoRef tracks intervals timeouts].
  rewrite !alter_last. reflexivity.
Qed.

Lemma negotiate_ok (p : nat) (offer answer : JsValue) (w : World) :
  setRemoteDescription env offer = true ->
  createAnswer env offer = Some answer ->
  setLocalDescription env answer = true ->
  negotiate env p offer w
  = (Normal answer,
     set_pcs (fun pcs => alter (with_localDescription answer) p
                           (alter (with_remoteDescription offer) p pcs)) w).
Proof.
  intros Hremote Hanswer Hlocal.
  unfold negotiate, modify, mbind, St_bind, bind, mret, St_ret, ret.
  rewrite Hremote, Hanswer. cbn beta iota. rewrite Hlocal. reflexivity.
Qed.

Lemma send_answer_outcome (cfg : DIDApiConfig) (id session_id answer : JsValue)
    (w : World) :
  let q := sdp_request cfg id session_id answer in
  send_answer env cfg id session_id answer w
  = (match server env (issued w) q with
     | Responded _ => Normal tt
     | Rejected e => Throw e
     end,
     set_trace (fun t => t ++ [EvFetch q]) w).
Proof.
  intro q. unfold send_answer, fetch, mbind, St_bind, bind, mret, St_ret, ret.
  fold (issued w). fold (sdp_request cfg id session_id answer). fold q.
  destruct (server env (issued w) q); reflexivity.
Qed.

Lemma prep_idle_visuals_fluent (agentData fluent : JsValue) (w : World) :
  truthy fluent = true -> prep_idle_visuals agentData fluent w = (Normal tt, w).
Proof.
  intros H. unfold prep_idle_visuals, mbind, St_bind, bind, get. now rewrite H.
Qed.

Lemma establish_fluent (cfg : DIDApiConfig) (cap : HookState)
    (agentData data id session_id offer ice_servers fluent answer : JsValue)
    (w : World) :
  get_prop data "id" = Normal id ->
  get_prop data "session_id" = Normal session_id ->
  get_prop data "offer" = Normal offer ->
  get_prop data "ice_servers" = Normal ice_servers ->
  get_prop data "fluent" = Normal fluent ->
  truthy fluent = true ->
  constructs env ice_servers = true ->
  setRemoteDescription env offer = true ->
  createAnswer env offer = Some answer ->
  setLocalDescription env answer = true ->
  let p := length (pcs w) in
  let l := {| l_apiConfig := cfg; l_id := id; l_session_id := session_id;
              l_isFluentMode := true; l_cap := cap |} in
  let q := sdp_request cfg id session_id answer in
  establish env cfg cap agentData data w
  = (match server env (issued w) q with
     | Responded _ => Normal tt
     | Rejected e => Throw e
     end,
     set_trace (fun t => t ++ [EvPcNew p; EvFetch q])
       (set_pcs (fun pcs => pcs ++ [negotiated l ice_servers offer answer])
          (set_hook (with_session id session_id true (Some p)) w))).
Proof.
  intros Hid Hsess Hoffer Hice Hfluent Htruthy Hctor Hremote Hanswer Hlocal p l q.
  unfold establish, mbind, St_bind.
  rewrite Hid, Hsess, Hoffer, Hice, Hfluent.
  rewrite (bind_normal _ _ _ id) by reflexivity.
  rewrite (bind_normal _ _ _ session_id) by reflexivity.
  rewrite (bind_normal _ _ _ offer) by reflexivity.
  rewrite (bind_normal _ _ _ ice_servers) by reflexivity.
  rewrite (bind_normal _ _ _ fluent) by reflexivity.
  rewrite (bind_normal _ _ _ tt) by reflexivity.
  rewrite (bind_normal _ _ _ tt) by reflexivity.
  cbv zeta. rewrite Htruthy.
  rewrite (bind_normal _ _ _ tt) by reflexivity.
  rewrite (bind_normal _ _ _ tt)
    by (rewrite prep_idle_visuals_fluent by exact Htruthy; reflexivity).
  rewrite prep_idle_visuals_fluent by exact Htruthy.
  unfold bind. rewrite start_webrtc_ok by exact Hctor.
  rewrite (negotiate_ok _ offer answer _ Hremote Hanswer Hlocal).
  rewrite send_answer_outcome. fold q.
  match goal with |- (match server env ?i q with _ => _ end, _) = _ =>
    replace i with (issued w)
      by (unfold issued; cbn [trace set_pcs set_trace snd lift setStreamId
            setSessionId setIsFluent modify set_hook];
          rewrite requests_app; cbn [requests]; now rewrite app_nil_r)
  end.
  f_equal.
  lazy [set_trace set_pcs set_hook with_session negotiated lift
        setStreamId setSessionId setIsFluent modify
        trace pcs hook streamVideoRef idleVideoRef tracks intervals timeouts
        isStreamReady isStreamPlaying isFluent peerConnection
        streamId sessionId apiConfig fst snd].
  rewrite !alter_last. fold p.
  unfold with_localDescription, with_remoteDescription.
  cbn [connectionState iceServers listeners dataChannels remoteDescription
       localDescription].
  rewrite <- app_assoc. reflexivity.
Qed.

Lemma issued_set_trace_fetch (w : World) (evs : list Event) :
  issued (set_trace (fun t => t ++ evs) w) = issued w ++ requests evs.
Proof. unfold issued. simpl. apply requests_app. Qed.

Lemma torn_down_issued (cap : HookState) (w : World) :
  issued (torn_down cap w) = issued w.
Proof. apply torn_down_requests. Qed.

(** X3. [connect] never throws: whatever the server and the browser do, the
    promise it returns resolves. And while the configuration is not loaded
    it does nothing at all: no status is reported and no request issued. *)
Theorem connect_never_throws (cap : HookState) (w : World) :
  fst (connect env cap w) = Normal tt
  /\ (apiConfig cap = None -> connect env cap w = (Normal tt, w)).
Proof.
  split.
  - destruct (apiConfig cap) as [cfg|] eqn:Hcfg.
    2: { unfold connect. now rewrite Hcfg. }
    destruct (reports_connected w (peerConnection cap)) eqn:Hconn.
    + unfold connect, mbind, St_bind. rewrite Hcfg.
      rewrite (bind_normal _ _ _ tt) by reflexivity.
      rewrite (bind_normal _ _ _ (snd (emit (EvStatus connecting_status) w)))
        by reflexivity.
      replace (reports_connected _ _) with true. reflexivity.
    + rewrite (connect_unfold env cap cfg w Hcfg Hconn). unfold try_catch.
      destruct (handshake env cfg cap (torn_down cap w)) as [[[]|e] w1];
        reflexivity.
  - intros Hcfg. unfold connect. now rewrite Hcfg.
Qed.

(** X4. The handshake that goes through, for a fluent stream. The agent
    info and the stream creation are answered ok at the first attempt, the
    browser accepts the ICE servers, the offer and the answer. Then [connect]
    issues exactly three requests (agent info, stream creation, SDP answer),
    stores the stream and session identifiers and the fluent flag, and leaves
    one new peer connection, held by the hook, with its listeners, the data
    channel "JanusDataChannel" and both descriptions. The answer to the SDP
    POST is not inspected: any response, of any status, ends the call without
    a failure report; only a rejected fetch is reported as "Connection
    failed", and then the new peer connection stays open and held. *)
Theorem connect_establishes_session (cap : HookState) (cfg : DIDApiConfig)
    (w : World) (resA resS : Response)
    (agentData name data id session_id offer ice_servers fluent answer : JsValue) :
  apiConfig cap = Some cfg ->
  reports_connected w (peerConnection cap) = false ->
  let agent := (agent_url cfg, GET cfg) in
  let streams := (streams_url cfg, POST cfg streamOptions) in
  let sdp := sdp_request cfg id session_id answer in
  server env (issued w) agent = Responded resA ->
  ok resA = true -> json resA = Some agentData ->
  get_prop agentData "preview_name" = Normal name ->
  server env (issued w ++ [agent]) streams = Responded resS ->
  ok resS = true -> json resS = Some data ->
  get_prop data "id" = Normal id ->
  get_prop data "session_id" = Normal session_id ->
  get_prop data "offer" = Normal offer ->
  get_prop data "ice_servers" = Normal ice_servers ->
  get_prop data "fluent" = Normal fluent ->
  truthy fluent = true ->
  constructs env ice_servers = true ->
  setRemoteDescription env offer = true ->
  createAnswer env offer = Some answer ->
  setLocalDescription env answer = true ->
  let w0 := torn_down cap w in
  let p := length (pcs w) in
  let l := {| l_apiConfig := cfg; l_id := id; l_session_id := session_id;
              l_isFluentMode := true; l_cap := cap |} in
  connect env cap w
  = (Normal tt,
     set_trace
       (fun t => t ++ [ EvFetch agent; EvAgentName name; EvFetch streams;
                        EvPcNew p; EvFetch sdp ]
                   ++ match server env (issued w ++ [agent; streams]) sdp with
                      | Responded _ => []
                      | Rejected _ => failure_report
                      end)
       (set_pcs (fun pcs => pcs ++ [negotiated l ice_servers offer answer])
          (set_hook (with_session id session_id true (Some p)) w0))).
Proof.
  intros Hcfg Hconn agent streams sdp HresA HokA HjsonA Hname HresS HokS HjsonS
    Hid Hsess Hoffer Hice Hfluent Htruthy Hctor Hremote Hanswer Hlocal w0 p l.
  rewrite (connect_unfold env cap cfg w Hcfg Hconn). fold w0.
  assert (Hlen : length (pcs w0) = p).
  { subst w0 p. rewrite torn_down_pcs.
    destruct (peerConnection cap); [apply length_alter|reflexivity]. }
  assert (Hiss : issued w0 = issued w) by apply torn_down_issued.
  clearbody w0 p.
  unfold try_catch, handshake, mbind, St_bind, bind.
  rewrite (fetch_agent_info_ok cfg w0 resA agentData name)
    by (rewrite ?Hiss; assumption).
  rewrite (create_stream_ok cfg _ resS data)
    by (rewrite ?issued_set_trace_fetch, ?Hiss; assumption).
  rewrite (establish_fluent cfg cap agentData data id session_id offer
             ice_servers fluent answer) by assumption.
  rewrite !issued_set_trace_fetch, Hiss.
  cbn [requests app]. rewrite <- app_assoc. cbn [app].
  fold agent streams sdp.
  change (pcs (set_trace (fun t => t ++ [EvFetch streams])
                 (set_trace (fun t => t ++ [EvFetch agent; EvAgentName name]) w0)))
    with (pcs w0).
  rewrite Hlen.
  repeat match goal with
         | |- context [server env ?h ?q] =>
             progress change (server env h q)
               with (server env (issued w ++ [agent; streams]) sdp)
         end.
  destruct (server env (issued w ++ [agent; streams]) sdp);
    lazy [connection_failed failure_report mbind St_bind bind emit modify
          set_trace set_pcs set_hook trace pcs hook streamVideoRef
          idleVideoRef tracks intervals timeouts fst snd];
    rewrite <- ?app_assoc, ?app_nil_r; cbn [app]; reflexivity.
Qed.

Lemma create_stream_gives_up (cfg : DIDApiConfig) (w : World) :
  permanently_failing env (streams_url cfg, POST cfg streamOptions) ->
  exists e,
    create_stream env cfg w
    = (Throw e,
       set_trace (fun t => t ++ retry_trace (streams_url cfg, POST cfg streamOptions) 3)
         w).
Proof.
  intros Hfail. unfold create_stream, mbind, St_bind, bind.
  change 3 with (Z.of_nat 3).
  rewrite (fetchWithRetry_failing env _ _ 3 Hfail).
  match goal with |- context [completion_of (server env ?h ?q)] =>
    pose proof (Hfail h) as Hf; destruct (server env h q) as [res|e]
  end; simpl in Hf |- *.
  - rewrite Hf. eexists. reflexivity.
  - eexists. reflexivity.
Qed.

(** X5. The stream creation is retried inside [connect]: when the agent
    info is answered ok and every attempt at the stream creation fails,
    [connect] issues the agent-info request and then exactly four
    stream-creation requests with three waits, reports "Connection
    failed", and leaves the hook's state and the peer connections as the
    cleanup left them: no identifier is stored, nothing is created. *)
Theorem connect_gives_up_on_stream_creation (cap : HookState)
    (cfg : DIDApiConfig) (w : World) (resA : Response) (agentData name : JsValue) :
  apiConfig cap = Some cfg ->
  reports_connected w (peerConnection cap) = false ->
  let agent := (agent_url cfg, GET cfg) in
  let streams := (streams_url cfg, POST cfg streamOptions) in
  server env (issued w) agent = Responded resA ->
  ok resA = true -> json resA = Some agentData ->
  get_prop agentData "preview_name" = Normal name ->
  permanently_failing env streams ->
  connect env cap w
  = (Normal tt,
     set_trace (fun t => t ++ [EvFetch agent; EvAgentName name]
                           ++ retry_trace streams 3 ++ failure_report)
       (torn_down cap w)).
Proof.
  intros Hcfg Hconn agent streams HresA HokA HjsonA Hname Hfail.
  rewrite (connect_unfold env cap cfg w Hcfg Hconn).
  assert (Hiss : issued (torn_down cap w) = issued w) by apply torn_down_issued.
  generalize dependent (torn_down cap w). intros w0 Hiss.
  unfold try_catch, handshake, mbind, St_bind, bind.
  rewrite (fetch_agent_info_ok cfg w0 resA agentData name)
    by (rewrite ?Hiss; assumption).
  match goal with |- context [create_stream env cfg ?w1] =>
    destruct (create_stream_gives_up cfg w1 Hfail) as (e & ->)
  end.
  unfold connection_failed, failure_report, mbind, St_bind, bind, emit, modify,
    set_trace.
  cbn [trace pcs hook streamVideoRef idleVideoRef tracks intervals timeouts
       fst snd].
  rewrite <- !app_assoc. reflexivity.
Qed.

End HandshakeSteps.

Lemma connect_establishes_session_witness :
  let env := env_fluent true in
  let l := {| l_apiConfig := cfg0; l_id := JStr (lit "s1");
              l_session_id := JStr (lit "sess1");
              l_isFluentMode := true; l_cap := hook0 |} in
  let answer := JObj [ (lit "type", JStr (lit "answer")) ] in
  let sdp := sdp_request cfg0 (JStr (lit "s1")) (JStr (lit "sess1")) answer in
  connect env hook0 world1
  = (Normal tt,
     set_trace
       (fun t => t ++ [ EvFetch (agent_url cfg0, GET cfg0);
                        EvAgentName (JStr (lit "Koobide"));
                        EvFetch (streams_url cfg0, POST cfg0 streamOptions);
                        EvPcNew 0; EvFetch sdp ])
       (set_pcs (fun pcs => pcs ++ [ negotiated l (JArr [])
                                       (JObj [ (lit "type", JStr (lit "offer")) ])
                                       answer ])
          (set_hook (with_session (JStr (lit "s1")) (JStr (lit "sess1")) true
                       (Some 0%nat))
             (torn_down hook0 world1)))).
Proof.
  intros env l answer sdp.
  exact (connect_establishes_session env hook0 cfg0 world1
           {| status := 200; statusText := []; json := Some agent_json |}
           {| status := 200; statusText := []; json := Some (stream_json true) |}
           agent_json (JStr (lit "Koobide")) (stream_json true)
           (JStr (lit "s1")) (JStr (lit "sess1"))
           (JObj [ (lit "type", JStr (lit "offer")) ]) (JArr []) (JBool true)
           answer
           eq_refl eq_refl eq_refl eq_refl eq_refl eq_refl eq_refl eq_refl
           eq_refl eq_refl eq_refl eq_refl eq_refl eq_refl eq_refl eq_refl
           eq_refl eq_refl eq_refl).
Defined.

Lemma connect_gives_up_on_stream_creation_witness :
  let env := env_of (respond 200 (Some agent_json)) (respond 503 None)
               (respond 200 None) in
  issued (snd (connect env hook0 world0))
  = (agent_url cfg0, GET cfg0) :: repeat (streams_url cfg0, POST cfg0 streamOptions) 4.
Proof.
  intro env.
  exact (f_equal (fun r => issued (snd r))
           (connect_gives_up_on_stream_creation env hook0 cfg0 world0
              {| status := 200; statusText := []; json := Some agent_json |}
              agent_json (JStr (lit "Koobide"))
              eq_refl eq_refl eq_refl eq_refl eq_refl eq_refl (fun _ => eq_refl))).
Defined.

#[local] Arguments opacity_of : simpl never.

(** ** Speak, continued *)

Lemma bind_throw {S A B} (m : St S A) (k : A -> St S B) (w : S) (e : JsError) :
  fst (m w) = Throw e -> bind m k w = (Throw e, snd (m w)).
Proof. unfold bind. destruct (m w) as [c w']. simpl. intros ->. reflexivity. Qed.

Section SpeakMore.
Variable env : Env.

(** X6. [speak] does not look at the status of the answer. Against a
    stream endpoint whose every attempt fails, a [speak] that passes its
    guards issues four requests with three waits; it then ends normally when
    the last attempt was answered, whatever the status, and throws only the
    error with which the last attempt rejected. Nothing else changes. *)
Theorem speak_fails_only_on_rejection (cap : HookState) (message : jsstring)
    (w : World) (p : nat) (cfg : DIDApiConfig) :
  peerConnection cap = Some p -> isStreamReady cap = true ->
  apiConfig cap = Some cfg -> truthy (streamId cap) = true ->
  truthy (sessionId cap) = true -> blank message = false ->
  let q := (stream_url cfg (streamId cap),
            POST cfg (speak_body (trim message) (sessionId cap))) in
  permanently_failing env q ->
  speak env cap message w
  = (match server env (issued w ++ repeat q 3) q with
     | Responded _ => Normal tt
     | Rejected e => Throw e
     end,
     set_trace (fun t => t ++ retry_trace q 3) w).
Proof.
  intros Hp Hr Hc Hs Hss Hb q Hfail. unfold speak.
  rewrite Hp, Hr, Hc, Hs, Hss.
  destruct (trim message) as [|c t] eqn:Ht.
  { apply trim_nil in Ht. congruence. }
  cbn [is_empty]. unfold mbind, St_bind, bind.
  change (fetchWithRetry env ?u ?o 3) with (fetchWithRetry env u o (Z.of_nat 3)).
  subst q. unfold speak_body in *. rewrite <- Ht in *.
  rewrite (fetchWithRetry_failing env _ _ 3 Hfail).
  unfold issued.
  destruct (server env _ _); reflexivity.
Qed.

End SpeakMore.

(** ** Cleanup, continued *)

Lemma stopStream_eq (w : World) : stopStream w = (Normal tt, stopped w).
Proof.
  unfold stopStream, stopped, mbind, St_bind, bind. cbn [get fst snd].
  destruct (streamVideoRef w) as [v|]; [|reflexivity].
  destruct (srcObject v) as [st|]; [|reflexivity].
  rewrite forEach_stop_track. reflexivity.
Qed.

Lemma stopped_idem (w : World) : stopped (stopped w) = stopped w.
Proof.
  unfold stopped.
  destruct (streamVideoRef w) as [v|] eqn:Hv; [|now rewrite Hv].
  destruct (srcObject v) as [st|] eqn:Hs; [|now rewrite Hv, Hs].
  cbn. rewrite Hv. reflexivity.
Qed.

(** X7. [stopStream] is idempotent: a second call changes nothing. After
    a call the live surface, if mounted, holds no stream, and every track of
    the stream it held is ended; the hook's state, the peer connections, the
    idle surface and the requests issued are untouched. *)
Theorem stopStream_idempotent (w : World) :
  let w' := snd (stopStream w) in
  stopStream w' = (Normal tt, w')
  /\ (forall v, streamVideoRef w' = Some v -> srcObject v = None)
  /\ (forall v stream t tr,
        streamVideoRef w = Some v -> srcObject v = Some stream ->
        In t (getTracks stream) -> tracks w' !! t = Some tr -> ended tr = true)
  /\ hook w' = hook w /\ pcs w' = pcs w /\ idleVideoRef w' = idleVideoRef w
  /\ issued w' = issued w.
Proof.
  intros w'. subst w'.
  destruct (stopStream_frame w) as (Hh & Hp & Hr).
  rewrite !stopStream_eq in *. cbn [snd] in *. rewrite stopped_idem.
  split; [reflexivity|]. split; [|split; [|split; [exact Hh|split; [exact Hp|split; [|exact Hr]]]]].
  - intros v'. unfold stopped.
    destruct (streamVideoRef w) as [v|] eqn:Hv; [|now rewrite Hv].
    destruct (srcObject v) as [st|] eqn:Hs.
    + cbn. rewrite Hv. now intros [= <-].
    + rewrite Hv. now intros [= <-].
  - intros v stream t tr Hv Hs Hin. unfold stopped. rewrite Hv, Hs. cbn.
    apply stop_all_ended. now left.
  - unfold stopped. destruct (streamVideoRef w) as [v|]; [|reflexivity].
    destruct (srcObject v); reflexivity.
Qed.

(** ** The connection-state listener *)

(** X8. The connection-state listener calls the [closeConnection] of the
    render that called [connect]. When that render held no peer connection,
    a connection that fails (or is closed by the browser) only has its
    stream stopped: the hook's state is unchanged, so the hook still holds
    the failed connection and still counts the stream as ready, and the
    connection itself is not closed. *)
Theorem failed_connection_stays_held (p : nat) (pc : RTCPeerConnection)
    (l : Listeners) (st : ConnState) (w : World) :
  pcs w !! p = Some pc -> listeners pc = Some l ->
  peerConnection (l_cap l) = None ->
  st = CsFailed \/ st = CsClosed ->
  let w' := snd (connectionstatechange p st w) in
  connectionstatechange p st w
  = (Normal tt, stopped (set_pcs (alter (with_connectionState st) p) w))
  /\ hook w' = hook w
  /\ conn_states w' !! p = Some st
  /\ trace w' = trace (stopped w).
Proof.
  intros Hpc Hl Hcap Hst w'.
  assert (E : connectionstatechange p st w
              = (Normal tt, stopped (set_pcs (alter (with_connectionState st) p) w))).
  { unfold connectionstatechange, with_listeners_of, mbind, St_bind, bind, modify,
      get. cbn [fst snd pcs set_pcs].
    rewrite list_lookup_alter_eq, Hpc. cbn [fmap option_fmap option_map].
    unfold with_connectionState at 1. rewrite Hl.
    unfold on_connectionstatechange, mbind, St_bind, bind, get.
    cbn [fst snd pcs set_pcs].
    rewrite list_lookup_alter_eq, Hpc.
    cbn [fmap option_fmap option_map from_option with_connectionState
         connectionState].
    unfold closeConnection. rewrite Hcap.
    destruct Hst as [-> | ->];
      repeat (rewrite bool_decide_eq_false_2 by discriminate);
      rewrite bool_decide_eq_true_2 by reflexivity;
      cbn [orb]; unfold mret, St_ret, ret; rewrite stopStream_eq; reflexivity. }
  subst w'. rewrite E. cbn [snd]. split; [reflexivity|].
  unfold stopped. cbn [streamVideoRef set_pcs].
  assert (Hc : conn_states (set_pcs (alter (with_connectionState st) p) w) !! p
               = Some st).
  { unfold conn_states. cbn [pcs set_pcs]. rewrite list_lookup_fmap.
    rewrite list_lookup_alter_eq, Hpc. reflexivity. }
  destruct (streamVideoRef w) as [v|]; [|auto].
  destruct (srcObject v); auto.
Qed.

(** ** Sampling, continued *)

(** X9. Once the peer connection of an interval is closed, the next
    firing clears the interval and does nothing else, and no later firing,
    whatever it samples, changes anything. *)
Theorem closed_connection_stops_sampling (i : nat) (m : Monitor) (s : Sample)
    (w : World) :
  intervals w !! i = Some m -> cleared m = false ->
  from_option connectionState CsClosed (pcs w !! m_pc m) = CsClosed ->
  let w1 := snd (interval_tick i s w) in
  w1 = set_intervals (alter clearInterval i) w
  /\ forall samples, forEach (interval_tick i) samples w1 = (Normal tt, w1).
Proof.
  intros Hm Hc Hclosed w1. subst w1.
  rewrite (interval_tick_unfold i s w m Hm), Hc, Hclosed.
  rewrite bool_decide_eq_true_2 by reflexivity. cbn [snd].
  split; [reflexivity|].
  assert (Hm1 : intervals (set_intervals (alter clearInterval i) w) !! i
                = Some (clearInterval m)).
  { cbn [intervals set_intervals]. now rewrite list_lookup_alter_eq, Hm. }
  revert Hm1. generalize (set_intervals (alter clearInterval i) w). intros w1 Hm1.
  induction samples as [|s' ss IH]; [reflexivity|].
  rewrite forEach_cons by apply interval_tick_normal.
  rewrite (interval_tick_unfold i s' w1 _ Hm1). exact IH.
Qed.

Lemma updateVideoDisplay_talk (cap : HookState) (stream : MediaStream)
    (isPlaying : bool) (w : World) (sv iv : VideoElement) :
  isFluent cap = false ->
  streamVideoRef w = Some sv -> idleVideoRef w = Some iv ->
  let shown := isPlaying && isStreamReady cap in
  let w' := snd (updateVideoDisplay cap (Some stream) isPlaying w) in
  idleVideoRef w' = Some (with_opacity (opacity_of (negb shown)) iv)
  /\ streamVideoRef w'
     = Some (if isPlaying
             then with_paused false
                    (with_muted (negb (isStreamReady cap))
                       (with_srcObject (Some stream)
                          (with_opacity (opacity_of shown) sv)))
             else with_opacity (opacity_of shown) sv).
Proof.
  intros Hf Hsv Hiv shown w'. subst w'.
  unfold updateVideoDisplay, mbind, St_bind, bind, get, modify.
  cbn [fst snd]. rewrite Hsv, Hiv, Hf. cbn [negb]. fold shown.
  cbn [fst snd set_idleVideo set_streamVideo streamVideoRef idleVideoRef].
  unfold mret, St_ret, ret, play, mbind, St_bind, bind, modify, emit.
  destruct isPlaying; simpl; rewrite ?Hsv, ?Hiv; simpl; [|split; reflexivity].
  destruct (paused sv) eqn:Hp; simpl; rewrite ?Hsv, ?Hiv; simpl;
    (split; [reflexivity|]); [reflexivity|].
  unfold with_paused, with_muted, with_srcObject, with_opacity.
  cbn [srcObject muted paused opacity src backgroundImage]. now rewrite Hp.
Qed.

(** X10. In talk (non-fluent) mode a change of the playing state is shown
    by [updateVideoDisplay] with the readiness that the render calling
    [connect] had, not the current one: the live surface is opaque exactly
    when the stream plays and that render had it ready, and the idle surface
    has the complementary opacity. When that render did not have the stream
    ready, as the first one does not, the live surface stays transparent and
    is muted while playing. *)
Theorem talk_mode_display_uses_captured_readiness (i : nat) (m : Monitor)
    (r : Report) (w : World) (sv iv : VideoElement) :
  intervals w !! i = Some m ->
  m_isFluentMode m = false -> isFluent (m_cap m) = false ->
  streamVideoRef w = Some sv -> idleVideoRef w = Some iv ->
  inbound_video r = true ->
  let nowPlaying := lastBytes m <? bytesReceived r in
  eqb nowPlaying (lastPlayingState m) = false ->
  let w' := snd (on_report i r w) in
  let shown := nowPlaying && isStreamReady (m_cap m) in
  isStreamPlaying (hook w') = nowPlaying
  /\ opacity <$> streamVideoRef w' = Some (opacity_of shown)
  /\ opacity <$> idleVideoRef w' = Some (opacity_of (negb shown))
  /\ (isStreamReady (m_cap m) = false ->
      opacity <$> streamVideoRef w' = Some (lit "0")
      /\ opacity <$> idleVideoRef w' = Some (lit "1")
      /\ (nowPlaying = true -> muted <$> streamVideoRef w' = Some true)).
Proof.
  intros Hm Hmode Hfl Hsv Hiv Hr nowPlaying Hchg w' shown.
  destruct (on_report_spec i r w m Hm) as (_ & _ & _ & _ & Hin).
  destruct (Hin Hr) as (_ & Hplay & _ & Htalk). clear Hin.
  fold nowPlaying in Hplay, Htalk. rewrite Hchg in Hplay.
  destruct (Htalk Hmode Hchg) as (Hs & Hi' & _). clear Htalk.
  fold w' in Hplay, Hs, Hi'.
  destruct (updateVideoDisplay_talk (m_cap m) (m_stream m) nowPlaying
              (snd (setIsStreamPlaying nowPlaying w)) sv iv Hfl Hsv Hiv)
    as (Hidle & Hstream).
  fold shown in Hidle, Hstream.
  rewrite Hs, Hi', Hidle, Hstream.
  split; [exact Hplay|].
  assert (Hop : opacity (if nowPlaying
                  then with_paused false
                         (with_muted (negb (isStreamReady (m_cap m)))
                            (with_srcObject (Some (m_stream m))
                               (with_opacity (opacity_of shown) sv)))
                  else with_opacity (opacity_of shown) sv) = opacity_of shown)
    by (destruct nowPlaying; reflexivity).
  cbn [fmap option_fmap option_map]. rewrite Hop.
  split; [reflexivity|]. split; [reflexivity|].
  intros Hready. subst shown. rewrite Hready, andb_false_r.
  split; [reflexivity|]. split; [reflexivity|].
  intros ->. reflexivity.
Qed.

(** ** The track listener, continued *)

Lemma getVideoTracks_audio (w : World) (stream : MediaStream) :
  (forall t tr, In t (getTracks stream) -> tracks w !! t = Some tr ->
                kind tr = Audio) ->
  getVideoTracks w stream = [].
Proof.
  unfold getVideoTracks. induction (getTracks stream) as [|t ts IH]; intros H.
  - reflexivity.
  - cbn [List.filter]. destruct (tracks w !! t) as [[[] e]|] eqn:Ht.
    + specialize (H t _ (or_introl eq_refl) Ht). discriminate.
    + apply IH. intros t' tr Hin. apply H. now right.
    + apply IH. intros t' tr Hin. apply H. now right.
Qed.

(** X11. A track event whose first stream carries no video track, or that
    arrives while the live surface is not mounted, changes nothing: no
    stream is attached and no sampling is registered. *)
Theorem track_without_video_changes_nothing (p : nat) (stream : MediaStream)
    (rest : list MediaStream) (w : World) :
  streamVideoRef w = None
  \/ (forall t tr, In t (getTracks stream) -> tracks w !! t = Some tr ->
                   kind tr = Audio) ->
  track p (stream :: rest) w = (Normal tt, w).
Proof.
  intros H. unfold track, with_listeners_of, mbind, St_bind, bind, get.
  cbn [fst snd].
  destruct (pcs w !! p) as [[? ? [l|] ? ? ?]|]; try reflexivity.
  unfold on_track, mbind, St_bind, bind, get. cbn [fst snd].
  destruct H as [H|H].
  - rewrite H. destruct (getVideoTracks w stream); reflexivity.
  - now rewrite (getVideoTracks_audio w stream H).
Qed.

(** ** The handshake of a talk avatar *)

Section TalkHandshake.

Variable env : Env.

Lemma prep_idle_visuals_no_presenter (agentData fluent presenter : JsValue)
    (w : World) (sv iv : VideoElement) :
  truthy fluent = false ->
  streamVideoRef w = Some sv -> idleVideoRef w = Some iv ->
  get_prop agentData "presenter" = Normal presenter ->
  presenter = JUndefined \/ presenter = JNull ->
  prep_idle_visuals agentData fluent w = (Throw TypeError, w).
Proof.
  intros Hf Hsv Hiv Hp Hnone.
  unfold prep_idle_visuals, mbind, St_bind, bind, get, lift. cbn [fst snd].
  rewrite Hf, Hsv, Hiv, Hp. cbn [negb].
  destruct (backgroundImage sv); destruct Hnone as [-> | ->]; reflexivity.
Qed.

Lemma torn_down_surfaces (cap : HookState) (w : World) :
  idleVideoRef (torn_down cap w) = idleVideoRef w
  /\ (streamVideoRef w = None -> streamVideoRef (torn_down cap w) = None)
  /\ (forall sv, streamVideoRef w = Some sv ->
        exists sv', streamVideoRef (torn_down cap w) = Some sv'
                    /\ backgroundImage sv' = backgroundImage sv).
Proof.
  unfold torn_down.
  assert (H : forall w1, idleVideoRef (snd (closeConnection cap w1)) = idleVideoRef w1
                      /\ streamVideoRef (snd (closeConnection cap w1))
                         = streamVideoRef w1).
  { intros w1. unfold closeConnection. destruct (peerConnection cap); auto. }
  destruct (H (snd (stopStream (snd (emit (EvStatus connecting_status) w)))))
    as (-> & ->).
  rewrite stopStream_eq. cbn [snd]. unfold stopped, emit, modify.
  cbn [snd streamVideoRef idleVideoRef set_trace].
  destruct (streamVideoRef w) as [v|] eqn:Hv.
  - destruct (srcObject v); cbn; rewrite ?Hv; cbn;
      (split; [reflexivity|]); (split; [discriminate|]);
      intros sv [= <-]; eexists; split; reflexivity.
  - cbn. rewrite Hv. repeat split; auto. discriminate.
Qed.

Lemma establish_no_presenter (cfg : DIDApiConfig) (cap : HookState)
    (agentData data id session_id offer ice_servers fluent presenter : JsValue)
    (w : World) (sv iv : VideoElement) :
  get_prop data "id" = Normal id ->
  get_prop data "session_id" = Normal session_id ->
  get_prop data "offer" = Normal offer ->
  get_prop data "ice_servers" = Normal ice_servers ->
  get_prop data "fluent" = Normal fluent ->
  truthy fluent = false ->
  streamVideoRef w = Some sv -> idleVideoRef w = Some iv ->
  get_prop agentData "presenter" = Normal presenter ->
  presenter = JUndefined \/ presenter = JNull ->
  establish env cfg cap agentData data w
  = (Throw TypeError,
     set_hook (fun h => with_session id session_id false (peerConnection h) h) w).
Proof.
  intros Hid Hsess Hoffer Hice Hfluent Htruthy Hsv Hiv Hpres Hnone.
  unfold establish, mbind, St_bind.
  rewrite Hid, Hsess, Hoffer, Hice, Hfluent.
  rewrite (bind_normal _ _ _ id) by reflexivity.
  rewrite (bind_normal _ _ _ session_id) by reflexivity.
  rewrite (bind_normal _ _ _ offer) by reflexivity.
  rewrite (bind_normal _ _ _ ice_servers) by reflexivity.
  rewrite (bind_normal _ _ _ fluent) by reflexivity.
  rewrite (bind_normal _ _ _ tt) by reflexivity.
  rewrite (bind_normal _ _ _ tt) by reflexivity.
  cbv zeta. rewrite Htruthy.
  rewrite (bind_normal _ _ _ tt) by reflexivity.
  rewrite (bind_throw _ _ _ TypeError)
    by (rewrite (prep_idle_visuals_no_presenter agentData fluent presenter _ sv iv)
          by assumption; reflexivity).
  rewrite (prep_idle_visuals_no_presenter agentData fluent presenter _ sv iv)
    by assumption.
  reflexivity.
Qed.

(** X12. A talk (non-fluent) stream needs the agent's presenter. With
    both surfaces mounted, when the agent info carries no presenter the
    handshake stops after the stream creation: [connect] has stored the
    stream and session identifiers and the fluent flag, has issued the
    agent-info and stream-creation requests only, creates no peer
    connection, and reports "Connection failed". *)
Theorem connect_talk_avatar_needs_presenter (cap : HookState)
    (cfg : DIDApiConfig) (w : World) (resA resS : Response)
    (agentData name data id session_id offer ice_servers fluent presenter : JsValue)
    (sv iv : VideoElement) :
  apiConfig cap = Some cfg ->
  reports_connected w (peerConnection cap) = false ->
  let agent := (agent_url cfg, GET cfg) in
  let streams := (streams_url cfg, POST cfg streamOptions) in
  server env (issued w) agent = Responded resA ->
  ok resA = true -> json resA = Some agentData ->
  get_prop agentData "preview_name" = Normal name ->
  server env (issued w ++ [agent]) streams = Responded resS ->
  ok resS = true -> json resS = Some data ->
  get_prop data "id" = Normal id ->
  get_prop data "session_id" = Normal session_id ->
  get_prop data "offer" = Normal offer ->
  get_prop data "ice_servers" = Normal ice_servers ->
  get_prop data "fluent" = Normal fluent ->
  truthy fluent = false ->
  streamVideoRef w = Some sv -> idleVideoRef w = Some iv ->
  get_prop agentData "presenter" = Normal presenter ->
  presenter = JUndefined \/ presenter = JNull ->
  connect env cap w
  = (Normal tt,
     set_trace (fun t => t ++ [EvFetch agent; EvAgentName name; EvFetch streams]
                           ++ failure_report)
       (set_hook (fun h => with_session id session_id false (peerConnection h) h)
          (torn_down cap w))).
Proof.
  intros Hcfg Hconn agent streams HresA HokA HjsonA Hname HresS HokS HjsonS
    Hid Hsess Hoffer Hice Hfluent Htruthy Hsv Hiv Hpres Hnone.
  rewrite (connect_unfold env cap cfg w Hcfg Hconn).
  assert (Hiss : issued (torn_down cap w) = issued w) by apply torn_down_issued.
  destruct (torn_down_surfaces cap w) as (Hidle & _ & Hlive).
  destruct (Hlive sv Hsv) as (sv' & Hsv' & _). clear Hlive.
  rewrite Hiv in Hidle.
  revert Hiss Hidle Hsv'. generalize (torn_down cap w). intros w0 Hiss Hidle Hsv'.
  unfold try_catch, handshake, mbind, St_bind, bind.
  rewrite (fetch_agent_info_ok env cfg w0 resA agentData name)
    by (rewrite ?Hiss; assumption).
  rewrite (create_stream_ok env cfg _ resS data)
    by (rewrite ?issued_set_trace_fetch, ?Hiss; assumption).
  rewrite (establish_no_presenter cfg cap agentData data id session_id offer
             ice_servers fluent presenter _ sv' iv) by assumption.
  unfold connection_failed, failure_report, mbind, St_bind, bind, emit, modify,
    set_trace, set_hook, with_session.
  cbn [trace pcs hook streamVideoRef idleVideoRef tracks intervals timeouts
       isStreamReady isStreamPlaying isFluent peerConnection
       streamId sessionId apiConfig fst snd].
  rewrite <- !app_assoc. reflexivity.
Qed.

End TalkHandshake.

Lemma speak_fails_only_on_rejection_witness :
  let env := env_of (respond 200 (Some agent_json))
               (respond 200 (Some (stream_json true))) (respond 500 None) in
  let q := (stream_url cfg0 (JStr (lit "s1")),
            POST cfg0 (speak_body (trim (lit " hello ")) (JStr (lit "sess1")))) in
  speak env (hook1 true) (lit " hello ") (world2 true)
  = (Normal tt, set_trace (fun t => t ++ retry_trace q 3) (world2 true)).
Proof.
  intros env q.
  exact (speak_fails_only_on_rejection env (hook1 true) (lit " hello ")
           (world2 true) 0%nat cfg0 eq_refl eq_refl eq_refl eq_refl eq_refl
           eq_refl (fun _ => eq_refl)).
Defined.

Lemma failed_connection_stays_held_witness :
  let w' := snd (connectionstatechange 0 CsFailed (world2 true)) in
  hook w' = hook1 true /\ conn_states w' !! 0%nat = Some CsFailed.
Proof.
  intros w'.
  destruct (failed_connection_stays_held 0
              (negotiated (listeners0 true) (JArr []) JNull JNull)
              (listeners0 true) CsFailed (world2 true)
              eq_refl eq_refl eq_refl (or_introl eq_refl))
    as (_ & Hh & Hc & _).
  split; [exact Hh|exact Hc].
Defined.

Lemma closed_connection_stops_sampling_witness :
  let w := snd (close 0 (snd (on_track 0 (listeners0 false) [stream0]
                                (world2 false)))) in
  let w1 := snd (interval_tick 0 (Stats [video_report 500]) w) in
  forEach (interval_tick 0) [Stats [video_report 900]; StatsRejected] w1
  = (Normal tt, w1).
Proof.
  intros w w1.
  exact (proj2 (closed_connection_stops_sampling 0
                  (new_monitor 0 (listeners0 false) 0 stream0)
                  (Stats [video_report 500]) w eq_refl eq_refl eq_refl)
           [Stats [video_report 900]; StatsRejected]).
Defined.

Lemma talk_mode_display_uses_captured_readiness_witness :
  let w := snd (on_track 0 (listeners0 false) [stream0] (world2 false)) in
  let w' := snd (on_report 0 (video_report 500) w) in
  isStreamReady (hook w) = true
  /\ isStreamPlaying (hook w') = true
  /\ opacity <$> streamVideoRef w' = Some (lit "0")
  /\ opacity <$> idleVideoRef w' = Some (lit "1").
Proof.
  intros w w'.
  destruct (talk_mode_display_uses_captured_readiness 0
              (new_monitor 0 (listeners0 false) 0 stream0) (video_report 500) w
              (with_muted false (with_srcObject (Some stream0) video0)) video0
              eq_refl eq_refl eq_refl eq_refl eq_refl eq_refl eq_refl)
    as (Hp & _ & _ & H).
  destruct (H eq_refl) as (Hs & Hi & _).
  split; [reflexivity|]. split; [exact Hp|]. split; [exact Hs|exact Hi].
Defined.

Lemma track_without_video_changes_nothing_witness :
  let w := set_tracks (fun _ => [ {| kind := Audio; ended := false |} ])
             (world2 true) in
  track 0 [stream0] w = (Normal tt, w).
Proof.
  intros w.
  apply (track_without_video_changes_nothing 0 stream0 [] w).
  right. intros t tr [<-|[]] [= <-]. reflexivity.
Defined.

Lemma connect_talk_avatar_needs_presenter_witness :
  let agentData := JObj [ (lit "preview_name", JStr (lit "Koobide")) ] in
  let env := env_of (respond 200 (Some agentData))
               (respond 200 (Some (stream_json false))) (respond 200 None) in
  let w' := snd (connect env hook0 world0) in
  pcs w' = [] /\ streamId (hook w') = JStr (lit "s1")
  /\ length (issued w') = 2%nat.
Proof.
  intros agentData env w'.
  pose proof (connect_talk_avatar_needs_presenter env hook0 cfg0 world0
                {| status := 200; statusText := []; json := Some agentData |}
                {| status := 200; statusText := [];
                   json := Some (stream_json false) |}
                agentData (JStr (lit "Koobide")) (stream_json false)
                (JStr (lit "s1")) (JStr (lit "sess1"))
                (JObj [ (lit "type", JStr (lit "offer")) ]) (JArr [])
                (JBool false) JUndefined video0 video0
                eq_refl eq_refl eq_refl eq_refl eq_refl eq_refl eq_refl eq_refl
                eq_refl eq_refl eq_refl eq_refl eq_refl eq_refl eq_refl eq_refl
                eq_refl eq_refl (or_introl eq_refl)) as H.
  subst w'. rewrite H. repeat split.
Defined.

(** ** The voice bridge, continued *)

Section BridgeMore.

Import RealtimeGPT.

Variable env : RealtimeGPT.Env.

Lemma onmessage_delta (d : jsstring) (w : RealtimeGPT.World) :
  onmessage (Some (text_delta d)) w
  = (Normal tt, set_currentResponseRef (currentResponseRef w ++ d) w).
Proof.
  unfold onmessage, try_catch.
  now rewrite (handle_text_delta (text_delta d) (JStr d) w eq_refl eq_refl).
Qed.

Lemma forEach_onmessage_deltas (ds : list jsstring) (w : RealtimeGPT.World) :
  forEach onmessage (List.map (fun d => Some (text_delta d)) ds) w
  = (Normal tt, set_currentResponseRef (currentResponseRef w ++ concat ds) w).
Proof.
  revert w. induction ds as [|d ds IH]; intros w.
  - cbn. rewrite app_nil_r. destruct w; reflexivity.
  - cbn [List.map forEach]. unfold mbind, St_bind.
    rewrite (bind_normal _ _ _ tt) by (now rewrite onmessage_delta).
    rewrite onmessage_delta, IH. cbn. now rewrite <- app_assoc.
Qed.

(** X13. Streaming round trip. A run of "response.text.delta" messages
    only appends their deltas, in order, to the buffer. The
    "response.text.done" that follows hands the whole buffer over in one
    piece, keeps it as the last response and empties the buffer, unless the
    buffer is blank, in which case nothing happens. *)
Theorem deltas_accumulate_until_done (ds : list jsstring) (w : RealtimeGPT.World) :
  let w1 := snd (forEach onmessage (List.map (fun d => Some (text_delta d)) ds) w) in
  let text := currentResponseRef w ++ concat ds in
  w1 = set_currentResponseRef text w
  /\ (blank text = false ->
      onmessage (Some done_message) w1
      = (Normal tt,
         set_currentResponseRef []
           (snd (RealtimeGPT.emit (EvTextReceived (JStr text))
                   (setLastResponse (JStr text) w)))))
  /\ (blank text = true -> onmessage (Some done_message) w1 = (Normal tt, w1)).
Proof.
  intros w1 text. subst w1. rewrite forEach_onmessage_deltas. cbn [snd].
  fold text. split; [reflexivity|].
  unfold onmessage, try_catch.
  rewrite (handle_text_done done_message _ eq_refl).
  cbn [currentResponseRef set_currentResponseRef].
  split; intros Hb.
  - destruct (trim text) eqn:Ht.
    { apply trim_nil in Ht. congruence. }
    reflexivity.
  - apply trim_nil in Hb. rewrite Hb. reflexivity.
Qed.

Lemma find_output_text (l : list JsValue) (w : RealtimeGPT.World) :
  (fix find (l : list JsValue) : St RealtimeGPT.World (option JsValue) :=
     match l with
     | [] => mret None
     | c :: r =>
         t ← lift (get_prop c "type");
         if is_str t "output_text" then mret (Some c) else find r
     end) l w
  = (first_output_text l, w).
Proof.
  induction l as [|c r IH]; [reflexivity|].
  cbn [first_output_text]. unfold mbind, St_bind, bind, lift at 1.
  destruct (get_prop c "type") as [t|e]; [|reflexivity].
  destruct (is_str t "output_text"); [reflexivity|]. exact IH.
Qed.

(** X15. An assistant "conversation_item.created" message whose content
    has an "output_text" part with a non-empty text delivers that text and
    keeps it as the last response, but leaves the buffer of deltas alone. So
    a response that also streamed its text is delivered a second time by the
    "response.text.done" that follows. *)
Theorem assistant_item_is_delivered_apart (message item c text : JsValue)
    (pre post : list JsValue) (w : RealtimeGPT.World) :
  has_type message "conversation_item.created" ->
  get_prop message "item" = Normal item ->
  get_prop item "role" = Normal (JStr (lit "assistant")) ->
  get_prop item "content" = Normal (JArr (pre ++ c :: post)) ->
  Forall (fun x => exists t, get_prop x "type" = Normal t
                             /\ is_str t "output_text" = false) pre ->
  has_type c "output_text" ->
  get_prop c "text" = Normal text -> truthy text = true ->
  let w1 := snd (onmessage (Some message) w) in
  w1 = snd (RealtimeGPT.emit (EvTextReceived text) (setLastResponse text w))
  /\ currentResponseRef w1 = currentResponseRef w
  /\ (blank (currentResponseRef w) = false ->
      RealtimeGPT.trace (snd (onmessage (Some done_message) w1))
      = RealtimeGPT.trace w ++ [ EvTextReceived text;
                                 EvTextReceived (JStr (currentResponseRef w)) ]).
Proof.
  intros Hty Hitem Hrole Hcontent Hpre Hc Htext Htruthy w1.
  assert (Hfind : first_output_text (pre ++ c :: post) = Normal (Some c)).
  { clear Hcontent w1.
    induction Hpre as [|x pre (t & Ht & Hn) _ IH]; cbn [app first_output_text].
    - unfold has_type in Hc. rewrite Hc. reflexivity.
    - rewrite Ht, Hn. exact IH. }
  assert (E : handleRealtimeMessage message w
              = RealtimeGPT.emit (EvTextReceived text) (setLastResponse text w)).
  { unfold has_type in Hty.
    unfold handleRealtimeMessage, mbind, St_bind, bind, lift.
    rewrite Hty.
    replace (is_str (JStr (lit "conversation_item.created")) "response.text.delta")
      with false by reflexivity.
    replace (is_str (JStr (lit "conversation_item.created")) "response.text.done")
      with false by reflexivity.
    replace (is_str (JStr (lit "conversation_item.created"))
               "conversation_item.created") with true by reflexivity.
    rewrite Hitem, Hrole.
    replace (is_str (JStr (lit "assistant")) "assistant") with true by reflexivity.
    rewrite Hcontent, find_output_text, Hfind, Htext, Htruthy. reflexivity. }
  assert (Hw1 : w1 = snd (RealtimeGPT.emit (EvTextReceived text)
                            (setLastResponse text w))).
  { subst w1. unfold onmessage, try_catch. rewrite E. reflexivity. }
  clearbody w1. subst w1.
  split; [reflexivity|]. split; [reflexivity|].
  intros Hb. unfold onmessage, try_catch.
  rewrite (handle_text_done done_message _ eq_refl).
  cbn [RealtimeGPT.emit modify fst snd currentResponseRef setLastResponse].
  destruct (trim (currentResponseRef w)) eqn:Ht.
  { apply trim_nil in Ht. congruence. }
  cbn. rewrite <- ?app_assoc. reflexivity.
Qed.

(** X17. [connect] of the bridge never throws, and never changes
    [isConnected] or schedules a timer. When the microphone is granted but
    the API key is missing, the error is reported, no socket is created, and
    the microphone stream stays stored, not stopped. When the microphone is
    refused, the error is reported and nothing else changes. *)
Theorem bridge_connect_never_throws (cap : bool) (w : RealtimeGPT.World) :
  let w' := snd (RealtimeGPT.connect env cap w) in
  fst (RealtimeGPT.connect env cap w) = Normal tt
  /\ isConnected w' = isConnected w
  /\ timers w' = timers w
  /\ (forall stream,
        cap = false -> socket_open w = false ->
        getUserMedia env (RealtimeGPT.trace w) = Normal stream ->
        truthy (apiKey env) = false ->
        streamRef w' = Some stream /\ sockets w' = sockets w /\ wsRef w' = wsRef w
        /\ RealtimeGPT.trace w'
           = RealtimeGPT.trace w
             ++ [ EvGetUserMedia;
                  EvError (lit "Failed to access microphone or connect to API") ])
  /\ (forall e,
        cap = false -> socket_open w = false ->
        getUserMedia env (RealtimeGPT.trace w) = Throw e ->
        streamRef w' = streamRef w /\ sockets w' = sockets w /\ wsRef w' = wsRef w
        /\ RealtimeGPT.trace w'
           = RealtimeGPT.trace w
             ++ [ EvGetUserMedia;
                  EvError (lit "Failed to access microphone or connect to API") ]).
Proof.
  intros w'. subst w'. rewrite bridge_connect_unfold.
  destruct (cap || socket_open w) eqn:Hg.
  { repeat split; auto; intros; subst; cbn in Hg; congruence. }
  cbv zeta.
  destruct (getUserMedia env (RealtimeGPT.trace w)) as [stream|e];
    [destruct (negb (truthy (apiKey env))) eqn:Hk|]; cbn;
    repeat split; auto; try congruence;
    try (intros; try congruence; repeat split; rewrite <- ?app_assoc; reflexivity).
  all: intros; apply negb_false_iff in Hk; congruence.
Qed.

End BridgeMore.

(** ** The message handler and the caller's callback *)

Section CallbackProps.

Import RealtimeGPT.

Variable cb : JsValue -> Completion unit.

Lemma handle_with_callback (message : JsValue) (w : RealtimeGPT.World) :
  let r := RealtimeCallback.handleRealtimeMessage cb message w in
  (sockets (snd r) = sockets w /\ timers (snd r) = timers w
   /\ isConnected (snd r) = isConnected w /\ isListening (snd r) = isListening w
   /\ wsRef (snd r) = wsRef w /\ streamRef (snd r) = streamRef w)
  /\ (forall e, fst r = Throw e ->
        currentResponseRef (snd r) = currentResponseRef w
        /\ (snd r = w
            \/ exists text, cb text = Throw e /\ snd r = handed_over text w))
  /\ ((forall text, cb text = Normal tt) ->
      r = RealtimeGPT.handleRealtimeMessage message w).
Proof.
  unfold RealtimeCallback.handleRealtimeMessage, RealtimeGPT.handleRealtimeMessage,
    RealtimeCallback.call_onTextReceived, handed_over, mbind, St_bind, bind, lift.
  destruct (get_prop message "type") as [ty|];
    [|cbn; split; [auto 6|split; [auto|reflexivity]]].
  destruct (is_str ty "response.text.delta").
  { destruct (get_prop message "delta"); cbn;
      (split; [auto 6|split; [|reflexivity]]); [discriminate|auto]. }
  destruct (is_str ty "response.text.done").
  { cbn [get]. destruct (negb _); cbn [fst snd modify RealtimeGPT.emit].
    - destruct (cb (JStr (currentResponseRef w))) as [[]|e0] eqn:Hcb; cbn.
      + split; [auto 6|]. split; [discriminate|reflexivity].
      + split; [auto 6|]. split.
        * intros e [= <-]. split; [reflexivity|]. right. eexists. split; [exact Hcb|reflexivity].
        * intros H. rewrite H in Hcb. discriminate.
    - cbn. split; [auto 6|]. split; [discriminate|reflexivity]. }
  destruct (is_str ty "conversation_item.created");
    [|cbn; split; [auto 6|split; [discriminate|reflexivity]]].
  destruct (get_prop message "item") as [item|];
    [|cbn; split; [auto 6|split; [auto|reflexivity]]].
  destruct (get_prop item "role") as [role|];
    [|cbn; split; [auto 6|split; [auto|reflexivity]]].
  destruct (is_str role "assistant");
    [|cbn; split; [auto 6|split; [discriminate|reflexivity]]].
  destruct (get_prop item "content") as [content|];
    [|cbn; split; [auto 6|split; [auto|reflexivity]]].
  destruct content; try (cbn; split; [auto 6|split; [auto|reflexivity]]).
  rewrite find_output_text.
  destruct (first_output_text l) as [[c|]|];
    try (cbn; split; [auto 6|split; [auto; discriminate|reflexivity]]).
  destruct (get_prop c "text") as [text|];
    [|cbn; split; [auto 6|split; [auto|reflexivity]]].
  destruct (truthy text); [|cbn; split; [auto 6|split; [discriminate|reflexivity]]].
  cbn [fst snd modify RealtimeGPT.emit].
  destruct (cb text) as [[]|e0] eqn:Hcb; cbn.
  - split; [auto 6|]. split; [discriminate|reflexivity].
  - split; [auto 6|]. split.
    + intros e [= <-]. split; [reflexivity|]. right. eexists. split; [exact Hcb|reflexivity].
    + intros H. rewrite H in Hcb. discriminate.
Qed.

(** X14. The message handler of the socket never throws, whatever the
    caller's [onTextReceived] does, and data that does not parse changes
    nothing. No message touches the sockets, the timers, the connection and
    listening flags or the refs of the socket and the microphone stream.
    When the handling fails the buffer of deltas is as before, and the
    world is unchanged unless it was the callback that threw: then the last
    response has been set and the callback called, and nothing else. With a
    callback that always returns, the handler is that of [RealtimeGPT]. *)
Theorem onmessage_never_throws (data : option JsValue) (w : RealtimeGPT.World) :
  let w' := snd (RealtimeCallback.onmessage cb data w) in
  fst (RealtimeCallback.onmessage cb data w) = Normal tt
  /\ (data = None -> w' = w)
  /\ (sockets w' = sockets w /\ timers w' = timers w
      /\ isConnected w' = isConnected w /\ isListening w' = isListening w
      /\ wsRef w' = wsRef w /\ streamRef w' = streamRef w)
  /\ (forall message e,
        data = Some message ->
        fst (RealtimeCallback.handleRealtimeMessage cb message w) = Throw e ->
        currentResponseRef w' = currentResponseRef w
        /\ (w' = w \/ exists text, cb text = Throw e /\ w' = handed_over text w))
  /\ ((forall text, cb text = Normal tt) ->
      RealtimeCallback.onmessage cb data w = RealtimeGPT.onmessage data w).
Proof.
  intros w'. subst w'. unfold RealtimeCallback.onmessage, RealtimeGPT.onmessage,
    try_catch.
  destruct data as [message|].
  2: { cbn. repeat split; auto; intros ? ? [=]. }
  destruct (handle_with_callback message w) as (Hframe & Hthrow & Hsame).
  cbv zeta in Hframe, Hthrow, Hsame.
  destruct (RealtimeCallback.handleRealtimeMessage cb message w) as [[[]|e] w1] eqn:E;
    cbn [fst snd] in *.
  - split; [reflexivity|]. split; [discriminate|]. split; [exact Hframe|].
    split.
    + intros m e [= <-]. rewrite E. discriminate.
    + intros H. now rewrite <- (Hsame H).
  - split; [reflexivity|]. split; [discriminate|]. split; [exact Hframe|].
    split.
    + intros m e' [= <-]. rewrite E. cbn. intros [= <-]. exact (Hthrow e eq_refl).
    + intros H. now rewrite <- (Hsame H).
Qed.

End CallbackProps.

(** The page's callback completes like [page_callback]. *)
Lemma page_callback_spec (env : Env) (cap : HookState) (text : JsValue) (w : World) :
  fst (Page.onTextReceived env cap text w) = page_callback text.
Proof.
  destruct text; try reflexivity. unfold Page.onTextReceived, page_callback.
  destruct (negb (is_empty (trim s)) && isStreamReady cap); reflexivity.
Qed.

Lemma onmessage_never_throws_witness :
  let data := Some (assistant_item (JArr [content_part "output_text" (JNum 5)])) in
  let r := RealtimeCallback.onmessage page_callback data bridge0 in
  fst r = Normal tt /\ snd r = handed_over (JNum 5) bridge0.
Proof.
  intros data r. split; [|reflexivity].
  exact (proj1 (onmessage_never_throws page_callback data bridge0)).
Defined.

Lemma assistant_item_is_delivered_apart_witness :
  let w := snd (RealtimeGPT.onmessage (Some (text_delta (lit "Hi"))) bridge0) in
  let message := assistant_item (JArr [ content_part "input_text" (JStr (lit "Hey"));
                                        content_part "output_text" (JStr (lit "Hi")) ]) in
  let w1 := snd (RealtimeGPT.onmessage (Some message) w) in
  RealtimeGPT.trace (snd (RealtimeGPT.onmessage (Some done_message) w1))
  = [ RealtimeGPT.EvTextReceived (JStr (lit "Hi"));
      RealtimeGPT.EvTextReceived (JStr (lit "Hi")) ].
Proof.
  intros w message w1.
  refine (proj2 (proj2 (assistant_item_is_delivered_apart message
            (JObj [ (lit "type", JStr (lit "message"));
                    (lit "role", JStr (lit "assistant"));
                    (lit "content",
                     JArr [ content_part "input_text" (JStr (lit "Hey"));
                            content_part "output_text" (JStr (lit "Hi")) ]) ])
            (content_part "output_text" (JStr (lit "Hi"))) (JStr (lit "Hi"))
            [ content_part "input_text" (JStr (lit "Hey")) ] [] w
            eq_refl eq_refl eq_refl eq_refl _ eq_refl eq_refl eq_refl)) eq_refl).
  constructor; [|constructor].
  exists (JStr (lit "input_text")). split; reflexivity.
Defined.


(** ** Audio capture and disconnection *)

Section AudioProps.

Import RealtimeGPT RealtimeAudio.

Variable benv : RealtimeGPT.Env.
Variable env : RealtimeAudio.Env.

Lemma lift_bridge_emit (e : RealtimeGPT.Event) (w : RealtimeAudio.World) :
  lift_bridge (RealtimeGPT.emit e) w = (Normal tt, report e w).
Proof. reflexivity. Qed.

Lemma ws_send_eq (ws : nat) (type : string) (w : RealtimeAudio.World) (s : WebSocket) :
  sockets (bridge w) !! ws = Some s ->
  ws_send ws type w
  = match readyState s with
    | CONNECTING => (Throw DOMException, w)
    | OPEN => (Normal tt, set_bridge (set_sockets (alter (send type) ws)) w)
    | _ => (Normal tt, w)
    end.
Proof.
  intros Hs. unfold ws_send, mbind, St_bind, bind, get. cbn [fst snd].
  rewrite Hs. destruct (readyState s); reflexivity.
Qed.

Lemma new_MediaRecorder_ok (stream : MediaStream) (w : RealtimeAudio.World) :
  supported env stream = true ->
  new_MediaRecorder env stream w
  = (Normal (length (recorders w)),
     set_recorders (fun l => l ++ [ {| r_stream := stream; r_state := Inactive |} ]) w).
Proof. intros H. unfold new_MediaRecorder. rewrite H. reflexivity. Qed.

Lemma start_ok (r : nat) (stream : MediaStream) (w : RealtimeAudio.World) :
  recorders w !! r = Some {| r_stream := stream; r_state := Inactive |} ->
  starts env stream = true ->
  start env r w = (Normal tt, set_recorders (alter (with_state Recording) r) w).
Proof.
  intros Hr Hs. unfold start, mbind, St_bind, bind, get. cbn [fst snd].
  rewrite Hr, Hs. reflexivity.
Qed.

Lemma startListening_reaches_send (ws : nat) (stream : MediaStream)
    (w : RealtimeAudio.World) :
  wsRef (bridge w) = Some ws -> streamRef (bridge w) = Some stream ->
  supported env stream = true -> starts env stream = true ->
  startListening env true false w
  = try_catch (ws_send ws "input_audio_buffer.commit")
      (fun _ => lift_bridge (RealtimeGPT.emit start_failed))
      (recording stream w).
Proof.
  intros Href Hstream Hsup Hstart.
  unfold startListening, mbind, St_bind.
  rewrite (bind_normal _ _ _ w) by reflexivity. change (snd (get w)) with w.
  cbn [negb orb]. rewrite Href, Hstream.
  assert (E : bind (new_MediaRecorder env stream)
                (fun mediaRecorder =>
                   bind (modify (set_mediaRecorderRef (Some mediaRecorder)))
                     (fun _ => bind (start env mediaRecorder)
                        (fun _ => bind (modify (set_bridge (setIsListening true)))
                           (fun _ => ws_send ws "input_audio_buffer.commit")))) w
              = ws_send ws "input_audio_buffer.commit" (recording stream w)).
  { rewrite (bind_normal _ _ _ (length (recorders w)))
      by (now rewrite new_MediaRecorder_ok).
    rewrite new_MediaRecorder_ok by exact Hsup. cbn [snd].
    rewrite (bind_normal _ _ _ tt) by reflexivity. cbn [modify snd].
    rewrite (bind_normal _ _ _ tt)
      by (rewrite (start_ok (length (recorders w)) stream);
          [reflexivity|apply list_lookup_middle; reflexivity|exact Hstart]).
    rewrite (start_ok (length (recorders w)) stream);
      [|apply list_lookup_middle; reflexivity|exact Hstart].
    cbn [snd]. rewrite (bind_normal _ _ _ tt) by reflexivity. cbn [modify snd].
    f_equal. unfold recording, set_bridge, set_recorders, set_mediaRecorderRef.
    cbn [bridge mediaRecorderRef recorders mic_tracks readers].
    rewrite alter_last. reflexivity. }
  unfold try_catch. rewrite E. reflexivity.
Qed.

(** X18. [startListening], from a render that is connected and not
    listening, with a socket and a microphone stream held and a browser that
    records: a new recorder is created, stored and started and [isListening]
    is set, before the commit message is sent. On an open socket the message
    is sent; on a closing or closed one it is dropped silently; on a socket
    still connecting the send throws, and "Failed to start audio recording"
    is reported although the recorder is recording and [isListening] is
    set. *)
Theorem startListening_starts_recorder (ws : nat) (s : WebSocket)
    (stream : MediaStream) (w : RealtimeAudio.World) :
  wsRef (bridge w) = Some ws -> sockets (bridge w) !! ws = Some s ->
  streamRef (bridge w) = Some stream ->
  supported env stream = true -> starts env stream = true ->
  let r := length (recorders w) in
  let started :=
    set_bridge (setIsListening true)
      (set_recorders (fun l => l ++ [ {| r_stream := stream; r_state := Recording |} ])
         (set_mediaRecorderRef (Some r) w)) in
  startListening env true false w
  = (Normal tt,
     match readyState s with
     | CONNECTING => report start_failed started
     | OPEN =>
         set_bridge (set_sockets (alter (send "input_audio_buffer.commit") ws)) started
     | _ => started
     end).
Proof.
  intros Href Hs Hstream Hsup Hstart r started.
  rewrite (startListening_reaches_send ws stream w Href Hstream Hsup Hstart).
  fold r. change (recording stream w) with started.
  unfold try_catch. rewrite (ws_send_eq ws _ started s) by exact Hs.
  destruct (readyState s); reflexivity.
Qed.

(** X19. [startListening] never throws. From a render that is not
    connected or is listening, or with no socket held, it does nothing.
    Past that guard: without a microphone stream it only reports "No audio
    stream available"; when the browser cannot create the recorder it only
    reports the failure; when the recorder cannot start, the failure is
    reported and the recorder that did not start stays stored. *)
Theorem startListening_never_throws (isConnected isListening : bool)
    (w : RealtimeAudio.World) :
  let r := startListening env isConnected isListening w in
  fst r = Normal tt
  /\ (isConnected = false \/ isListening = true \/ wsRef (bridge w) = None ->
      r = (Normal tt, w))
  /\ (forall ws,
        isConnected = true -> isListening = false -> wsRef (bridge w) = Some ws ->
        (streamRef (bridge w) = None -> snd r = report no_stream w)
        /\ (forall stream,
              streamRef (bridge w) = Some stream ->
              (supported env stream = false -> snd r = report start_failed w)
              /\ (supported env stream = true -> starts env stream = false ->
                  snd r
                  = report start_failed
                      (set_recorders
                         (fun l => l ++ [ {| r_stream := stream;
                                             r_state := Inactive |} ])
                         (set_mediaRecorderRef (Some (length (recorders w))) w))))).
Proof.
  intros r. subst r. unfold startListening, mbind, St_bind.
  rewrite (bind_normal _ _ _ w) by reflexivity. change (snd (get w)) with w.
  split; [|split].
  - destruct (negb isConnected || isListening); [reflexivity|].
    destruct (wsRef (bridge w)); [|reflexivity].
    unfold try_catch.
    match goal with |- context [let (_, _) := ?m in _] => destruct m as [[[]|e] w1] end;
      reflexivity.
  - intros [-> | [-> | ->]]; cbn [negb orb]; rewrite ?orb_true_r; try reflexivity.
    destruct (negb isConnected || isListening); reflexivity.
  - intros ws -> -> Href. cbn [negb orb]. rewrite Href. split.
    + intros ->. reflexivity.
    + intros stream ->. unfold try_catch. split.
      * intros Hsup. unfold new_MediaRecorder. rewrite Hsup. reflexivity.
      * intros Hsup Hst.
        rewrite (bind_normal _ _ _ (length (recorders w)))
          by (now rewrite new_MediaRecorder_ok).
        rewrite new_MediaRecorder_ok by exact Hsup. cbn [snd].
        rewrite (bind_normal _ _ _ tt) by reflexivity. cbn [modify snd].
        rewrite (bind_throw _ _ _ DOMException).
        2: { unfold start, mbind, St_bind, bind, get. cbn [fst snd].
             cbn [recorders set_recorders set_mediaRecorderRef].
             rewrite list_lookup_middle by reflexivity. now rewrite Hst. }
        cbn [fst snd].
        unfold start, mbind, St_bind, bind, get. cbn [fst snd].
        cbn [recorders set_recorders set_mediaRecorderRef].
        rewrite list_lookup_middle by reflexivity. rewrite Hst. reflexivity.
Qed.

Lemma stop_recording (r : nat) (rec : MediaRecorder) (w : RealtimeAudio.World) :
  recorders w !! r = Some rec -> r_state rec = Recording ->
  stop env r w = (Normal tt, set_recorders (alter (with_state Inactive) r) w).
Proof.
  intros Hr Hst. unfold stop, mbind, St_bind, bind, get. cbn [fst snd].
  rewrite Hr. destruct rec as [st []]; [discriminate|reflexivity].
Qed.

Lemma forEach_stop_mic_track (l : list nat) (w : RealtimeAudio.World) :
  forEach stop_mic_track l w = (Normal tt, set_mic_tracks (stop_all l) w).
Proof.
  revert w. induction l as [|t l IH]; intros w.
  - destruct w; reflexivity.
  - cbn [forEach]. unfold mbind, St_bind.
    rewrite (bind_normal _ _ _ tt) by reflexivity. rewrite IH. reflexivity.
Qed.

Lemma alter_dangling {A} (f : A -> A) (l : list A) (i : nat) :
  l !! i = None -> alter f i l = l.
Proof.
  intros H. apply list_eq. intros j. destruct (decide (i = j)) as [<-|Hne].
  - now rewrite list_lookup_alter_eq, H.
  - now rewrite list_lookup_alter_ne.
Qed.

Lemma disconnect_eq (w : RealtimeAudio.World) :
  holds_active_recorder w -> disconnect env w = (Normal tt, disconnected w).
Proof.
  intros Hrec. unfold disconnect, disconnected, mbind, St_bind.
  rewrite (bind_normal _ _ _ w) by reflexivity. change (snd (get w)) with w.
  assert (E1 : match mediaRecorderRef w with
               | Some r => bind (stop env r) (fun _ => modify (set_mediaRecorderRef None))
               | None => mret tt
               end w
               = (Normal tt,
                  match mediaRecorderRef w with
                  | Some r => set_mediaRecorderRef None
                                (set_recorders (alter (with_state Inactive) r) w)
                  | None => w
                  end)).
  { destruct (mediaRecorderRef w) as [r|] eqn:Hr; [|reflexivity].
    destruct (recorders w !! r) as [rec|] eqn:Hl.
    - rewrite (bind_normal _ _ _ tt)
        by (now rewrite (stop_recording r rec w Hl (Hrec r rec Hr Hl))).
      now rewrite (stop_recording r rec w Hl (Hrec r rec Hr Hl)).
    - unfold stop, mbind, St_bind, bind, get. cbn [fst snd]. rewrite Hl.
      cbn. unfold set_mediaRecorderRef, set_recorders. cbn.
      rewrite (alter_dangling _ _ _ Hl). reflexivity. }
  rewrite (bind_normal _ _ _ tt) by (now rewrite E1). rewrite E1. cbn [snd].
  clear E1.
  match goal with |- context [bind _ _ ?w0] => generalize w0 end. intros w1.
  assert (E2 : match streamRef (bridge w) with
               | Some stream =>
                   bind (forEach stop_mic_track (getTracks stream))
                     (fun _ => modify (set_bridge (set_streamRef None)))
               | None => mret tt
               end w1
               = (Normal tt,
                  match streamRef (bridge w) with
                  | Some stream =>
                      set_bridge (set_streamRef None)
                        (set_mic_tracks (stop_all (getTracks stream)) w1)
                  | None => w1
                  end)).
  { destruct (streamRef (bridge w)) as [stream|]; [|reflexivity].
    rewrite (bind_normal _ _ _ tt) by (now rewrite forEach_stop_mic_track).
    now rewrite forEach_stop_mic_track. }
  rewrite (bind_normal _ _ _ tt) by (now rewrite E2). rewrite E2. cbn [snd].
  clear E2.
  match goal with |- context [bind _ _ ?w0] => generalize w0 end. intros w2.
  destruct (wsRef (bridge w)) as [ws|]; reflexivity.
Qed.

Lemma disconnected_refs (w : RealtimeAudio.World) :
  let w' := disconnected w in
  mediaRecorderRef w' = None /\ streamRef (bridge w') = None
  /\ wsRef (bridge w') = None
  /\ isConnected (bridge w') = false /\ isListening (bridge w') = false
  /\ RealtimeGPT.trace (bridge w')
     = RealtimeGPT.trace (bridge w) ++ [EvConnectionChange false]
  /\ timers (bridge w') = timers (bridge w).
Proof.
  unfold disconnected, report, ws_close, modify.
  destruct (mediaRecorderRef w) as [r|] eqn:Hr;
    destruct (streamRef (bridge w)) as [stream|] eqn:Hst;
    destruct (wsRef (bridge w)) as [ws|] eqn:Hws;
    cbn; rewrite ?Hr, ?Hst, ?Hws; repeat split; reflexivity.
Qed.

Lemma disconnected_again (w : RealtimeAudio.World) :
  mediaRecorderRef w = None -> streamRef (bridge w) = None ->
  wsRef (bridge w) = None ->
  isConnected (bridge w) = false -> isListening (bridge w) = false ->
  disconnected w = report (EvConnectionChange false) w.
Proof.
  intros Hr Hst Hws Hc Hl. unfold disconnected. rewrite Hr, Hst, Hws.
  destruct w as [b ? ? ? ?]. destruct b. cbn in *. subst. reflexivity.
Qed.

Lemma onclose_intentional (ws : nat) (b : RealtimeGPT.World) :
  timers (snd (onclose ws 1000 b)) = timers b.
Proof.
  unfold onclose, mbind, St_bind, bind, modify, get. cbn [fst snd].
  destruct (sockets (set_sockets _ b) !! ws); reflexivity.
Qed.

Lemma bridge_connect_normal (cap : bool) (b : RealtimeGPT.World) :
  fst (RealtimeGPT.connect benv cap b) = Normal tt.
Proof.
  rewrite bridge_connect_unfold.
  destruct (cap || socket_open b); [reflexivity|]. cbv zeta.
  destruct (getUserMedia benv _); [destruct (negb _)|]; reflexivity.
Qed.

(** X21. [disconnect], when the recorder held (if any) is recording: it
    does not throw; the recorder it held is inactive, every track of the
    microphone stream is ended, the socket it held is closing or closed, the
    three refs are cleared, both flags are false and the caller is told. A
    second [disconnect] only tells the caller again. The close event
    with code 1000 that follows schedules no reconnection, and a file reader
    that finishes loading afterwards sends nothing. *)
Theorem disconnect_releases_everything (w : RealtimeAudio.World) :
  holds_active_recorder w ->
  let w' := snd (disconnect env w) in
  fst (disconnect env w) = Normal tt
  /\ mediaRecorderRef w' = None /\ streamRef (bridge w') = None
  /\ wsRef (bridge w') = None
  /\ isConnected (bridge w') = false /\ isListening (bridge w') = false
  /\ RealtimeGPT.trace (bridge w')
     = RealtimeGPT.trace (bridge w) ++ [EvConnectionChange false]
  /\ (forall r rec,
        mediaRecorderRef w = Some r -> recorders w' !! r = Some rec ->
        r_state rec = Inactive)
  /\ (forall stream t tr,
        streamRef (bridge w) = Some stream -> In t (getTracks stream) ->
        mic_tracks w' !! t = Some tr -> ended tr = true)
  /\ (forall ws s,
        wsRef (bridge w) = Some ws -> sockets (bridge w') !! ws = Some s ->
        readyState s = CLOSING \/ readyState s = CLOSED)
  /\ disconnect env w' = (Normal tt, report (EvConnectionChange false) w')
  /\ (forall ws,
        timers (bridge (snd (lift_bridge (onclose ws 1000) w'))) = timers (bridge w))
  /\ sockets (bridge (snd (reader_onload w'))) = sockets (bridge w').
Proof.
  intros Hrec w'. subst w'. rewrite (disconnect_eq w Hrec). cbn [fst snd].
  destruct (disconnected_refs w) as (Hr & Hst & Hws & Hc & Hl & Htr & Htm).
  split; [reflexivity|]. split; [exact Hr|]. split; [exact Hst|].
  split; [exact Hws|]. split; [exact Hc|]. split; [exact Hl|].
  split; [exact Htr|]. split; [|split; [|split; [|split; [|split]]]].
  - intros r rec Href. unfold disconnected, report, ws_close, modify.
    rewrite Href.
    destruct (streamRef (bridge w)); destruct (wsRef (bridge w)); cbn;
      rewrite list_lookup_alter_eq;
      destruct (recorders w !! r); cbn; intros [= <-]; reflexivity.
  - intros stream t tr Hs Hin. unfold disconnected, report, ws_close, modify.
    rewrite Hs.
    destruct (mediaRecorderRef w); destruct (wsRef (bridge w)); cbn;
      apply stop_all_ended; now left.
  - intros ws s Href. unfold disconnected, report, ws_close, modify.
    rewrite Href.
    destruct (mediaRecorderRef w); destruct (streamRef (bridge w)); cbn;
      rewrite list_lookup_alter_eq;
      (destruct (sockets (bridge w) !! ws) as [s0|]; cbn; [|discriminate]);
      intros [= <-]; destruct (readyState s0) eqn:E; cbn; rewrite ?E; auto.
  - rewrite disconnect_eq.
    + now rewrite disconnected_again.
    + intros r rec. rewrite Hr. discriminate.
  - intros ws. unfold lift_bridge. cbn [snd bridge set_bridge].
    now rewrite onclose_intentional.
  - unfold reader_onload, mbind, St_bind, bind, modify, get. cbn [fst snd].
    cbn [bridge set_readers]. rewrite Hws. reflexivity.
Qed.

End AudioProps.

(** ** Re-rendering the page *)

Section RerenderProps.

Import RealtimeGPT RealtimeAudio.

Variable benv : RealtimeGPT.Env.
Variable env : RealtimeAudio.Env.

Lemma rerender_eq (w : RealtimeAudio.World) :
  holds_active_recorder w ->
  Page.rerender env w
  = (Normal tt, report (EvConnectionChange false) (disconnected w)).
Proof.
  intros Hrec. unfold Page.rerender, mbind, St_bind.
  rewrite (bind_normal _ _ _ tt) by (now rewrite (disconnect_eq env w Hrec)).
  rewrite (disconnect_eq env w Hrec). cbn [snd].
  destruct (disconnected_refs w) as (Hr & Hst & Hws & Hc & Hl & _).
  rewrite disconnect_eq by (intros r rec; rewrite Hr; discriminate).
  now rewrite disconnected_again.
Qed.

(** Once everything is released a re-render only tells the caller again. *)
Lemma rerender_again (w : RealtimeAudio.World) :
  let w' := report (EvConnectionChange false) w in
  mediaRecorderRef w = None -> streamRef (bridge w) = None ->
  wsRef (bridge w) = None ->
  isConnected (bridge w) = false -> isListening (bridge w) = false ->
  Page.rerender env w'
  = (Normal tt,
     report (EvConnectionChange false) (report (EvConnectionChange false) w')).
Proof.
  intros w' Hr Hst Hws Hc Hl.
  assert (H : forall w0, mediaRecorderRef w0 = None -> streamRef (bridge w0) = None ->
              wsRef (bridge w0) = None -> isConnected (bridge w0) = false ->
              isListening (bridge w0) = false ->
              disconnect env w0 = (Normal tt, report (EvConnectionChange false) w0)).
  { intros w0 H1 H2 H3 H4 H5.
    rewrite disconnect_eq by (intros r rec; rewrite H1; discriminate).
    now rewrite disconnected_again. }
  unfold Page.rerender, mbind, St_bind.
  rewrite (bind_normal _ _ _ tt) by (now rewrite (H w')).
  rewrite (H w') by assumption. cbn [snd]. now rewrite H.
Qed.

Lemma socket_open_lookup (b : RealtimeGPT.World) (ws : nat) (s : WebSocket) :
  wsRef b = Some ws -> sockets b !! ws = Some s ->
  socket_open b = bool_decide (readyState s = OPEN).
Proof. intros Hr Hs. unfold socket_open. now rewrite Hr, Hs. Qed.

(** X16. When the socket the bridge holds opens, the handler marks the
    bridge connected and sends "session.update", and as long as that socket
    is open [connect] does nothing. But [isConnected] has changed, so the
    page re-renders, and the re-render disconnects: the socket is closing,
    the refs of the socket and the microphone stream are cleared and
    [isConnected] is false again. After it, [connect] from the render that
    was connected does nothing, and from a render that is not it begins a new
    connection attempt; a further re-render only tells the caller twice more
    that the bridge is not connected. *)
Theorem opening_rerender_disconnects (ws : nat) (s : WebSocket)
    (w : RealtimeAudio.World) :
  sockets (bridge w) !! ws = Some s -> wsRef (bridge w) = Some ws ->
  isConnected (bridge w) = false ->
  holds_active_recorder w ->
  let w1 := snd (lift_bridge (onopen ws) w) in
  let w2 := snd (Page.rerender env w1) in
  (isConnected (bridge w1) = true
   /\ sent <$> sockets (bridge w1) !! ws = Some (sent s ++ [lit "session.update"])
   /\ forall cap, RealtimeGPT.connect benv cap (bridge w1) = (Normal tt, bridge w1))
  /\ fst (Page.rerender env w1) = Normal tt
  /\ readyState <$> sockets (bridge w2) !! ws = Some CLOSING
  /\ wsRef (bridge w2) = None /\ streamRef (bridge w2) = None
  /\ isConnected (bridge w2) = false
  /\ RealtimeGPT.connect benv true (bridge w2) = (Normal tt, bridge w2)
  /\ attempts_connection (bridge w2) (snd (RealtimeGPT.connect benv false (bridge w2)))
  /\ Page.rerender env w2
     = (Normal tt,
        report (EvConnectionChange false) (report (EvConnectionChange false) w2)).
Proof.
  intros Hs Href Hconn Hrec w1 w2.
  assert (Hs1 : sockets (bridge w1) !! ws
                = Some (send "session.update" (with_readyState OPEN s))).
  { subst w1. unfold lift_bridge, onopen, mbind, St_bind, bind, modify,
      RealtimeGPT.emit. cbn. now rewrite !list_lookup_alter_eq, Hs. }
  assert (Href1 : wsRef (bridge w1) = Some ws) by (subst w1; exact Href).
  assert (Hrec1 : holds_active_recorder w1) by (subst w1; exact Hrec).
  assert (Hc1 : isConnected (bridge w1) = true) by (subst w1; reflexivity).
  clearbody w1. subst w2. rewrite (rerender_eq w1 Hrec1). cbn [fst snd].
  destruct (disconnected_refs w1) as (Hr & Hst & Hws & Hc & Hl & _).
  split; [split; [exact Hc1|split]|].
  - rewrite Hs1. reflexivity.
  - intros cap. rewrite bridge_connect_unfold.
    rewrite (socket_open_lookup _ ws _ Href1 Hs1). cbn [readyState send with_readyState].
    rewrite bool_decide_eq_true_2 by reflexivity. now rewrite orb_true_r.
  - split; [reflexivity|]. split.
    { unfold report, disconnected, ws_close, modify. rewrite Href1.
      destruct (mediaRecorderRef w1); destruct (streamRef (bridge w1)); cbn;
        rewrite list_lookup_alter_eq, Hs1; reflexivity. }
    split; [exact Hws|]. split; [exact Hst|]. split; [exact Hc|]. split.
    + rewrite bridge_connect_unfold. reflexivity.
    + split.
      * apply bridge_connect_attempts. split; [reflexivity|].
        unfold socket_open. cbn [report set_bridge bridge].
        cbn [RealtimeGPT.emit modify snd wsRef]. now rewrite Hws.
      * apply rerender_again; [exact Hr|exact Hst|exact Hws|exact Hc|exact Hl].
Qed.

(** X20. [startListening] on an open socket sets [isListening], so the
    page re-renders, and the re-render disconnects: the recorder just
    started is inactive and forgotten, [isListening] is false again, the
    socket is closing and has got the one commit message of
    [startListening]. [stopListening], from a render of either state, then
    does nothing: no second commit is sent. *)
Theorem listening_rerender_stops_recording (ws : nat) (s : WebSocket)
    (stream : MediaStream) (w : RealtimeAudio.World) :
  wsRef (bridge w) = Some ws -> sockets (bridge w) !! ws = Some s ->
  readyState s = OPEN ->
  streamRef (bridge w) = Some stream ->
  isListening (bridge w) = false ->
  supported env stream = true -> starts env stream = true ->
  let w1 := snd (startListening env true false w) in
  let w2 := snd (Page.rerender env w1) in
  isListening (bridge w1) = true
  /\ fst (Page.rerender env w1) = Normal tt
  /\ recorders w2 = recorders w ++ [ {| r_stream := stream; r_state := Inactive |} ]
  /\ mediaRecorderRef w2 = None
  /\ isListening (bridge w2) = false
  /\ sent <$> sockets (bridge w2) !! ws
     = Some (sent s ++ [ lit "input_audio_buffer.commit" ])
  /\ readyState <$> sockets (bridge w2) !! ws = Some CLOSING
  /\ forall isListening, stopListening env isListening w2 = (Normal tt, w2).
Proof.
  intros Href Hs Hopen Hstream Hl Hsup Hstart w1 w2.
  pose proof (startListening_reaches_send env ws stream w Href Hstream Hsup Hstart)
    as E.
  unfold try_catch in E.
  rewrite (ws_send_eq ws _ (recording stream w) s) in E by exact Hs.
  rewrite Hopen in E. unfold recording in E.
  assert (Hw1 : w1 = snd (startListening env true false w)) by reflexivity.
  rewrite E in Hw1. cbn [snd] in Hw1. clear E. clearbody w1.
  assert (Hrec1 : holds_active_recorder w1).
  { subst w1. intros r rec. cbn [mediaRecorderRef recorders set_bridge
      set_recorders set_mediaRecorderRef]. intros [= <-].
    rewrite list_lookup_middle by reflexivity. now intros [= <-]. }
  assert (Href1 : mediaRecorderRef w1 = Some (length (recorders w)))
    by (subst w1; reflexivity).
  assert (Hws1 : wsRef (bridge w1) = Some ws) by (subst w1; exact Href).
  assert (Hs1 : sockets (bridge w1) !! ws
                = Some (send "input_audio_buffer.commit" s)).
  { subst w1. cbn [bridge set_bridge set_sockets sockets setIsListening
                   set_recorders set_mediaRecorderRef].
    now rewrite list_lookup_alter_eq, Hs. }
  assert (Hl1 : isListening (bridge w1) = true) by (subst w1; reflexivity).
  assert (Hr1 : recorders w1
                = recorders w ++ [ {| r_stream := stream; r_state := Recording |} ])
    by (subst w1; reflexivity).
  clear Hw1. subst w2. rewrite (rerender_eq w1 Hrec1). cbn [fst snd].
  destruct (disconnected_refs w1) as (Hr & _ & _ & _ & Hl2 & _).
  split; [exact Hl1|]. split; [reflexivity|].
  assert (Hrecs : recorders (report (EvConnectionChange false) (disconnected w1))
                  = recorders w ++ [ {| r_stream := stream; r_state := Inactive |} ]).
  { unfold report, disconnected, ws_close, modify. rewrite Href1, Hws1.
    destruct (streamRef (bridge w1)); cbn; rewrite Hr1, alter_last; reflexivity. }
  assert (Hsock : sockets (bridge (report (EvConnectionChange false) (disconnected w1)))
                    !! ws
                  = Some (with_readyState CLOSING (send "input_audio_buffer.commit" s))).
  { unfold report, disconnected, ws_close, modify. rewrite Href1, Hws1.
    destruct (streamRef (bridge w1)); cbn; rewrite list_lookup_alter_eq, Hs1; cbn;
      rewrite Hopen; reflexivity. }
  split; [exact Hrecs|]. split; [exact Hr|]. split; [exact Hl2|].
  split; [rewrite Hsock; reflexivity|]. split; [rewrite Hsock; reflexivity|].
  intros isl. unfold stopListening, mbind, St_bind, bind, get. cbn [fst snd].
  cbn [report set_bridge mediaRecorderRef]. rewrite Hr.
  destruct isl; reflexivity.
Qed.

End RerenderProps.

(** ** The page *)

Lemma trimStart_nonspace (c : N) (r : jsstring) :
  is_js_space c = false -> trimStart (c :: r) = c :: r.
Proof. intros H. simpl. now rewrite H. Qed.

Lemma trimStart_shape (s : jsstring) :
  trimStart s = [] \/ exists c r, trimStart s = c :: r /\ is_js_space c = false.
Proof.
  induction s as [|c s IH]; [now left|]. simpl.
  destruct (is_js_space c) eqn:E; [exact IH|]. right. eauto.
Qed.

Lemma trimStart_snoc (l : jsstring) (c : N) :
  is_js_space c = false -> trimStart (l ++ [c]) = trimStart l ++ [c].
Proof.
  intros H. induction l as [|x l IH]; simpl.
  - now rewrite H.
  - destruct (is_js_space x); [exact IH|reflexivity].
Qed.

Lemma trimEnd_cons (c : N) (r : jsstring) :
  is_js_space c = false -> trimEnd (c :: r) = c :: trimEnd r.
Proof.
  intros H. unfold trimEnd. simpl. rewrite trimStart_snoc by exact H.
  rewrite rev_app_distr. reflexivity.
Qed.

Lemma trimStart_idempotent (s : jsstring) : trimStart (trimStart s) = trimStart s.
Proof.
  destruct (trimStart_shape s) as [->|(c & r & -> & H)]; [reflexivity|].
  now apply trimStart_nonspace.
Qed.

Lemma trim_idempotent (s : jsstring) : trim (trim s) = trim s.
Proof.
  unfold trim.
  destruct (trimStart_shape s) as [->|(c & r & -> & H)]; [reflexivity|].
  rewrite (trimEnd_cons c r H), (trimStart_nonspace c _ H).
  rewrite <- (trimEnd_cons c r H). unfold trimEnd.
  now rewrite rev_involutive, trimStart_idempotent.
Qed.

Section PageProps.

Import Page.

Variable env : Env.

Lemma speak_trimmed (cap : HookState) (s : jsstring) (w : World) :
  speak env cap (trim s) w = speak env cap s w.
Proof. unfold speak. now rewrite trim_idempotent. Qed.

(** X23. A message typed into the text area is handled with the state of
    the render in which it is sent ([cap]); a text received from the voice
    bridge with the state of the render whose [connect] opened the socket
    ([cap0]). Each is spoken exactly when it is not blank and its own render
    had the stream ready, through that render's [speak] and with the same
    trimmed text, since trimming twice is trimming once. So a received text
    is dropped when the socket was opened before the stream was ready, even
    where the same text typed now is spoken. A message that is sent empties
    the text area, whether or not [speak] issues a request. *)
Theorem typed_and_received_text_use_their_renders (cap cap0 : HookState)
    (s : jsstring) (h : Home) :
  textArea h = Some s ->
  let h' := snd (handleSendMessage env cap h) in
  let received := snd (onTextReceived env cap0 (JStr s) (agent h)) in
  (blank s = false -> isStreamReady cap = true ->
   textArea h' = Some [] /\ agent h' = snd (speak env cap s (agent h)))
  /\ (blank s = true \/ isStreamReady cap = false -> h' = h)
  /\ (blank s = false -> isStreamReady cap0 = true ->
      received = snd (speak env cap0 s (agent h)))
  /\ (blank s = true \/ isStreamReady cap0 = false -> received = agent h)
  /\ (cap0 = cap -> agent h' = received).
Proof.
  intros Ht h' received. subst h' received.
  unfold handleSendMessage, onTextReceived, speak_detached, mbind, St_bind, bind,
    get, modify. cbn [fst snd]. rewrite Ht.
  assert (Hb : blank s = negb (negb (is_empty (trim s)))).
  { rewrite negb_involutive. destruct (trim s) eqn:E.
    - now apply trim_nil in E.
    - destruct (blank s) eqn:E'; [|reflexivity]. apply trim_nil in E'. congruence. }
  destruct (negb (is_empty (trim s))) eqn:Hne; cbn [negb] in Hb.
  - assert (Hte : is_empty (trim s) = false) by (now apply negb_true_iff in Hne).
    split; [|split; [|split; [|split]]].
    + intros _ Hr. rewrite Hr. cbn [fst snd agent set_agent set_textArea textArea].
      rewrite Ht, speak_trimmed. auto.
    + intros [H|H]; [congruence|]. rewrite H. reflexivity.
    + intros _ Hr. rewrite Hr. reflexivity.
    + intros [H|H]; [congruence|]. rewrite H. reflexivity.
    + intros ->. destruct (isStreamReady cap); cbn; [|reflexivity].
      now rewrite speak_trimmed.
  - split; [|split; [|split; [|split]]]; try (intros; congruence).
    + intros _. destruct (isStreamReady cap); reflexivity.
    + intros _. reflexivity.
    + intros _. destruct (isStreamReady cap); reflexivity.
Qed.

End PageProps.

Lemma startListening_starts_recorder_witness :
  let w' := snd (RealtimeAudio.startListening audio_env true false audio0) in
  RealtimeAudio.recorders w'
  = [ {| RealtimeAudio.r_stream := {| getTracks := [0%nat] |};
         RealtimeAudio.r_state := RealtimeAudio.Recording |} ]
  /\ RealtimeGPT.isListening (RealtimeAudio.bridge w') = true.
Proof.
  intros w'.
  pose proof (startListening_starts_recorder audio_env 0
                {| RealtimeGPT.ws_url := RealtimeGPT.realtime_url (JStr (lit "sk-test"));
                   RealtimeGPT.readyState := RealtimeGPT.OPEN;
                   RealtimeGPT.sent := [lit "session.update"];
                   RealtimeGPT.ws_isConnected := false |}
                {| getTracks := [0%nat] |} audio0
                eq_refl eq_refl eq_refl eq_refl eq_refl) as H.
  subst w'. rewrite H. split; reflexivity.
Defined.


Lemma disconnect_releases_everything_witness :
  let w := snd (RealtimeAudio.startListening audio_env true false audio0) in
  let w' := snd (RealtimeAudio.disconnect audio_env w) in
  RealtimeGPT.wsRef (RealtimeAudio.bridge w') = None
  /\ RealtimeAudio.disconnect audio_env w'
     = (Normal tt, report (RealtimeGPT.EvConnectionChange false) w').
Proof.
  intros w w'.
  assert (H : holds_active_recorder w).
  { intros r rec [= <-] [= <-]. reflexivity. }
  destruct (disconnect_releases_everything audio_env w H)
    as (_ & _ & _ & Hws & _ & _ & _ & _ & _ & _ & Hagain & _).
  split; [exact Hws|exact Hagain].
Defined.


(** ** Loading the configuration *)

Section LoadConfigProps.

Variable env : Env.

(** X24. Loading the configuration never throws and issues one request,
    to "/api/config". The status of the answer is not looked at: whatever
    JSON the body holds is stored as the configuration, so an error answer
    with an object body is stored too, its missing [key] and [url] reading
    "undefined". When the fetch rejects or the body is not JSON, the hook's
    state is unchanged. *)
Theorem loadApiConfig_stores_any_json (w : World) :
  let r := loadApiConfig env w in
  fst r = Normal tt
  /\ trace (snd r) = trace w ++ [EvFetch config_request]
  /\ (forall res config,
        server env (issued w) config_request = Responded res ->
        json res = Some config ->
        hook (snd r) = with_apiConfig (config_of config) (hook w))
  /\ (forall res fs,
        server env (issued w) config_request = Responded res ->
        json res = Some (JObj fs) ->
        apiConfig (hook (snd r))
        = Some {| key := to_string (assoc (lit "key") fs);
                  url := to_string (assoc (lit "url") fs) |})
  /\ ((forall res, server env (issued w) config_request = Responded res ->
                   json res = None) ->
      hook (snd r) = hook w).
Proof.
  intros r. subst r.
  unfold loadApiConfig, try_catch, mbind, St_bind, bind, fetch, response_json,
    setApiConfig, modify, emit.
  cbn [fst snd config_request]. fold config_request. fold (issued w).
  destruct (server env (issued w) config_request) as [res|e] eqn:Hs.
  - destruct (json res) as [config|] eqn:Hj.
    + cbn. split; [reflexivity|]. split; [reflexivity|]. split.
      { intros res' config' [= <-]. rewrite Hj. intros [= <-]. reflexivity. }
      split.
      { intros res' fs [= <-]. rewrite Hj. intros [= ->]. reflexivity. }
      intros H. specialize (H res eq_refl). congruence.
    + cbn. split; [reflexivity|]. split; [reflexivity|]. split.
      { intros res' config' [= <-]. rewrite Hj. discriminate. }
      split.
      { intros res' fs [= <-]. rewrite Hj. discriminate. }
      intros _. reflexivity.
  - cbn. split; [reflexivity|]. split; [reflexivity|]. split; [discriminate|].
    split; [discriminate|]. intros _. reflexivity.
Qed.

End LoadConfigProps.

Lemma opening_rerender_disconnects_witness :
  let w := {| RealtimeAudio.bridge :=
                snd (RealtimeGPT.connect bridge_env false bridge0);
              RealtimeAudio.mediaRecorderRef := None;
              RealtimeAudio.recorders := [];
              RealtimeAudio.mic_tracks := [ {| kind := Audio; ended := false |} ];
              RealtimeAudio.readers := 0 |} in
  let w1 := snd (RealtimeAudio.lift_bridge (RealtimeGPT.onopen 0) w) in
  let w2 := snd (Page.rerender audio_env w1) in
  RealtimeGPT.readyState <$> RealtimeGPT.sockets (RealtimeAudio.bridge w2) !! 0%nat
  = Some RealtimeGPT.CLOSING
  /\ RealtimeGPT.isConnected (RealtimeAudio.bridge w2) = false
  /\ attempts_connection (RealtimeAudio.bridge w2)
       (snd (RealtimeGPT.connect bridge_env false (RealtimeAudio.bridge w2))).
Proof.
  intros w w1 w2.
  assert (H : holds_active_recorder w) by (intros r rec [=]).
  destruct (opening_rerender_disconnects bridge_env audio_env 0
              {| RealtimeGPT.ws_url := RealtimeGPT.realtime_url (JStr (lit "sk-test"));
                 RealtimeGPT.readyState := RealtimeGPT.CONNECTING;
                 RealtimeGPT.sent := []; RealtimeGPT.ws_isConnected := false |}
              w eq_refl eq_refl eq_refl H)
    as (_ & _ & Hclosing & _ & _ & Hconn & _ & Hattempt & _).
  split; [exact Hclosing|]. split; [exact Hconn|exact Hattempt].
Defined.

Lemma listening_rerender_stops_recording_witness :
  let w1 := snd (RealtimeAudio.startListening audio_env true false audio0) in
  let w2 := snd (Page.rerender audio_env w1) in
  RealtimeGPT.sent <$> RealtimeGPT.sockets (RealtimeAudio.bridge w2) !! 0%nat
  = Some [ lit "session.update"; lit "input_audio_buffer.commit" ]
  /\ RealtimeAudio.stopListening audio_env true w2 = (Normal tt, w2).
Proof.
  intros w1 w2.
  destruct (listening_rerender_stops_recording audio_env 0
              {| RealtimeGPT.ws_url := RealtimeGPT.realtime_url (JStr (lit "sk-test"));
                 RealtimeGPT.readyState := RealtimeGPT.OPEN;
                 RealtimeGPT.sent := [lit "session.update"];
                 RealtimeGPT.ws_isConnected := false |}
              {| getTracks := [0%nat] |} audio0
              eq_refl eq_refl eq_refl eq_refl eq_refl eq_refl eq_refl)
    as (_ & _ & _ & _ & _ & Hsent & _ & Hstop).
  split; [exact Hsent|exact (Hstop true)].
Defined.

Lemma typed_and_received_text_use_their_renders_witness :
  let env := env_of (respond 200 (Some agent_json))
               (respond 200 (Some (stream_json true))) (respond 200 None) in
  let h := {| Page.agent := world2 true; Page.textArea := Some (lit " hello ") |} in
  let h' := snd (Page.handleSendMessage env (hook1 true) h) in
  (Page.textArea h' = Some []
   /\ Page.agent h' = snd (speak env (hook1 true) (lit " hello ") (world2 true)))
  /\ snd (Page.onTextReceived env hook0 (JStr (lit " hello ")) (world2 true))
     = world2 true.
Proof.
  intros env h h'.
  destruct (typed_and_received_text_use_their_renders env (hook1 true) hook0
              (lit " hello ") h eq_refl) as (H1 & _ & _ & H4 & _).
  split; [exact (H1 eq_refl eq_refl)|exact (H4 (or_intror eq_refl))].
Defined.
